(** * cuda-convnet: the layer graph of [layer.cu]

    A shallow embedding of the host-side control flow of [src/layer.cu]:
    construction of the layer graph, the dependency-counted forward and
    backward passes, the per-layer-kind computations, and the numerical
    gradient check.  CUDA kernels, the neuron functions and the
    [ErrorResult] reduction are external collaborators: they are fields of
    an interface ([Kernels]) and every statement holds for all of their
    implementations.  Scalars are an interface as well ([FloatOps]), so
    nothing below assumes exact arithmetic unless a law is stated as a
    hypothesis. *)

From Stdlib Require Import ZArith QArith Qround Lia String List Permutation.
From stdpp Require Import base list strings numbers gmap pretty.

Local Open Scope string_scope.
Local Open Scope list_scope.
Local Open Scope Z_scope.

(** ** Outcomes

    A call returns normally, throws a [string] (every [throw] in the file
    throws one), trips an [assert], runs into undefined behaviour (an
    unchecked index, a null pointer) or, in the embedding only, exhausts
    the recursion budget.  [Throw] keeps the state at the throw point. *)

Inductive Outcome (E A : Type) : Type :=
| Ok (a : A)
| Throw (msg : string) (at_throw : E)
| Abort
| Undefined
| OutOfFuel.

Arguments Ok {E A} a.
Arguments Throw {E A} msg at_throw.
Arguments Abort {E A}.
Arguments Undefined {E A}.
Arguments OutOfFuel {E A}.

Definition bindO {E A B : Type} (m : Outcome E A) (k : A -> Outcome E B)
  : Outcome E B :=
  match m with
  | Ok a => k a
  | Throw msg e => Throw msg e
  | Abort => Abort
  | Undefined => Undefined
  | OutOfFuel => OutOfFuel
  end.

Notation "'do' x <- m ; k" := (bindO m (fun x => k))
  (at level 10, x name, m at level 100, k at level 200).

(** [assert(b)] *)
Definition assertO {E : Type} (b : bool) : Outcome E unit :=
  if b then Ok tt else Abort.

(** An unchecked access: [None] is undefined behaviour. *)
Definition deref {E A : Type} (o : option A) : Outcome E A :=
  match o with Some a => Ok a | None => Undefined end.

(** A [for] loop over the elements of a vector, in order. *)
Fixpoint forEach {E A S : Type} (body : A -> S -> Outcome E S) (xs : list A)
  (s : S) : Outcome E S :=
  match xs with
  | [] => Ok s
  | x :: xs' => do s' <- body x s; forEach body xs' s'
  end.

Fixpoint mapO {E A B : Type} (f : A -> Outcome E B) (xs : list A)
  : Outcome E (list B) :=
  match xs with
  | [] => Ok []
  | x :: xs' => do y <- f x; do ys <- mapO f xs'; Ok (y :: ys)
  end.

(** ** C [int] *)

Definition wrap32 (z : Z) : Z := (z + 2 ^ 31) mod 2 ^ 32 - 2 ^ 31.
Definition int_mul (a b : Z) : Z := wrap32 (a * b).
Definition int_div (a b : Z) : Z := wrap32 (Z.quot a b).
Definition in_int (z : Z) : Prop := - 2 ^ 31 <= z < 2 ^ 31.

(** ** Scalars: [float] and [double] *)

Class FloatOps (F : Type) : Type := {
  of_int : Z -> F;              (* conversion of an [int] *)
  of_dec : Z -> Z -> F;         (* the literal [m * 10^e] *)
  fadd : F -> F -> F;
  fsub : F -> F -> F;
  fmul : F -> F -> F;
  fdiv : F -> F -> F;
  fopp : F -> F;
  fexp : F -> F;
  fsqrt : F -> F;
  fmax : F -> F -> F;
  feqb : F -> F -> bool;
  fgeb : F -> F -> bool
}.

(** ** Matrices

    Both the host [Matrix] and the device [NVMatrix] are modelled by their
    logical contents, a list of rows.  [transpose(bool)] only toggles the
    view flag of a buffer and leaves the logical contents alone, so it has
    no counterpart here; copies between host and device are value copies. *)

Definition Matrix (F : Type) : Type := list (list F).

Section MatrixOps.
Context {F : Type} `{FloatOps F}.

Definition getNumRows (m : Matrix F) : Z := Z.of_nat (length m).
Definition getNumCols (m : Matrix F) : Z :=
  match m with [] => 0 | r :: _ => Z.of_nat (length r) end.

Definition sameShape (a b : Matrix F) : bool :=
  (getNumRows a =? getNumRows b) && (getNumCols a =? getNumCols b).

(** [m(i,j)] and [m(i,j) = x] *)
Definition mget (i j : nat) (m : Matrix F) : option F :=
  match m !! i with Some r => r !! j | None => None end.
Definition mset (i j : nat) (x : F) (m : Matrix F) : Matrix F :=
  alter (fun r => <[j := x]> r) i m.

(** Modelled from the spec: the [Matrix]/[NVMatrix] primitives (shape,
    elementwise apply, reductions along an axis, matrix product), whose
    class is not part of [layer.cu]. *)
Definition mzero (rows cols : nat) : Matrix F :=
  replicate rows (replicate cols (of_int 0)).
Definition madd (a b : Matrix F) : Matrix F := zip_with (zip_with fadd) a b.
Definition subtract (a b : Matrix F) : Matrix F := zip_with (zip_with fsub) a b.
Definition scale (c : F) (a : Matrix F) : Matrix F := map (map (fmul c)) a.
Definition apply (f : F -> F) (a : Matrix F) : Matrix F := map (map f) a.
Definition truncate (a : Matrix F) : Matrix F := [].

Definition rowsum (r : list F) : F := foldl fadd (of_int 0) r.
Definition rowmax (r : list F) : F :=
  match r with [] => of_int 0 | x :: r' => foldl fmax x r' end.

Fixpoint getTranspose (m : Matrix F) : Matrix F :=
  match m with
  | [] => []
  | [r] => map (fun x => [x]) r
  | r :: m' => zip_with cons r (getTranspose m')
  end.

(** [sum(1)], [max(1)]: one entry per row, as a column vector. *)
Definition sum1 (a : Matrix F) : Matrix F := map (fun r => [rowsum r]) a.
Definition max1 (a : Matrix F) : Matrix F := map (fun r => [rowmax r]) a.
(** [sum(0)], [max(0)]: one entry per column, as a row vector. *)
Definition sum0 (a : Matrix F) : Matrix F := getTranspose (sum1 (getTranspose a)).
Definition max0 (a : Matrix F) : Matrix F := getTranspose (max1 (getTranspose a)).
(** [sum()] *)
Definition total (a : Matrix F) : F := rowsum (map rowsum a).
(** [norm()]: the Frobenius norm. *)
Definition norm (a : Matrix F) : F :=
  fsqrt (total (apply (fun x => fmul x x) a)).

(** [a.addVector(vec, scale, target)]: [target = a + scale * vec], the
    vector broadcast along the other axis. *)
Definition addVector (a vec : Matrix F) (c : F) : Matrix F :=
  if (length vec =? length a)%nat && (getNumCols vec =? 1)
  then zip_with (fun r v => match v with
                            | m :: _ => map (fun x => fadd x (fmul c m)) r
                            | [] => r
                            end) a vec
  else match vec with
       | v :: _ => map (fun r => zip_with (fun x b => fadd x (fmul c b)) r v) a
       | [] => a
       end.

(** [a.eltwiseDivideByVector(vec)] for a column vector. *)
Definition eltwiseDivideByVector (a vec : Matrix F) : Matrix F :=
  zip_with (fun r v => match v with
                       | m :: _ => map (fun x => fdiv x m) r
                       | [] => r
                       end) a vec.

Definition dot (r c : list F) : F := rowsum (zip_with fmul r c).
(** [a.rightMult(b, target)]: [target = a * b]. *)
Definition rightMult (a b : Matrix F) : Matrix F :=
  map (fun r => map (dot r) (getTranspose b)) a.
(** [t.addProduct(a, b, scaleThis, scaleAB)]:
    [t = scaleThis * t + scaleAB * a * b]. *)
Definition addProduct (t a b : Matrix F) (scaleThis scaleAB : F) : Matrix F :=
  madd (scale scaleThis t) (scale scaleAB (rightMult a b)).
End MatrixOps.

(** ** External collaborators

    The CUDA kernels and library routines called from [layer.cu], the
    [Neuron] functions and the [ErrorResult] reduction.  Each is a pure
    function of the buffers it reads; a kernel that writes a target is the
    function computing what it writes. *)

Record ConvParams : Type := {
  padding : Z; stride : Z; filterSize : Z; modulesX : Z; channels : Z;
  imgSize : Z; numFilters : Z; partialSum : Z;
  modules : Z; filterPixels : Z; imgPixels : Z
}.

Record PoolParams : Type := {
  pl_channels : Z; subsX : Z; start : Z; pl_stride : Z; outputsX : Z;
  pl_imgSize : Z; pool : string
}.

Class Kernels (F : Type) : Type := {
  neuron_activate : string -> Matrix F -> Matrix F;
  neuron_computeInputGrads : string -> Matrix F -> Matrix F -> Matrix F;
  convFilterActs : Matrix F -> Matrix F -> ConvParams -> Matrix F;
  convImgActs : Matrix F -> Matrix F -> ConvParams -> Matrix F;
  convWeightActs : Matrix F -> Matrix F -> ConvParams -> Matrix F;
  convWeightActsPartial : Matrix F -> Matrix F -> ConvParams -> Z -> Matrix F;
  reshape : Z -> Z -> Matrix F -> Matrix F;
  convLocalPool : bool -> Matrix F -> PoolParams -> Matrix F;
  convLocalMaxUndo : Matrix F -> Matrix F -> Matrix F -> PoolParams -> Matrix F;
  convLocalAvgUndo : Matrix F -> PoolParams -> Matrix F;
  kSoftmaxGrads : Matrix F -> Matrix F -> Matrix F;
  kLogregCost : Matrix F -> Matrix F -> Matrix F -> Z -> Matrix F * Matrix F;
  kLogregCostGrads : Matrix F -> Matrix F -> Z -> F -> Matrix F;
  ErrorResult_getCost : list (string * F * list F) -> F
}.

(** ** The parameter dictionaries

    A layer is declared by a Python dict.  The C API macros used by the
    constructors do no checking: a missing key or a value of another type
    is undefined behaviour. *)

Inductive PyObject (F : Type) : Type :=
| PyInt (z : Z)
| PyFloat (x : F)
| PyString (s : string)
| PyIntList (zs : list Z)
| PyFloatList (xs : list F)
| PyArray (m : Matrix F)
| PyArrayList (ms : list (Matrix F)).

Arguments PyInt {F} z.
Arguments PyFloat {F} x.
Arguments PyString {F} s.
Arguments PyIntList {F} zs.
Arguments PyFloatList {F} xs.
Arguments PyArray {F} m.
Arguments PyArrayList {F} ms.

Abbreviation PyDict F := (gmap string (PyObject F)).

Section Params.
Context {F : Type} {E : Type}.

Definition getString (d : PyDict F) (k : string) : Outcome E string :=
  match d !! k with Some (PyString s) => Ok s | _ => Undefined end.
(** [PyInt_AS_LONG] assigned to an [int] field *)
Definition getInt (d : PyDict F) (k : string) : Outcome E Z :=
  match d !! k with Some (PyInt z) => Ok (wrap32 z) | _ => Undefined end.
Definition getFloat (d : PyDict F) (k : string) : Outcome E F :=
  match d !! k with Some (PyFloat x) => Ok x | _ => Undefined end.
Definition getMatrix (d : PyDict F) (k : string) : Outcome E (Matrix F) :=
  match d !! k with Some (PyArray m) => Ok m | _ => Undefined end.
Definition getMatrixVec (d : PyDict F) (k : string)
  : Outcome E (list (Matrix F)) :=
  match d !! k with Some (PyArrayList ms) => Ok ms | _ => Undefined end.
Definition getFloatVec (d : PyDict F) (k : string) : Outcome E (list F) :=
  match d !! k with Some (PyFloatList xs) => Ok xs | _ => Undefined end.
(** [getIntVec]: [NULL] when there is no such list. *)
Definition getIntVec (d : PyDict F) (k : string) : option (list Z) :=
  match d !! k with Some (PyIntList zs) => Some zs | _ => None end.
End Params.

(** ** Layers

    A layer object is split in two: the fields fixed once the graph is
    built ([Layer]: name, kind, flags, the links to other layers, given as
    indices into [LayerGraph::_layers]) and the fields rewritten during the
    passes ([LayerState]: the two counters, the buffers, the weights). *)

Inductive LayerKind (F : Type) : Type :=
| FCLayer (neuron : string)
| ConvLayer (c : ConvParams) (neuron : string)
| PoolLayer (p : PoolParams)
| DataLayer (dataIdx : Z)
| SoftmaxLayer
| LogregCost (coeff : F).

Arguments FCLayer {F} neuron.
Arguments ConvLayer {F} c neuron.
Arguments PoolLayer {F} p.
Arguments DataLayer {F} dataIdx.
Arguments SoftmaxLayer {F}.
Arguments LogregCost {F} coeff.

Record Layer (F : Type) : Type := mkLayer {
  getName : string;
  kind : LayerKind F;
  isPropagateGrad : bool;
  isGradProducer : bool;
  trans : bool;
  getPrev : list nat;
  getNext : list nat;
  numGradProducersNext : Z
}.

Arguments mkLayer {F}.
Arguments getName {F} _.
Arguments kind {F} _.
Arguments isPropagateGrad {F} _.
Arguments isGradProducer {F} _.
Arguments trans {F} _.
Arguments getPrev {F} _.
Arguments getNext {F} _.
Arguments numGradProducersNext {F} _.

(** Modelled from the spec: the [Weights] container (a weight matrix, its
    increment matrix, its gradient accumulator, and the learning rate,
    weight decay and momentum scalars), declared outside [layer.cu]. *)
Record Weights (F : Type) : Type := mkWeights {
  getW : Matrix F;
  getInc : Matrix F;
  getGrads : Matrix F;
  getEps : F;
  getWC : F;
  getMom : F
}.

Arguments mkWeights {F}.
Arguments getW {F} _.
Arguments getInc {F} _.
Arguments getGrads {F} _.
Arguments getEps {F} _.
Arguments getWC {F} _.
Arguments getMom {F} _.

Record LayerState (F : Type) : Type := mkLayerState {
  getRcvdFInputs : Z;
  getRcvdBInputs : Z;
  getActs : Matrix F;
  getActGrads : Matrix F;
  weights : list (Weights F);
  biases : Weights F;
  err : list F
}.

Arguments mkLayerState {F}.
Arguments getRcvdFInputs {F} _.
Arguments getRcvdBInputs {F} _.
Arguments getActs {F} _.
Arguments getActGrads {F} _.
Arguments weights {F} _.
Arguments biases {F} _.
Arguments err {F} _.

(** The log of a pass: the layers whose [_fprop] and [_bprop] have run
    (with the gradient buffer handed to [_bprop]), the gradient
    contributions written by a layer [src] into the buffer of a
    predecessor [dst], the kernels launched from [layer.cu] itself and the
    way the convolution weight gradient was computed. *)
Inductive Launch : Type :=
| KSoftmaxGrads (add : bool)
| KLogregCost
| KLogregCostGrads (add : bool)
| KConvWeightActs (chunk : option Z).

Inductive Event (F : Type) : Type :=
| EvFprop (l : nat)
| EvBprop (l : nat) (v : Matrix F)
| EvActGrads (src dst : nat) (c : Matrix F)
| EvLaunch (l : nat) (k : Launch)
| EvGradientCheck (name : string) (fail : bool).

Arguments EvFprop {F} l.
Arguments EvBprop {F} l v.
Arguments EvActGrads {F} src dst c.
Arguments EvLaunch {F} l k.
Arguments EvGradientCheck {F} name fail.

Record Data (F : Type) : Type := mkData {
  getData : list (Matrix F);
  getNumCases : Z
}.

Arguments mkData {F}.
Arguments getData {F} _.
Arguments getNumCases {F} _.

Record LayerGraph (F : Type) : Type := mkLayerGraph {
  layers : list (Layer F);
  dataLayers : list nat;
  costs : list nat
}.

Arguments mkLayerGraph {F}.
Arguments layers {F} _.
Arguments dataLayers {F} _.
Arguments costs {F} _.

Record GraphState (F : Type) : Type := mkGraphState {
  lstate : list (LayerState F);
  data : option (Data F);
  checkingGrads : bool;
  saveBwdActs : bool;
  numFailures : Z;
  numTests : Z;
  baseErr : F;
  trace : list (Event F)
}.

Arguments mkGraphState {F}.
Arguments lstate {F} _.
Arguments data {F} _.
Arguments checkingGrads {F} _.
Arguments saveBwdActs {F} _.
Arguments numFailures {F} _.
Arguments numTests {F} _.
Arguments baseErr {F} _.
Arguments trace {F} _.

Section Setters.
Context {F : Type}.

Definition set_rcvdFInputs (z : Z) (s : LayerState F) : LayerState F :=
  mkLayerState z (getRcvdBInputs s) (getActs s) (getActGrads s)
               (weights s) (biases s) (err s).
Definition set_rcvdBInputs (z : Z) (s : LayerState F) : LayerState F :=
  mkLayerState (getRcvdFInputs s) z (getActs s) (getActGrads s)
               (weights s) (biases s) (err s).
Definition set_acts (m : Matrix F) (s : LayerState F) : LayerState F :=
  mkLayerState (getRcvdFInputs s) (getRcvdBInputs s) m (getActGrads s)
               (weights s) (biases s) (err s).
Definition set_actGrads (m : Matrix F) (s : LayerState F) : LayerState F :=
  mkLayerState (getRcvdFInputs s) (getRcvdBInputs s) (getActs s) m
               (weights s) (biases s) (err s).
Definition set_weights (ws : list (Weights F)) (s : LayerState F)
  : LayerState F :=
  mkLayerState (getRcvdFInputs s) (getRcvdBInputs s) (getActs s)
               (getActGrads s) ws (biases s) (err s).
Definition set_biases (b : Weights F) (s : LayerState F) : LayerState F :=
  mkLayerState (getRcvdFInputs s) (getRcvdBInputs s) (getActs s)
               (getActGrads s) (weights s) b (err s).
Definition set_err (e : list F) (s : LayerState F) : LayerState F :=
  mkLayerState (getRcvdFInputs s) (getRcvdBInputs s) (getActs s)
               (getActGrads s) (weights s) (biases s) e.

Definition set_W (m : Matrix F) (w : Weights F) : Weights F :=
  mkWeights m (getInc w) (getGrads w) (getEps w) (getWC w) (getMom w).
Definition set_inc (m : Matrix F) (w : Weights F) : Weights F :=
  mkWeights (getW w) m (getGrads w) (getEps w) (getWC w) (getMom w).
Definition set_grads (m : Matrix F) (w : Weights F) : Weights F :=
  mkWeights (getW w) (getInc w) m (getEps w) (getWC w) (getMom w).

Definition set_lstate (ls : list (LayerState F)) (st : GraphState F)
  : GraphState F :=
  mkGraphState ls (data st) (checkingGrads st) (saveBwdActs st)
               (numFailures st) (numTests st) (baseErr st) (trace st).
Definition set_data (d : option (Data F)) (st : GraphState F)
  : GraphState F :=
  mkGraphState (lstate st) d (checkingGrads st) (saveBwdActs st)
               (numFailures st) (numTests st) (baseErr st) (trace st).
Definition set_checkingGrads (b : bool) (st : GraphState F) : GraphState F :=
  mkGraphState (lstate st) (data st) b (saveBwdActs st)
               (numFailures st) (numTests st) (baseErr st) (trace st).
Definition set_counts (fails tests : Z) (st : GraphState F) : GraphState F :=
  mkGraphState (lstate st) (data st) (checkingGrads st) (saveBwdActs st)
               fails tests (baseErr st) (trace st).
Definition set_baseErr (e : F) (st : GraphState F) : GraphState F :=
  mkGraphState (lstate st) (data st) (checkingGrads st) (saveBwdActs st)
               (numFailures st) (numTests st) e (trace st).
Definition log (e : Event F) (st : GraphState F) : GraphState F :=
  mkGraphState (lstate st) (data st) (checkingGrads st) (saveBwdActs st)
               (numFailures st) (numTests st) (baseErr st) (trace st ++ [e]).

(** Update of the mutable fields of layer [l]. *)
Definition upd (l : nat) (f : LayerState F -> LayerState F)
  (st : GraphState F) : GraphState F :=
  set_lstate (alter f l (lstate st)) st.
End Setters.

(** ** Construction of the graph *)

Section Construction.
Context {F : Type} `{FloatOps F}.

Abbreviation Res := (Outcome unit).

(** [&layerGraph->getLayer(idx)], that is [_layers[idx]]: unchecked, and
    only the [n] layers built so far exist. *)
Definition getLayer (n : nat) (idx : Z) : Res nat :=
  if (0 <=? idx) && (idx <? Z.of_nat n) then Ok (Z.to_nat idx) else Undefined.

(** [Layer::Layer]: the name and the backward links. *)
Definition Layer_new (d : PyDict F) (n : nat) : Res (string * list nat) :=
  do nm <- getString d "name";
  do prev <- match getIntVec d "inputs" with
             | None => Ok []
             | Some inputLayers => mapO (getLayer n) inputLayers
             end;
  Ok (nm, prev).

Definition noWeights : Weights F :=
  mkWeights [] [] [] (of_int 0) (of_int 0) (of_int 0).
Definition Weights_initialize (hW hInc : Matrix F) (eps wc mom : F)
  : Weights F :=
  mkWeights hW hInc (apply (fun _ => of_int 0) hW) eps wc mom.
Definition WeightList_initialize (hW hInc : list (Matrix F))
  (eps wc mom : list F) : Res (list (Weights F)) :=
  mapO (fun i =>
          do w <- deref (hW !! i);
          do wi <- deref (hInc !! i);
          do e <- deref (eps !! i);
          do c <- deref (wc !! i);
          do m <- deref (mom !! i);
          Ok (Weights_initialize w wi e c m))
       (seq 0 (length hW)).

Definition newState (ws : list (Weights F)) (b : Weights F) : LayerState F :=
  mkLayerState 0 0 [] [] ws b [].

Definition FCLayer_new (d : PyDict F) (n : nat)
  : Res (Layer F * LayerState F) :=
  do base <- Layer_new d n;
  do hWeights <- getMatrixVec d "weights";
  do hWeightsInc <- getMatrixVec d "weightsInc";
  do hBiases <- getMatrix d "biases";
  do hBiasesInc <- getMatrix d "biasesInc";
  do momW <- getFloatVec d "momW";
  do momB <- getFloat d "momB";
  do epsW <- getFloatVec d "epsW";
  do epsB <- getFloat d "epsB";
  do wc <- getFloatVec d "wc";
  do ws <- WeightList_initialize hWeights hWeightsInc epsW wc momW;
  let b := Weights_initialize hBiases hBiasesInc epsB (of_int 0) momB in
  do neuronType <- getString d "neuron";
  do _ <- assertO (getNumRows hBiases =? 1);
  Ok (mkLayer base.1 (FCLayer neuronType) true true true base.2 [] 0,
      newState ws b).

Definition ConvLayer_new (d : PyDict F) (n : nat)
  : Res (Layer F * LayerState F) :=
  do base <- Layer_new d n;
  do hWeights <- getMatrix d "weights";
  do hWeightsInc <- getMatrix d "weightsInc";
  do hBiases <- getMatrix d "biases";
  do hBiasesInc <- getMatrix d "biasesInc";
  do momW <- getFloat d "momW";
  do momB <- getFloat d "momB";
  do epsW <- getFloat d "epsW";
  do epsB <- getFloat d "epsB";
  do wc <- getFloat d "wc";
  do padding <- getInt d "padding";
  do stride <- getInt d "stride";
  do filterSize <- getInt d "filterSize";
  do modulesX <- getInt d "modulesX";
  do channels <- getInt d "channels";
  do imgSize <- getInt d "imgSize";
  do numFilters <- getInt d "numFilters";
  do partialSum <- getInt d "partialSum";
  let c := Build_ConvParams padding stride filterSize modulesX channels
             imgSize numFilters partialSum
             (int_mul modulesX modulesX)
             (int_mul filterSize filterSize)
             (int_mul imgSize imgSize) in
  let w := Weights_initialize hWeights hWeightsInc epsW wc momW in
  let b := Weights_initialize hBiases hBiasesInc epsB (of_int 0) momB in
  do neuronType <- getString d "neuron";
  do _ <- assertO (Z.of_nat (length base.2) =? 1);
  Ok (mkLayer base.1 (ConvLayer c neuronType) true true false base.2 [] 0,
      newState [w] b).

Definition SoftmaxLayer_new (d : PyDict F) (n : nat)
  : Res (Layer F * LayerState F) :=
  do base <- Layer_new d n;
  Ok (mkLayer base.1 SoftmaxLayer true true true base.2 [] 0,
      newState [] noWeights).

Definition DataLayer_new (d : PyDict F) (n : nat)
  : Res (Layer F * LayerState F) :=
  do base <- Layer_new d n;
  do dataIdx <- getInt d "dataIdx";
  Ok (mkLayer base.1 (DataLayer dataIdx) false false false base.2 [] 0,
      newState [] noWeights).

Definition PoolLayer_new (d : PyDict F) (n : nat)
  : Res (Layer F * LayerState F) :=
  do base <- Layer_new d n;
  do channels <- getInt d "channels";
  do subsX <- getInt d "subsX";
  do start <- getInt d "start";
  do stride <- getInt d "stride";
  do outputsX <- getInt d "outputsX";
  do imgSize <- getInt d "imgSize";
  do pool <- getString d "pool";
  if negb (String.eqb pool "max") && negb (String.eqb pool "avg")
  then Throw (String.append "Unknown pooling type " pool) tt
  else Ok (mkLayer base.1
             (PoolLayer (Build_PoolParams channels subsX start stride
                           outputsX imgSize pool))
             true true false base.2 [] 0,
           newState [] noWeights).

(** [Cost::Cost] under [LogregCost::LogregCost]: the layer produces
    gradient only when its coefficient is not zero. *)
Definition LogregCost_new (d : PyDict F) (n : nat)
  : Res (Layer F * LayerState F) :=
  do base <- Layer_new d n;
  do coeff <- getFloat d "coeff";
  Ok (mkLayer base.1 (LogregCost coeff) true
             (negb (feqb coeff (of_int 0))) false base.2 [] 0,
      newState [] noWeights).

(** [Layer::addNext(l)], for [l] the layer of index [i]. *)
Definition Layer_addNext (i : nat) (gradProducer : bool) (L : Layer F)
  : Layer F :=
  mkLayer (getName L) (kind L) (isPropagateGrad L) (isGradProducer L)
          (trans L) (getPrev L) (getNext L ++ [i])
          (numGradProducersNext L + Z.b2z gradProducer).

Definition Layer_reset (s : LayerState F) : LayerState F :=
  set_rcvdBInputs 0 (set_rcvdFInputs 0 s).

Definition LayerGraph_reset (st : GraphState F) : GraphState F :=
  set_lstate (map Layer_reset (lstate st)) st.

(** The first loop of [LayerGraph::LayerGraph]. *)
Definition instantiate (d : PyDict F)
  (acc : LayerGraph F * list (LayerState F))
  : Res (LayerGraph F * list (LayerState F)) :=
  let g := acc.1 in
  let n := length (layers g) in
  let push (r : Layer F * LayerState F) (isData isCost : bool) :=
    (mkLayerGraph (layers g ++ [r.1])
       (if isData then dataLayers g ++ [n] else dataLayers g)
       (if isCost then costs g ++ [n] else costs g),
     acc.2 ++ [r.2]) in
  do layerType <- getString d "type";
  if String.eqb layerType "fc" then
    do r <- FCLayer_new d n; Ok (push r false false)
  else if String.eqb layerType "conv" then
    do r <- ConvLayer_new d n; Ok (push r false false)
  else if String.eqb layerType "pool" then
    do r <- PoolLayer_new d n; Ok (push r false false)
  else if String.eqb layerType "data" then
    do r <- DataLayer_new d n; Ok (push r true false)
  else if String.eqb layerType "softmax" then
    do r <- SoftmaxLayer_new d n; Ok (push r false false)
  else if String.eqb layerType "cost.logreg" then
    do r <- LogregCost_new d n; Ok (push r false true)
  else Throw (String.append "Unknown layer type " layerType) tt.

(** The second loop: [prev[j]->addNext(_layers[i])] for every [j]. *)
Definition connectLayer (ls : list (Layer F)) (i : nat) : list (Layer F) :=
  match ls !! i with
  | None => ls
  | Some Li =>
      foldl (fun ls' p => alter (Layer_addNext i (isGradProducer Li)) p ls')
            ls (getPrev Li)
  end.

Definition connect (ls : list (Layer F)) : list (Layer F) :=
  foldl connectLayer ls (seq 0 (length ls)).

Definition LayerGraph_new (layerParams : list (PyDict F))
  : Res (LayerGraph F * GraphState F) :=
  do acc <- forEach instantiate layerParams (mkLayerGraph [] [] [], []);
  let g := mkLayerGraph (connect (layers acc.1)) (dataLayers acc.1)
             (costs acc.1) in
  Ok (g, LayerGraph_reset
           (mkGraphState acc.2 None false false 0 0 (of_int 0) [])).
End Construction.

(** ** The forward pass

    The orientation of a buffer (the [_trans] flag and [transpose(bool)],
    which re-label the same device memory) is a matter of memory layout
    and is not modelled: a buffer is the matrix as the layer working on it
    sees it, so the calls to [transpose] in [Layer::fprop] and
    [Layer::bprop] have no counterpart. *)

Definition Run (F : Type) : Type := Outcome (GraphState F) (GraphState F).

Section Forward.
Context {F : Type} `{FloatOps F} `{Kernels F}.
Variable g : LayerGraph F.

Definition layerAt (l : nat) : Outcome (GraphState F) (Layer F) :=
  deref (layers g !! l).
Definition stateAt (l : nat) (st : GraphState F)
  : Outcome (GraphState F) (LayerState F) :=
  deref (lstate st !! l).

(** [_layerGraph->getNumCases()], through the [_data] pointer. *)
Definition LayerGraph_getNumCases (st : GraphState F)
  : Outcome (GraphState F) Z :=
  match data st with Some d => Ok (getNumCases d) | None => Undefined end.

(** [FCLayer::multByInput] over [i = idx, idx+1, ...]. *)
Fixpoint FCLayer_multInputs (ws : list (Weights F)) (idx : nat)
  (v : list (Matrix F)) (acts : Matrix F)
  : Outcome (GraphState F) (Matrix F) :=
  match v with
  | [] => Ok acts
  | input :: v' =>
      do w <- deref (ws !! idx);
      let acts' := match idx with
                   | O => rightMult input (getW w)
                   | S _ => madd acts (rightMult input (getW w))
                   end in
      FCLayer_multInputs ws (S idx) v' acts'
  end.

Definition FCLayer__fprop (neuron : string) (v : list (Matrix F))
  (s : LayerState F) : Outcome (GraphState F) (LayerState F) :=
  do a <- FCLayer_multInputs (weights s) 0 v (getActs s);
  let a := addVector a (getW (biases s)) (of_int 1) in
  Ok (set_acts (neuron_activate neuron a) s).

Definition ConvLayer__fprop (c : ConvParams) (neuron : string)
  (v : list (Matrix F)) (s : LayerState F)
  : Outcome (GraphState F) (LayerState F) :=
  do images <- deref (v !! 0%nat);
  do w <- deref (weights s !! 0%nat);
  let a := convFilterActs images (getW w) c in
  let a := addVector a (getW (biases s)) (of_int 1) in
  Ok (set_acts (neuron_activate neuron a) s).

Definition SoftmaxLayer__fprop (v : list (Matrix F)) (s : LayerState F)
  : Outcome (GraphState F) (LayerState F) :=
  do input <- deref (v !! 0%nat);
  let max := max1 input in
  let a := addVector input max (of_int (-1)) in
  let a := apply fexp a in
  let sum := sum1 a in
  let a := eltwiseDivideByVector a sum in
  Ok (set_acts a s).

Definition DataLayer__fprop (dataIdx : Z) (v : list (Matrix F))
  (s : LayerState F) : Outcome (GraphState F) (LayerState F) :=
  do d <- deref (if 0 <=? dataIdx then v !! Z.to_nat dataIdx else None);
  Ok (set_acts d s).

Definition PoolLayer__fprop (p : PoolParams) (v : list (Matrix F))
  (s : LayerState F) : Outcome (GraphState F) (LayerState F) :=
  do images <- deref (v !! 0%nat);
  if String.eqb (pool p) "max" then
    Ok (set_acts (convLocalPool true images p) s)
  else if String.eqb (pool p) "avg" then
    Ok (set_acts (convLocalPool false images p) s)
  else Ok s.

Definition getNumElements (m : Matrix F) : Z :=
  getNumRows m * getNumCols m.

Definition LogregCost__fprop (numCases : Z) (v : list (Matrix F))
  (s : LayerState F) : Outcome (GraphState F) (LayerState F) :=
  do labels <- deref (v !! 0%nat);
  do probs <- deref (v !! 1%nat);
  let maxProbs := max0 probs in
  let caseStride := getNumCols probs in
  do _ <- assertO (getNumElements labels =? caseStride);
  let r := kLogregCost probs labels maxProbs numCases in
  Ok (set_err [fopp (total r.1); fsub (of_int numCases) (total r.2)] s).

(** The virtual [_fprop(NVMatrixV&)] of layer [l]. *)
Definition Layer__fprop (l : nat) (L : Layer F) (v : list (Matrix F))
  (st : GraphState F) : Run F :=
  do s <- stateAt l st;
  do s' <- match kind L with
           | FCLayer neuron => FCLayer__fprop neuron v s
           | ConvLayer c neuron => ConvLayer__fprop c neuron v s
           | PoolLayer p => PoolLayer__fprop p v s
           | DataLayer dataIdx => DataLayer__fprop dataIdx v s
           | SoftmaxLayer => SoftmaxLayer__fprop v s
           | LogregCost _ =>
               do n <- LayerGraph_getNumCases st;
               LogregCost__fprop n v s
           end;
  let st' := upd l (fun _ => s') st in
  Ok (log (EvFprop l)
          (match kind L with
           | LogregCost _ => log (EvLaunch l KLogregCost) st'
           | _ => st'
           end)).

(** [Layer::fpropNext], with [fprop] the zero-argument entry point. *)
Definition Layer_fpropNext (fprop : nat -> GraphState F -> Run F)
  (L : Layer F) (st : GraphState F) : Run F :=
  forEach fprop (getNext L) st.

(** [Layer::fprop(NVMatrixV&)] *)
Definition Layer_fprop_v (fprop : nat -> GraphState F -> Run F)
  (l : nat) (L : Layer F) (v : list (Matrix F)) (st : GraphState F) : Run F :=
  do _ <- assertO (Z.of_nat (length v) =? Z.of_nat (length (getPrev L)));
  let st := upd l (set_rcvdFInputs (Z.of_nat (length (getPrev L)))) st in
  do st <- Layer__fprop l L v st;
  Layer_fpropNext fprop L st.

(** The first two statements of [Layer::fprop()]: the counter goes up
    by one and is compared with the number of predecessors. *)
Definition Layer_fprop_count (L : Layer F) (s : LayerState F)
  : LayerState F * bool :=
  let s' := set_rcvdFInputs (getRcvdFInputs s + 1) s in
  (s', getRcvdFInputs s' =? Z.of_nat (length (getPrev L))).

(** The activation buffers of the predecessors, in their order. *)
Definition gatherActs (L : Layer F) (st : GraphState F)
  : Outcome (GraphState F) (list (Matrix F)) :=
  (fix go (ps : list nat) :=
     match ps with
     | [] => Ok []
     | p :: ps' =>
         do s <- stateAt p st; do v <- go ps'; Ok (getActs s :: v)
     end) (getPrev L).

(** The virtual [fprop()]: [DataLayer::fprop] for a data layer,
    [Layer::fprop] for the others. *)
Fixpoint Layer_fprop (fuel : nat) (l : nat) (st : GraphState F) : Run F :=
  do L <- layerAt l;
  match kind L with
  | DataLayer _ => Throw "No dava given!" st
  | _ =>
      do s <- stateAt l st;
      let (s', ready) := Layer_fprop_count L s in
      let st := upd l (fun _ => s') st in
      if ready then
        match fuel with
        | O => OutOfFuel
        | S fuel' =>
            do v <- gatherActs L st;
            Layer_fprop_v (Layer_fprop fuel') l L v st
        end
      else Ok st
  end.

(** [DataLayer::fprop(NVMatrixV&)] *)
Definition DataLayer_fprop (fuel : nat) (l : nat) (v : list (Matrix F))
  (st : GraphState F) : Run F :=
  do L <- layerAt l;
  do st <- Layer__fprop l L v st;
  Layer_fpropNext (Layer_fprop fuel) L st.

Definition LayerGraph_setData (d : Data F) (st : GraphState F)
  : GraphState F := set_data (Some d) st.

(** [LayerGraph::fprop(Data&)] *)
Definition LayerGraph_fprop (fuel : nat) (d : Data F) (st : GraphState F)
  : Run F :=
  let st := LayerGraph_reset (LayerGraph_setData d st) in
  forEach (fun i st =>
             do l <- deref (dataLayers g !! i);
             DataLayer_fprop fuel l (getData d) st)
          (seq 0 (length (getData d))) st.

(** [LayerGraph::fprop()] *)
Definition LayerGraph_fprop0 (fuel : nat) (st : GraphState F) : Run F :=
  match data st with
  | None => Abort
  | Some d => LayerGraph_fprop fuel d st
  end.
End Forward.

(** ** The backward pass *)

Section Backward.
Context {F : Type} `{FloatOps F} `{Kernels F}.
Variable g : LayerGraph F.

(** The write into a predecessor's activation-gradient buffer, as every
    layer kind does it: the kernel overwrites the target when the
    predecessor's [getRcvdBInputs()] is zero and adds to it otherwise
    ([addProduct], the [1, 1] scaling arguments, the [<true>] kernels). *)
Definition accumActGrads (c : Matrix F) (sp : LayerState F) : LayerState F :=
  set_actGrads (if getRcvdBInputs sp =? 0 then c
                else madd (getActGrads sp) c) sp.

Definition writeActGrads (l p : nat) (c : Matrix F) (st : GraphState F)
  : GraphState F :=
  log (EvActGrads l p c) (upd p (accumActGrads c) st).

Definition Layer_truncActGrads (l : nat) (st : GraphState F) : GraphState F :=
  if saveBwdActs st then st
  else upd l (fun s => set_actGrads (truncate (getActGrads s)) s) st.

Definition Layer_setSaveBwdActs (b : bool) (st : GraphState F)
  : GraphState F :=
  mkGraphState (lstate st) (data st) (checkingGrads st) b
               (numFailures st) (numTests st) (baseErr st) (trace st).

Definition LayerGraph_isCheckingGrads (st : GraphState F) : bool :=
  checkingGrads st.

(** The two scaling arguments of the [addProduct] on the weight
    increment in [FCLayer::_bprop]. *)
Definition FCLayer_incScales (w : Weights F) (st : GraphState F)
  : Outcome (GraphState F) (F * F) :=
  let scaleThis :=
    fmul (of_int (Z.b2z (negb (LayerGraph_isCheckingGrads st)))) (getMom w) in
  if LayerGraph_isCheckingGrads st then Ok (scaleThis, of_int 1)
  else do n <- LayerGraph_getNumCases st;
       Ok (scaleThis, fdiv (getEps w) (of_int n)).

(** One turn of the loop of [FCLayer::_bprop], up to the call of
    [_prev[i]->bprop()].  [v] is a reference to the layer's own
    [_actGrads], so it is read from the state. *)
Definition FCLayer_bpropInput (l : nat) (L : Layer F) (i : nat)
  (st : GraphState F) : Outcome (GraphState F) (nat * GraphState F) :=
  do p <- deref (getPrev L !! i);
  do Lp <- layerAt g p;
  do s <- stateAt l st;
  let v := getActGrads s in
  do w <- deref (weights s !! i);
  let st := if isPropagateGrad Lp
            then writeActGrads l p (rightMult v (getTranspose (getW w))) st
            else st in
  do sp <- stateAt p st;
  let prevActs_T := getTranspose (getActs sp) in
  do sc <- FCLayer_incScales w st;
  let w' := set_inc (addProduct (getInc w) prevActs_T v sc.1 sc.2) w in
  Ok (p, upd l (fun s => set_weights (<[i := w']> (weights s)) s) st).

Definition FCLayer__bprop (bprop : nat -> GraphState F -> Run F)
  (l : nat) (L : Layer F) (neuron : string) (st : GraphState F) : Run F :=
  do s <- stateAt l st;
  let v := neuron_computeInputGrads neuron (getActs s) (getActGrads s) in
  let st := upd l (fun s => set_biases (set_grads (sum0 v) (biases s))
                              (set_actGrads v s)) st in
  do st <- forEach (fun i st =>
                      do r <- FCLayer_bpropInput l L i st;
                      bprop r.1 r.2)
                   (seq 0 (length (getPrev L))) st;
  Ok (Layer_truncActGrads l st).

(** The weight gradient of [ConvLayer::_bprop]: in chunks of
    [_partialSum] modules that are then summed, or in one call. *)
Definition ConvLayer_weightGrads (l : nat) (c : ConvParams)
  (prevActs v : Matrix F) (st : GraphState F) : GraphState F :=
  if (0 <? partialSum c) && (partialSum c <? modules c) then
    let tmp := convWeightActsPartial prevActs v c (partialSum c) in
    let tmp := reshape (int_div (modules c) (partialSum c))
                 (int_mul (int_mul (channels c) (filterPixels c))
                    (numFilters c)) tmp in
    let gr := reshape (int_mul (channels c) (filterPixels c))
                (numFilters c) (sum0 tmp) in
    log (EvLaunch l (KConvWeightActs (Some (partialSum c))))
        (upd l (fun s => set_weights
                           (alter (set_grads gr) 0%nat (weights s)) s) st)
  else
    log (EvLaunch l (KConvWeightActs None))
        (upd l (fun s => set_weights
                           (alter (set_grads (convWeightActs prevActs v c))
                                  0%nat (weights s)) s) st).

Definition ConvLayer__bprop (bprop : nat -> GraphState F -> Run F)
  (l : nat) (L : Layer F) (c : ConvParams) (neuron : string)
  (st : GraphState F) : Run F :=
  do s <- stateAt l st;
  let v := neuron_computeInputGrads neuron (getActs s) (getActGrads s) in
  let st := upd l (fun s => set_biases (set_grads (sum1 v) (biases s))
                              (set_actGrads v s)) st in
  do p <- deref (getPrev L !! 0%nat);
  do Lp <- layerAt g p;
  do sp <- stateAt p st;
  let prevActs := getActs sp in
  do w <- deref (weights s !! 0%nat);
  let st := if isPropagateGrad Lp
            then writeActGrads l p (convImgActs v (getW w) c) st
            else st in
  do s <- stateAt l st;
  let st := ConvLayer_weightGrads l c prevActs (getActGrads s) st in
  let st := Layer_truncActGrads l st in
  bprop p st.

Definition SoftmaxLayer__bprop (bprop : nat -> GraphState F -> Run F)
  (l : nat) (L : Layer F) (st : GraphState F) : Run F :=
  do p <- deref (getPrev L !! 0%nat);
  do Lp <- layerAt g p;
  if isPropagateGrad Lp then
    do _ <- assertO (Z.of_nat (length (getPrev L)) =? 1);
    do s <- stateAt l st;
    let v := getActGrads s in
    do _ <- assertO (sameShape v (getActs s));
    do sp <- stateAt p st;
    let st := log (EvLaunch l (KSoftmaxGrads (negb (getRcvdBInputs sp =? 0))))
                  st in
    let st := writeActGrads l p (kSoftmaxGrads v (getActs s)) st in
    let st := Layer_truncActGrads l st in
    bprop p st
  else Ok st.

Definition PoolLayer__bprop (bprop : nat -> GraphState F -> Run F)
  (l : nat) (L : Layer F) (pp : PoolParams) (st : GraphState F) : Run F :=
  do p <- deref (getPrev L !! 0%nat);
  do Lp <- layerAt g p;
  if isPropagateGrad Lp then
    do s <- stateAt l st;
    let v := getActGrads s in
    do sp <- stateAt p st;
    let st :=
      if String.eqb (pool pp) "max" then
        writeActGrads l p (convLocalMaxUndo (getActs sp) v (getActs s) pp) st
      else if String.eqb (pool pp) "avg" then
        writeActGrads l p (convLocalAvgUndo v pp) st
      else st in
    let st := Layer_truncActGrads l st in
    bprop p st
  else Ok st.

(** [Cost::_bprop(NVMatrix&)] *)
Definition Cost__bprop (v : Matrix F) (st : GraphState F) : Run F :=
  Throw "Cost does not support _bprop(NVMatrix&)" st.

(** [LogregCost::bprop()] *)
Definition LogregCost_bprop (bprop : nat -> GraphState F -> Run F)
  (l : nat) (L : Layer F) (coeff : F) (st : GraphState F) : Run F :=
  do st <-
    (if negb (feqb coeff (of_int 0)) then
       do p0 <- deref (getPrev L !! 0%nat);
       do p1 <- deref (getPrev L !! 1%nat);
       do s0 <- stateAt p0 st;
       do s1 <- stateAt p1 st;
       let labels := getActs s0 in
       let probs := getActs s1 in
       let caseStride := getNumCols probs in
       do _ <- assertO (getNumElements labels =? caseStride);
       do n <- LayerGraph_getNumCases st;
       let st := log (EvLaunch l (KLogregCostGrads
                                    (negb (getRcvdBInputs s1 =? 0)))) st in
       Ok (writeActGrads l p1 (kLogregCostGrads probs labels n coeff) st)
     else Ok st);
  do p1 <- deref (getPrev L !! 1%nat);
  bprop p1 st.

(** [Layer::bprop(NVMatrix&)] on the layer's own [_actGrads]: the
    virtual [_bprop]. *)
Definition Layer_bprop_v (bprop : nat -> GraphState F -> Run F)
  (l : nat) (L : Layer F) (st : GraphState F) : Run F :=
  do s <- stateAt l st;
  let st := log (EvBprop l (getActGrads s)) st in
  match kind L with
  | FCLayer neuron => FCLayer__bprop bprop l L neuron st
  | ConvLayer c neuron => ConvLayer__bprop bprop l L c neuron st
  | PoolLayer pp => PoolLayer__bprop bprop l L pp st
  | DataLayer _ => Ok st
  | SoftmaxLayer => SoftmaxLayer__bprop bprop l L st
  | LogregCost _ => Cost__bprop (getActGrads s) st
  end.

(** The first two statements of [Layer::bprop()]. *)
Definition Layer_bprop_count (L : Layer F) (s : LayerState F)
  : LayerState F * bool :=
  let s' := set_rcvdBInputs (getRcvdBInputs s + 1) s in
  (s', getRcvdBInputs s' =? numGradProducersNext L).

(** The virtual [bprop()]: empty for a data layer, [LogregCost::bprop]
    for a cost, [Layer::bprop] for the others. *)
Fixpoint Layer_bprop (fuel : nat) (l : nat) (st : GraphState F) : Run F :=
  do L <- layerAt g l;
  match kind L with
  | DataLayer _ => Ok st
  | LogregCost coeff =>
      match fuel with
      | O => OutOfFuel
      | S fuel' => LogregCost_bprop (Layer_bprop fuel') l L coeff st
      end
  | _ =>
      do s <- stateAt l st;
      let (s', ready) := Layer_bprop_count L s in
      let st := upd l (fun _ => s') st in
      if ready then
        match fuel with
        | O => OutOfFuel
        | S fuel' => Layer_bprop_v (Layer_bprop fuel') l L st
        end
      else Ok st
  end.

(** [LayerGraph::bprop()] *)
Definition LayerGraph_bprop (fuel : nat) (st : GraphState F) : Run F :=
  do st <- forEach (Layer_bprop fuel) (costs g) st;
  Ok (LayerGraph_reset st).
End Backward.

(** ** Gradient checking *)

(** The [Weights&] handed to [checkGradientsW]: weight matrix [i] of layer
    [l], or its biases. *)
Inductive WeightsRef : Type :=
| WeightsOf (l : nat) (i : nat)
| BiasesOf (l : nat).

(** The locals of [checkGradientsW] at its [return], with the state. *)
Record GradCheck (F : Type) : Type := mkGradCheck {
  gc_numGrads : Matrix F;
  gc_gradsCPU : Matrix F;
  gc_relErr : F;
  gc_fail : bool;
  gc_state : GraphState F
}.

Arguments mkGradCheck {F}.
Arguments gc_numGrads {F} _.
Arguments gc_gradsCPU {F} _.
Arguments gc_relErr {F} _.
Arguments gc_fail {F} _.
Arguments gc_state {F} _.

Section GradientCheck.
Context {F : Type} `{FloatOps F} `{Kernels F}.
Variable g : LayerGraph F.

Definition GC_SUPPRESS_PASSES : bool := true.
Definition GC_REL_ERR_THRESH : F := of_dec 2 (-2).

Definition getWeights (r : WeightsRef) (st : GraphState F)
  : Outcome (GraphState F) (Weights F) :=
  match r with
  | WeightsOf l i => do s <- stateAt l st; deref (weights s !! i)
  | BiasesOf l => do s <- stateAt l st; Ok (biases s)
  end.

Definition setWeights (r : WeightsRef) (w : Weights F) (st : GraphState F)
  : GraphState F :=
  match r with
  | WeightsOf l i => upd l (fun s => set_weights (<[i := w]> (weights s)) s) st
  | BiasesOf l => upd l (set_biases w) st
  end.

(** [weights.getW().copyFromHost(weightsCPU)] *)
Definition copyFromHost (r : WeightsRef) (weightsCPU : Matrix F)
  (st : GraphState F) : Outcome (GraphState F) (GraphState F) :=
  do w <- getWeights r st;
  Ok (setWeights r (set_W weightsCPU w) st).

(** [LayerGraph::getCostFunctionValue], the [getCost()] of the
    [ErrorResult] built from the cost layers. *)
Definition LayerGraph_getCostFunctionValue (st : GraphState F)
  : Outcome (GraphState F) F :=
  do items <- mapO (fun c =>
                      do L <- layerAt g c;
                      do s <- stateAt c st;
                      match kind L with
                      | LogregCost coeff => Ok (getName L, coeff, err s)
                      | _ => Undefined
                      end) (costs g);
  Ok (ErrorResult_getCost items).

(** The body of the two loops of [checkGradientsW]. *)
Definition checkGradientsW_entry (fuel : nat) (eps : F) (r : WeightsRef)
  (i j : nat) (acc : Matrix F * Matrix F * GraphState F)
  : Outcome (GraphState F) (Matrix F * Matrix F * GraphState F) :=
  let weightsCPU := acc.1.1 in
  let numGrads := acc.1.2 in
  let st := acc.2 in
  do v <- deref (mget i j weightsCPU);
  let weightsCPU := mset i j (fadd v eps) weightsCPU in
  do st <- copyFromHost r weightsCPU st;
  let weightsCPU := mset i j v weightsCPU in
  do st <- LayerGraph_fprop0 g fuel st;
  do err <- LayerGraph_getCostFunctionValue st;
  do n <- LayerGraph_getNumCases st;
  let numGrads :=
    mset i j (fdiv (fsub err (baseErr st)) (fmul (of_int n) eps)) numGrads in
  do st <- copyFromHost r weightsCPU st;
  Ok (weightsCPU, numGrads, st).

Definition checkGradientsW_loop (fuel : nat) (eps : F) (r : WeightsRef)
  (rows cols : nat) (acc : Matrix F * Matrix F * GraphState F)
  : Outcome (GraphState F) (Matrix F * Matrix F * GraphState F) :=
  forEach (fun i => forEach (checkGradientsW_entry fuel eps r i)
                            (seq 0 cols))
          (seq 0 rows) acc.

Definition LayerGraph_checkGradientsW (fuel : nat) (name : string) (eps : F)
  (r : WeightsRef) (st : GraphState F)
  : Outcome (GraphState F) (GradCheck F) :=
  do w <- getWeights r st;
  let rows := length (getW w) in
  let cols := Z.to_nat (getNumCols (getW w)) in
  let numGrads := mzero rows cols in
  let weightsCPU := getW w in
  do acc <- checkGradientsW_loop fuel eps r rows cols
              (weightsCPU, numGrads, st);
  let numGrads := acc.1.2 in
  let st := acc.2 in
  do n <- LayerGraph_getNumCases st;
  do w <- getWeights r st;
  let gr := scale (fdiv (of_dec (-1) 0) (of_int n)) (getGrads w) in
  let st := setWeights r (set_grads gr w) st in
  let gradsCPU := gr in
  let analNorm := norm gradsCPU in
  let diff := subtract numGrads gradsCPU in
  let relErr := fdiv (norm diff) analNorm in
  let fail := fgeb relErr GC_REL_ERR_THRESH in
  let st := if fail || negb GC_SUPPRESS_PASSES
            then log (EvGradientCheck name fail) st else st in
  let st := set_counts (numFailures st + Z.b2z fail) (numTests st + 1) st in
  Ok (mkGradCheck numGrads gradsCPU relErr fail st).

(** [FCLayer::checkGradients], [ConvLayer::checkGradients]; the other
    kinds have no weights to check. *)
Definition Layer_checkGradients (fuel : nat) (l : nat) (st : GraphState F)
  : Run F :=
  do L <- layerAt g l;
  match kind L with
  | FCLayer _ =>
      do s <- stateAt l st;
      do st <- forEach (fun i st =>
                 do r <- LayerGraph_checkGradientsW fuel
                           (String.append (getName L)
                              (String.append " weights["
                                 (String.append (pretty i) "]")))
                           (of_dec 1 (-1)) (WeightsOf l i) st;
                 Ok (gc_state r))
               (seq 0 (length (weights s))) st;
      do r <- LayerGraph_checkGradientsW fuel
                (String.append (getName L) " biases")
                (of_dec 1 (-2)) (BiasesOf l) st;
      Ok (gc_state r)
  | ConvLayer _ _ =>
      do r <- LayerGraph_checkGradientsW fuel
                (String.append (getName L) " weights")
                (of_dec 1 (-2)) (WeightsOf l 0) st;
      do r <- LayerGraph_checkGradientsW fuel
                (String.append (getName L) " biases")
                (of_dec 2 (-2)) (BiasesOf l) (gc_state r);
      Ok (gc_state r)
  | _ => Ok st
  end.

(** [LayerGraph::checkGradients(Data&)] *)
Definition LayerGraph_checkGradients (fuel : nat) (d : Data F)
  (st : GraphState F) : Run F :=
  let st := set_counts 0 0 (set_checkingGrads true st) in
  do st <- LayerGraph_fprop g fuel d st;
  do e <- LayerGraph_getCostFunctionValue st;
  let st := set_baseErr e st in
  do st <- LayerGraph_bprop g fuel st;
  do st <- forEach (Layer_checkGradients fuel)
                   (seq 0 (length (layers g))) st;
  Ok (set_checkingGrads false st).
End GradientCheck.


(** * Definitions used by the statements *)

Section Statements.
Context {F : Type} `{FloatOps F}.

(** What the second loop has appended to the [_next] of layer [b] once
    it has gone through the layers [idxs]. *)
Definition linksTo (ls : list (Layer F)) (b : nat) (idxs : list nat) : list nat :=
  flat_map (fun i => replicate
                       (count_occ Nat.eq_dec
                          (match ls !! i with
                           | Some Li => getPrev Li | None => []
                           end) b) i) idxs.


Definition isData (k : LayerKind F) : bool :=
  match k with DataLayer _ => true | _ => false end.
Definition isCost (k : LayerKind F) : bool :=
  match k with LogregCost _ => true | _ => false end.


(** The backward links of [L] are the declared inputs of [d]. *)
Definition declared (d : PyDict F) (prev : list nat) : Prop :=
  match getIntVec d "inputs" with
  | Some inputLayers => map Z.of_nat prev = inputLayers
  | None => prev = []
  end.


(** What a constructor returns: no forward link yet, and backward links
    to the declared inputs, all built before it. *)
Definition fresh (d : PyDict F) (n : nat) (r : Layer F * LayerState F)
  : Prop :=
  getNext r.1 = [] /\ Forall (fun p => (p < n)%nat) (getPrev r.1) /\
  declared d (getPrev r.1).


(** The indices of the layers of [ls], from [s] on, whose kind
    satisfies [sel]. *)
Fixpoint indicesOf (sel : LayerKind F -> bool) (s : nat) (ls : list (Layer F))
  : list nat :=
  match ls with
  | [] => []
  | L :: ls' => if sel (kind L) then s :: indicesOf sel (S s) ls'
                else indicesOf sel (S s) ls'
  end.


(** The state of the first loop: what has been built is well formed. *)
Definition built (acc : LayerGraph F * list (LayerState F)) : Prop :=
  (forall i L, layers acc.1 !! i = Some L ->
               getNext L = [] /\ Forall (fun p => (p < i)%nat) (getPrev L)) /\
  length acc.2 = length (layers acc.1) /\
  dataLayers acc.1 = indicesOf isData 0 (layers acc.1) /\
  costs acc.1 = indicesOf isCost 0 (layers acc.1).


(** A graph as [LayerGraph::LayerGraph] leaves it. *)
Record wf_graph (g : LayerGraph F) : Prop := {
  wf_inverse : forall a b La Lb,
    layers g !! a = Some La -> layers g !! b = Some Lb ->
    count_occ Nat.eq_dec (getNext Lb) a = count_occ Nat.eq_dec (getPrev La) b;
  wf_prev : forall i L, layers g !! i = Some L ->
    Forall (fun p => (p < i)%nat) (getPrev L);
  wf_next : forall i L, layers g !! i = Some L ->
    Forall (fun s => (s < length (layers g))%nat) (getNext L);
  wf_data : dataLayers g = indicesOf isData 0 (layers g);
  wf_costs : costs g = indicesOf isCost 0 (layers g)
}.

(** Two matrices with rows of the same lengths. *)
Definition shapeEq (a b : Matrix F) : Prop :=
  Forall2 (fun r r' => length r = length r') a b.

(** The softmax of one case in the words of the specification: subtract
    the maximum of the case from its entries, exponentiate, divide by the
    sum of the case. *)
Definition softmax_case (r : list F) : list F :=
  let m := rowmax r in
  let e := map (fun x => fexp (fsub x m)) r in
  let sm := rowsum e in
  map (fun y => fdiv y sm) e.

Definition softmax_spec (input : Matrix F) : Matrix F :=
  map softmax_case input.

(** A gradient-producing successor delivers its contribution [c] to a
    layer as every [_bprop] does: the write into the layer's buffer, then
    the call of [bprop()] on the layer, of which this is the counting
    part.  The boolean tells whether the layer's own backward computation
    is started by this call. *)
Definition deliver (L : Layer F) (c : Matrix F) (s : LayerState F)
  : LayerState F * bool :=
  Layer_bprop_count L (accumActGrads c s).

Fixpoint deliverAll (L : Layer F) (cs : list (Matrix F)) (s : LayerState F)
  : LayerState F * list bool :=
  match cs with
  | [] => (s, [])
  | c :: cs' =>
      let r := deliver L c s in
      let r' := deliverAll L cs' r.1 in
      (r'.1, r.2 :: r'.2)
  end.

(** The sum of a non-empty list of matrices, from left to right. *)
Definition msum (cs : list (Matrix F)) : Matrix F :=
  match cs with
  | [] => []
  | c :: cs' => foldl madd c cs'
  end.

(** The layers whose [_fprop] has run according to a log, in order. *)
Definition fpropped (tr : list (Event F)) : list nat :=
  omap (fun e => match e with EvFprop l => Some l | _ => None end) tr.

(** The layers whose [_fprop] has run since the log had [n0] entries. *)
Definition computedSince (n0 : nat) (st : GraphState F) : list nat :=
  fpropped (drop n0 (trace st)).

(** How many entries of the predecessor list [xs] are in [C], for a
    duplicate-free [C]. *)
Fixpoint got (C : list nat) (xs : list nat) : nat :=
  match xs with
  | [] => 0
  | x :: xs' => count_occ Nat.eq_dec C x + got C xs'
  end.

(** What [_fprop] leaves alone in the state of its layer. *)
Definition fpropKeeps (s s' : LayerState F) : Prop :=
  getRcvdFInputs s' = getRcvdFInputs s /\
  getRcvdBInputs s' = getRcvdBInputs s /\
  getActGrads s' = getActGrads s /\
  weights s' = weights s /\ biases s' = biases s.

(** The fields of the graph that no layer computation writes. *)
Definition sameGlobals (st st' : GraphState F) : Prop :=
  data st' = data st /\ checkingGrads st' = checkingGrads st /\
  saveBwdActs st' = saveBwdActs st /\ numFailures st' = numFailures st /\
  numTests st' = numTests st /\ baseErr st' = baseErr st.

(** The invariant of the forward wave on the graph [g], with [tr0] the
    first [n0] entries of the log, written before the pass, [pend] the
    calls of [fprop()] still to come from the loops of [fpropNext] under
    way and [D] the data layers entered so far: the counter of a layer
    plus its pending calls is the number of its predecessor entries that
    have computed, and a layer has computed exactly when its counter has
    reached the number of its predecessors. *)
Record FInv (g : LayerGraph F) (n0 : nat) (tr0 : list (Event F))
  (D pend : list nat) (st : GraphState F) : Prop := {
  fi_length : length (lstate st) = length (layers g);
  fi_trace : (n0 <= length (trace st))%nat;
  fi_prefix : take n0 (trace st) = tr0;
  fi_nodup : List.NoDup (computedSince n0 st);
  fi_data : forall l L, layers g !! l = Some L -> isData (kind L) = true ->
                        (In l (computedSince n0 st) <-> In l D);
  fi_count : forall l L s,
      layers g !! l = Some L -> lstate st !! l = Some s ->
      isData (kind L) = false ->
      getRcvdFInputs s + Z.of_nat (count_occ Nat.eq_dec pend l)
      = Z.of_nat (got (computedSince n0 st) (getPrev L)) /\
      (In l (computedSince n0 st) ->
       getRcvdFInputs s = Z.of_nat (length (getPrev L))) /\
      (~ In l (computedSince n0 st) ->
       getRcvdFInputs s < Z.of_nat (length (getPrev L)))
}.

(** The weights and biases of all layers. *)
Definition weightsOf (st : GraphState F)
  : list (list (Weights F) * Weights F) :=
  (fun s => (weights s, biases s)) <$> lstate st.

(** A step that writes neither weights nor graph-wide fields. *)
Definition framed (st st' : GraphState F) : Prop :=
  weightsOf st' = weightsOf st /\ sameGlobals st st'.

(** Every layer but the data layers has a predecessor, and the data
    layers have none. *)
Definition fedByData (g : LayerGraph F) : Prop :=
  forall l L, layers g !! l = Some L ->
              (isData (kind L) = true <-> getPrev L = []).
End Statements.

Section GradientCheckStatements.
Context {F : Type} `{FloatOps F} `{Kernels F}.

(** The cost reported by a forward pass of the graph [g] run from the
    state [st] once the checked weight matrix holds [M]. *)
Definition costWith (g : LayerGraph F) (fuel : nat) (r : WeightsRef)
  (st : GraphState F) (M : Matrix F) : Outcome (GraphState F) F :=
  do st <- copyFromHost r M st;
  do st <- LayerGraph_fprop0 g fuel st;
  LayerGraph_getCostFunctionValue g st.

(** The layer a reference points into, and the update of the weights of
    a layer through the reference. *)
Definition refLayer (r : WeightsRef) : nat :=
  match r with WeightsOf l _ => l | BiasesOf l => l end.

Definition setPair (r : WeightsRef) (w : Weights F)
  (p : list (Weights F) * Weights F) : list (Weights F) * Weights F :=
  match r with
  | WeightsOf _ i => (<[i := w]> p.1, p.2)
  | BiasesOf _ => (p.1, w)
  end.

Definition getPair (r : WeightsRef) (p : list (Weights F) * Weights F)
  : option (Weights F) :=
  match r with
  | WeightsOf _ i => p.1 !! i
  | BiasesOf _ => Some p.2
  end.

(** What the entry [(i, j)] of the numeric gradient must hold once the
    loops of [checkGradientsW], entered in the state [st0] on the weights
    [w0], have gone through it: the forward-difference quotient of the
    cost, measured by a forward pass run with weight [(i, j)] moved by
    [eps] and every other weight of the graph as on entry. *)
Definition entryOK (g : LayerGraph F) (fuel : nat) (eps : F) (r : WeightsRef)
  (st0 : GraphState F) (w0 : Weights F) (i j : nat) (x : option F) : Prop :=
  exists v st_ij err d,
    mget i j (getW w0) = Some v /\ framed st0 st_ij /\
    costWith g fuel r st_ij (mset i j (fadd v eps) (getW w0)) = Ok err /\
    data st0 = Some d /\
    x = Some (fdiv (fsub err (baseErr st0))
                   (fmul (of_int (getNumCases d)) eps)).

(** The invariant of the loops of [checkGradientsW]. *)
Definition GCInv (g : LayerGraph F) (fuel : nat) (eps : F) (r : WeightsRef)
  (st0 : GraphState F) (w0 : Weights F) (cols : nat)
  (done : nat -> nat -> Prop)
  (acc : Matrix F * Matrix F * GraphState F) : Prop :=
  acc.1.1 = getW w0 /\ framed st0 acc.2 /\
  length acc.1.2 = length (getW w0) /\
  Forall (fun row => length row = cols) acc.1.2 /\
  forall i j, done i j -> entryOK g fuel eps r st0 w0 i j (mget i j acc.1.2).
End GradientCheckStatements.

(** * Tactics *)

(** Inversion of a successful sequence of binds. *)
Ltac invO :=
  repeat match goal with
         | H : bindO ?m ?k = Ok ?b |- _ =>
             let a := fresh "a" in
             let Ha := fresh "Ha" in
             let H' := fresh H in
             assert (H' : exists a, m = Ok a /\ k a = Ok b)
               by (destruct m; simpl in H; try discriminate H; eauto);
             clear H; destruct H' as (a & Ha & H); cbv beta in H
         | H : deref ?o = Ok ?a |- _ =>
             let H' := fresh H in
             assert (H' : o = Some a)
               by (destruct o; simpl in H; congruence);
             clear H; rename H' into H
         | H : assertO ?b = Ok _ |- _ =>
             let H' := fresh H in
             assert (H' : b = true)
               by (destruct b; simpl in H; congruence);
             clear H; rename H' into H
         | H : Ok _ = Ok _ |- _ => injection H as H
         | H : (if ?b then _ else _) = Ok _ |- _ =>
             let Hb := fresh "Hb" in destruct b eqn:Hb; try discriminate H
         end.


(** * Definitions used by the statements on the rest of the file *)

Section MoreStatements.
Context {F : Type} `{FloatOps F}.

(** The layer types [LayerGraph::LayerGraph] knows. *)
Definition layerTypes : list string :=
  ["fc"; "conv"; "pool"; "data"; "softmax"; "cost.logreg"].

(** The integer keys read by [PoolLayer::PoolLayer]. *)
Definition poolKeys : list string :=
  ["channels"; "subsX"; "start"; "stride"; "outputsX"; "imgSize"].
End MoreStatements.

Section ConstructorStatements.
Context {F : Type} `{FloatOps F}.

(** The ["type"] string of the declaration of a layer of each kind. *)
Definition typeName (k : LayerKind F) : string :=
  match k with
  | FCLayer _ => "fc"
  | ConvLayer _ _ => "conv"
  | PoolLayer _ => "pool"
  | DataLayer _ => "data"
  | SoftmaxLayer => "softmax"
  | LogregCost _ => "cost.logreg"
  end.

(** Whether a layer of this kind produces gradient for the layers below
    it: the [gradProducer] argument of the constructors, overridden by
    [Cost::Cost]. *)
Definition producer (k : LayerKind F) : bool :=
  match k with
  | DataLayer _ => false
  | LogregCost coeff => negb (feqb coeff (of_int 0))
  | _ => true
  end.

(** Whether the layer of index [s] is a gradient producer. *)
Definition producesGrad (ls : list (Layer F)) (s : nat) : bool :=
  match ls !! s with Some L => isGradProducer L | None => false end.

(** What the constructor of each kind has established of a layer and its
    state when it returns, for the declaration [d]. *)
Definition kindBuilt (d : PyDict F) (L : Layer F) (s : LayerState F) : Prop :=
  match kind L with
  | FCLayer neuron =>
      d !! "neuron" = Some (PyString neuron) /\
      d !! "weights" = Some (PyArrayList (map getW (weights s))) /\
      d !! "biases" = Some (PyArray (getW (biases s))) /\
      getNumRows (getW (biases s)) = 1
  | ConvLayer c neuron =>
      d !! "neuron" = Some (PyString neuron) /\
      length (getPrev L) = 1%nat /\
      (exists w, weights s = [w] /\ d !! "weights" = Some (PyArray (getW w))) /\
      d !! "biases" = Some (PyArray (getW (biases s))) /\
      modules c = int_mul (modulesX c) (modulesX c) /\
      filterPixels c = int_mul (filterSize c) (filterSize c) /\
      imgPixels c = int_mul (imgSize c) (imgSize c)
  | PoolLayer pp =>
      d !! "pool" = Some (PyString (pool pp)) /\
      (pool pp = "max" \/ pool pp = "avg")
  | DataLayer dataIdx =>
      exists z, d !! "dataIdx" = Some (PyInt z) /\ dataIdx = wrap32 z
  | SoftmaxLayer => True
  | LogregCost coeff => d !! "coeff" = Some (PyFloat coeff)
  end.

Definition constructed (d : PyDict F) (L : Layer F) (s : LayerState F)
  : Prop :=
  d !! "type" = Some (PyString (typeName (kind L))) /\
  d !! "name" = Some (PyString (getName L)) /\
  isGradProducer L = producer (kind L) /\
  isPropagateGrad L = negb (isData (kind L)) /\
  getRcvdFInputs s = 0 /\ getRcvdBInputs s = 0 /\
  getActs s = [] /\ getActGrads s = [] /\ err s = [] /\
  kindBuilt d L s.

(** The fields of a layer that [Layer::addNext] leaves alone. *)
Definition sameStatic (L L' : Layer F) : Prop :=
  getName L' = getName L /\ kind L' = kind L /\
  isPropagateGrad L' = isPropagateGrad L /\
  isGradProducer L' = isGradProducer L /\ trans L' = trans L /\
  getPrev L' = getPrev L.
End ConstructorStatements.

Section ConstructorOutcome.
Context {F : Type} `{FloatOps F}.

(** A layer as a constructor returns it: nothing linked forward yet. *)
Definition unlinked (d : PyDict F) (r : Layer F * LayerState F) : Prop :=
  constructed d r.1 r.2 /\ getNext r.1 = [] /\ numGradProducersNext r.1 = 0.
End ConstructorOutcome.

Section ForwardStatements.
Context {F : Type} `{FloatOps F}.

(** The products [input_i * W_i] of an FC layer, and their sum from left
    to right as [FCLayer::multByInput] accumulates it in [_acts]. *)
Definition FC_products (v : list (Matrix F)) (ws : list (Weights F))
  : list (Matrix F) :=
  zip_with (fun input w => rightMult input (getW w)) v ws.

Definition FC_preact (old : Matrix F) (ps : list (Matrix F)) : Matrix F :=
  match ps with
  | [] => old
  | p :: ps' => foldl madd p ps'
  end.

(** An entry of the log written by a forward computation. *)
Definition isForwardEvent (e : Event F) : bool :=
  match e with
  | EvFprop _ => true
  | EvLaunch _ KLogregCost => true
  | _ => false
  end.
End ForwardStatements.

Section ForwardFrame.
Context {F : Type} `{FloatOps F}.

(** What a forward pass leaves alone in the state of a layer: the
    gradient buffer and the weights. *)
Definition fwdKeeps (s s' : LayerState F) : Prop :=
  getActGrads s' = getActGrads s /\ weights s' = weights s /\
  biases s' = biases s.

(** A step that only runs forward computations. *)
Definition forwardOnly (st st' : GraphState F) : Prop :=
  Forall2 fwdKeeps (lstate st) (lstate st') /\
  checkingGrads st' = checkingGrads st /\
  saveBwdActs st' = saveBwdActs st /\ numFailures st' = numFailures st /\
  numTests st' = numTests st /\ baseErr st' = baseErr st /\
  exists evs, trace st' = trace st ++ evs /\
              forallb isForwardEvent evs = true.
End ForwardFrame.

Section BackwardStatements.
Context {F : Type} `{FloatOps F}.

(** The part of a [Weights] object that only [Weights::update] and the
    gradient check write: the weight matrix and the three scalars. *)
Definition staticW (w : Weights F) : Matrix F * F * F * F :=
  (getW w, getEps w, getWC w, getMom w).

(** What the writes of the backward computations leave alone in the
    state of a layer: the counters, the activations, the errors of a
    cost and the weight matrices.  They write gradient buffers,
    increments and gradient accumulators. *)
Definition bwdWrite (s s' : LayerState F) : Prop :=
  getRcvdFInputs s' = getRcvdFInputs s /\
  getRcvdBInputs s' = getRcvdBInputs s /\
  getActs s' = getActs s /\ err s' = err s /\
  staticW <$> weights s' = staticW <$> weights s /\
  staticW (biases s') = staticW (biases s).

Definition isBprop (e : Event F) : bool :=
  match e with EvBprop _ _ => true | _ => false end.

(** An entry of the log written inside a backward computation: a write
    into a gradient buffer or the launch of a kernel. *)
Definition isGradEvent (e : Event F) : bool :=
  match e with
  | EvActGrads _ _ _ => true
  | EvLaunch _ _ => true
  | _ => false
  end.

(** The layers whose [_bprop] has run according to a log, in order. *)
Definition bpropped (tr : list (Event F)) : list nat :=
  omap (fun e => match e with EvBprop l _ => Some l | _ => None end) tr.
End BackwardStatements.

Section BackwardFrame.
Context {F : Type} `{FloatOps F}.

(** What a backward pass leaves alone in the state of a layer. *)
Definition bwdKeeps (s s' : LayerState F) : Prop :=
  getRcvdFInputs s' = getRcvdFInputs s /\
  getActs s' = getActs s /\ err s' = err s /\
  staticW <$> weights s' = staticW <$> weights s /\
  staticW (biases s') = staticW (biases s).

Definition bwdFrame (st st' : GraphState F) : Prop :=
  Forall2 bwdKeeps (lstate st) (lstate st') /\ sameGlobals st st'.
End BackwardFrame.

Section BackwardInvariant.
Context {F : Type} `{FloatOps F}.

(** The invariant of a backward pass on the graph [g], with [tr0] the
    first [n0] entries of the log, written before the pass: no layer has
    started its [_bprop] twice since, and the backward counter of a layer
    that has started it has reached the layer's
    [_numGradProducersNext]. *)
Definition BInv (g : LayerGraph F) (n0 : nat) (tr0 : list (Event F))
  (st : GraphState F) : Prop :=
  (n0 <= length (trace st))%nat /\ take n0 (trace st) = tr0 /\
  forall l,
    (count_occ Nat.eq_dec (bpropped (drop n0 (trace st))) l <= 1)%nat /\
    (count_occ Nat.eq_dec (bpropped (drop n0 (trace st))) l = 1%nat ->
     exists L s, layers g !! l = Some L /\ lstate st !! l = Some s /\
                 numGradProducersNext L <= getRcvdBInputs s).
End BackwardInvariant.

Section CheckStatements.
Context {F : Type} `{FloatOps F}.

(** The gradient-check reports of a log: each has the name of the
    weights and whether the check failed. *)
Definition reports (tr : list (Event F)) : list (string * bool) :=
  omap (fun e => match e with
                 | EvGradientCheck name fail => Some (name, fail)
                 | _ => None
                 end) tr.

(** A step that appends forward computations to the log. *)
Definition logsForward (st st' : GraphState F) : Prop :=
  exists evs, trace st' = trace st ++ evs /\
              forallb isForwardEvent evs = true.

(** The number of calls of [checkGradientsW] that [checkGradients()]
    makes on a layer: one per weight matrix and one for the biases. *)
Definition checksOf (L : Layer F) (s : LayerState F) : Z :=
  match kind L with
  | FCLayer _ => Z.of_nat (length (weights s)) + 1
  | ConvLayer _ _ => 2
  | _ => 0
  end.

Definition checksAt (g : LayerGraph F) (st : GraphState F) (l : nat) : Z :=
  match layers g !! l, lstate st !! l with
  | Some L, Some s => checksOf L s
  | _, _ => 0
  end.

Definition totalChecks (g : LayerGraph F) (st : GraphState F) : Z :=
  foldr (fun l n => checksAt g st l + n) 0 (seq 0 (length (layers g))).

(** What a gradient check leaves alone in the state of a layer. *)
Definition checkKeeps (s s' : LayerState F) : Prop :=
  staticW <$> weights s' = staticW <$> weights s /\
  staticW (biases s') = staticW (biases s).
End CheckStatements.

Section CheckRun.
Context {F : Type} `{FloatOps F}.

(** A run of [k] gradient checks: the weight matrices are as before,
    [k] tests have been counted, and there is one failure counted for
    each report printed, each of them the report of a failure. *)
Definition GCStep (k : Z) (st st' : GraphState F) : Prop :=
  Forall2 checkKeeps (lstate st) (lstate st') /\
  data st' = data st /\ checkingGrads st' = checkingGrads st /\
  baseErr st' = baseErr st /\
  numTests st' = numTests st + k /\
  exists rs, reports (trace st') = reports (trace st) ++ rs /\
             numFailures st' = numFailures st + Z.of_nat (length rs) /\
             Forall (fun r : string * bool => r.2 = true) rs /\
             Z.of_nat (length rs) <= k.
End CheckRun.

Section CheckSums.
Context {F : Type} `{FloatOps F}.

Definition sumChecks (g : LayerGraph F) (st : GraphState F) (xs : list nat)
  : Z :=
  foldr (fun l n => checksAt g st l + n) 0 xs.
End CheckSums.

Section ForwardValues.
Context {F : Type} `{FloatOps F} `{Kernels F}.

(** The [_fprop] of a layer of kind [k] on the state of the layer. *)
Definition kindFprop (k : LayerKind F) (st : GraphState F)
  (v : list (Matrix F)) (s : LayerState F)
  : Outcome (GraphState F) (LayerState F) :=
  match k with
  | FCLayer neuron => FCLayer__fprop neuron v s
  | ConvLayer c neuron => ConvLayer__fprop c neuron v s
  | PoolLayer p => PoolLayer__fprop p v s
  | DataLayer dataIdx => DataLayer__fprop dataIdx v s
  | SoftmaxLayer => SoftmaxLayer__fprop v s
  | LogregCost _ =>
      do n <- LayerGraph_getNumCases st;
      LogregCost__fprop n v s
  end.

(** What a layer is computed from: the matrices of the data for a data
    layer, the activations of its predecessors for another layer. *)
Definition inputsOf (L : Layer F) (st : GraphState F)
  : Outcome (GraphState F) (list (Matrix F)) :=
  if isData (kind L)
  then match data st with Some d => Ok (getData d) | None => Undefined end
  else gatherActs L st.

(** Layer [l] holds what its forward computation yields on its inputs as
    they are now. *)
Definition settled (g : LayerGraph F) (l : nat) (st : GraphState F) : Prop :=
  exists L s v,
    layers g !! l = Some L /\ lstate st !! l = Some s /\
    inputsOf L st = Ok v /\ kindFprop (kind L) st v s = Ok s.

(** The invariant of the values during a forward pass on the data [d]:
    every layer that has computed is settled, and so are the layers it
    is computed from. *)
Definition VInv (g : LayerGraph F) (n0 : nat) (d : Data F)
  (st : GraphState F) : Prop :=
  data st = Some d /\
  forall l, In l (computedSince n0 st) ->
    settled g l st /\
    forall L p, layers g !! l = Some L -> In p (getPrev L) ->
                In p (computedSince n0 st).
End ForwardValues.

Section GradientFlow.
Context {F : Type} `{FloatOps F}.

(** Whether the layer [L] writes a gradient into its predecessor [p]
    when it has one to give: a cost layer does not look at the
    predecessor, every other layer asks [isPropagateGrad()]. *)
Definition gradTarget (ls : list (Layer F)) (L : Layer F) (p : nat) : bool :=
  isCost (kind L) ||
  match ls !! p with
  | Some Lp => isPropagateGrad Lp
  | None => false
  end.

(** An entry of the log that, if it is a gradient written by a layer into
    the buffer of another, follows a backward link of the graph into a
    layer that takes gradients from the writer. *)
Definition alongEdge (ls : list (Layer F)) (e : Event F) : bool :=
  match e with
  | EvActGrads src dst _ =>
      match ls !! src with
      | Some L => bool_decide (dst ∈ getPrev L) && gradTarget ls L dst
      | None => false
      end
  | _ => true
  end.

(** The gradients written according to a log, in order: the writer and
    the layer written into. *)
Definition gradWrites (tr : list (Event F)) : list (nat * nat) :=
  omap (fun e => match e with
                 | EvActGrads src dst _ => Some (src, dst)
                 | _ => None
                 end) tr.

(** The entries a computation adds to the log are gradients written
    along the backward links of the graph, or no gradients. *)
Definition gradFlow (g : LayerGraph F) (st st' : GraphState F) : Prop :=
  exists evs, trace st' = trace st ++ evs /\
              forallb (alongEdge (layers g)) evs = true.
End GradientFlow.

Section BackwardSums.
Context {F : Type} `{FloatOps F}.

(** The gradients written into the buffer of layer [p] according to a
    log, in order. *)
Definition contribs (p : nat) (tr : list (Event F)) : list (Matrix F) :=
  omap (fun e => match e with
                 | EvActGrads _ dst c =>
                     if decide (dst = p) then Some c else None
                 | _ => None
                 end) tr.

(** The layers whose [bprop()] is [Layer::bprop()], which counts: all but
    the data layers and the costs. *)
Definition counting (L : Layer F) : bool :=
  negb (isData (kind L)) && negb (isCost (kind L)).

(** One if a gradient has been written into layer [p] whose writer has
    not called [bprop()] on [p] yet. *)
Definition pendingAt (o : option nat) (p : nat) : Z :=
  if decide (o = Some p) then 1 else 0.

(** The log [evs] of a backward pass records every start of a [_bprop]
    with the sum of the gradients written into the layer before, one for
    each gradient producer among its successors. *)
Definition startsOnSums (g : LayerGraph F) (evs : list (Event F)) : Prop :=
  forall pre l v post, evs = pre ++ EvBprop l v :: post ->
    exists L, layers g !! l = Some L /\
      Z.of_nat (length (contribs l pre)) = numGradProducersNext L /\
      v = msum (contribs l pre).

(** The invariant of the gradient buffers during a backward pass on the
    graph [g] that started when the log was [tr0], with [o] the layer
    that has been written into and not called yet: the backward counter
    of a counting layer is the number of gradients written into it in
    this pass, and until the counter reaches [_numGradProducersNext] the
    buffer holds their sum. *)
Definition SInv (g : LayerGraph F) (tr0 : list (Event F)) (o : option nat)
  (st : GraphState F) : Prop :=
  exists evs, trace st = tr0 ++ evs /\
    (forall p L s, layers g !! p = Some L -> counting L = true ->
       lstate st !! p = Some s ->
       0 <= getRcvdBInputs s /\
       Z.of_nat (length (contribs p evs)) = getRcvdBInputs s + pendingAt o p /\
       (getRcvdBInputs s < numGradProducersNext L -> contribs p evs <> [] ->
        getActGrads s = msum (contribs p evs))) /\
    startsOnSums g evs.

(** Layer [l] has received all the calls of [bprop()] it waits for. *)
Definition served (g : LayerGraph F) (l : nat) (st : GraphState F) : Prop :=
  forall L s, layers g !! l = Some L -> lstate st !! l = Some s ->
              numGradProducersNext L <= getRcvdBInputs s.

(** The backward counters have not gone down. *)
Definition countersGrow (st st' : GraphState F) : Prop :=
  Forall2 (fun s s' => getRcvdBInputs s <= getRcvdBInputs s')
          (lstate st) (lstate st').
End BackwardSums.
(** * A concrete instance

    Exact rational arithmetic in lowest terms ([fexp] and [fsqrt] are
    rational stand-ins) and simple kernels, to run the embedding on
    small networks. *)

Module Example.

Definition qsqrt (x : Q) : Q :=
  Qred (Z.sqrt (Qnum x * Z.pos (Qden x)) # Qden x).

#[global] Instance QFloat : FloatOps Q := {|
  of_int z := inject_Z z;
  of_dec m e := if 0 <=? e then inject_Z (m * 10 ^ e)
                else Qred (m # Z.to_pos (10 ^ (- e)));
  fadd a b := Qred (a + b);
  fsub a b := Qred (a - b);
  fmul a b := Qred (a * b);
  fdiv a b := Qred (a / b);
  fopp a := Qred (- a);
  fexp a := Qred (Qpower 2 (Qfloor a));
  fsqrt := qsqrt;
  fmax a b := if Qle_bool a b then b else a;
  feqb := Qeq_bool;
  fgeb a b := Qle_bool b a
|}.

#[global] Instance QKernels : Kernels Q := {|
  neuron_activate _ a := a;
  neuron_computeInputGrads _ _ v := v;
  convFilterActs images _ _ := images;
  convImgActs v _ _ := v;
  convWeightActs _ v _ := v;
  convWeightActsPartial _ v _ _ := v;
  reshape _ _ m := m;
  convLocalPool _ images _ := images;
  convLocalMaxUndo _ v _ _ := v;
  convLocalAvgUndo v _ := v;
  kSoftmaxGrads v acts := madd v acts;
  kLogregCost probs labels _ _ := (probs, labels);
  kLogregCostGrads probs labels _ coeff := scale coeff probs;
  ErrorResult_getCost items :=
    foldl (fun a it => fadd a (fmul it.1.2 (match it.2 with
                                            | x :: _ => x
                                            | [] => 0%Q
                                            end))) 0%Q items
|}.

Definition dict (kvs : list (string * PyObject Q)) : PyDict Q :=
  list_to_map kvs.

Definition dataDecl (nm : string) (idx : Z) : PyDict Q :=
  dict [("type", PyString "data"); ("name", PyString nm);
        ("dataIdx", PyInt idx)].

Definition fcDecl (nm : string) (ins : list Z) (ws : list (Matrix Q))
  (b : Matrix Q) : PyDict Q :=
  dict [("type", PyString "fc"); ("name", PyString nm);
        ("inputs", PyIntList ins);
        ("weights", PyArrayList ws);
        ("weightsInc", PyArrayList (map (apply (fun _ => 0%Q)) ws));
        ("biases", PyArray b);
        ("biasesInc", PyArray (apply (fun _ => 0%Q) b));
        ("momW", PyFloatList (map (fun _ => (1 # 2)%Q) ws));
        ("momB", PyFloat (1 # 2)%Q);
        ("epsW", PyFloatList (map (fun _ => (1 # 10)%Q) ws));
        ("epsB", PyFloat (1 # 10)%Q);
        ("wc", PyFloatList (map (fun _ => 0%Q) ws));
        ("neuron", PyString "ident")].

Definition softmaxDecl (nm : string) (ins : list Z) : PyDict Q :=
  dict [("type", PyString "softmax"); ("name", PyString nm);
        ("inputs", PyIntList ins)].

Definition costDecl (nm : string) (ins : list Z) (c : Q) : PyDict Q :=
  dict [("type", PyString "cost.logreg"); ("name", PyString nm);
        ("inputs", PyIntList ins); ("coeff", PyFloat c)].

Definition I2 : Matrix Q := [[1%Q; 0%Q]; [0%Q; 1%Q]].
Definition D2 : Matrix Q := [[2%Q; 0%Q]; [0%Q; 2%Q]].
Definition noBias : Matrix Q := [[0%Q; 0%Q]].

(** A diamond: layer 2 feeds layers 3 and 4, which both feed layer 5. *)
Definition diamond : list (PyDict Q) :=
  [dataDecl "labels" 0; dataDecl "data" 1;
   fcDecl "fc2" [1] [I2] noBias;
   fcDecl "fc3" [2] [I2] noBias;
   fcDecl "fc4" [2] [D2] noBias;
   fcDecl "fc5" [3; 4] [I2; I2] noBias;
   costDecl "logprob" [0; 5] 1%Q].

(** Two cost layers on the same predictions layer 2; the first one has
    coefficient zero. *)
Definition twoCosts : list (PyDict Q) :=
  [dataDecl "labels" 0; dataDecl "data" 1;
   fcDecl "fc2" [1] [I2] noBias;
   costDecl "aux" [0; 2] 0%Q;
   costDecl "logprob" [0; 2] 1%Q].

Definition batch : Data Q :=
  mkData [ [[1%Q; 0%Q]]; [[1%Q; 2%Q]; [3%Q; 4%Q]] ] 2.

(** The graph and the state a construction yields, if it succeeds. *)
Definition graphOf (ds : list (PyDict Q)) : LayerGraph Q :=
  match LayerGraph_new ds with
  | Ok r => r.1
  | _ => mkLayerGraph [] [] []
  end.
Definition stateOf (ds : list (PyDict Q)) : GraphState Q :=
  match LayerGraph_new ds with
  | Ok r => r.2
  | _ => mkGraphState [] None false false 0 0 0%Q []
  end.


(** The state after a forward pass on the batch. *)
Definition afterFprop (ds : list (PyDict Q)) : GraphState Q :=
  match LayerGraph_fprop (graphOf ds) 10 batch (stateOf ds) with
  | Ok st => st
  | _ => stateOf ds
  end.

Definition convDecl (nm : string) (ins : list Z) (modulesX partialSum : Z)
  : PyDict Q :=
  dict [("type", PyString "conv"); ("name", PyString nm);
        ("inputs", PyIntList ins);
        ("weights", PyArray I2); ("weightsInc", PyArray I2);
        ("biases", PyArray noBias); ("biasesInc", PyArray noBias);
        ("momW", PyFloat (1 # 2)%Q); ("momB", PyFloat (1 # 2)%Q);
        ("epsW", PyFloat (1 # 10)%Q); ("epsB", PyFloat (1 # 10)%Q);
        ("wc", PyFloat 0%Q);
        ("padding", PyInt 0); ("stride", PyInt 1); ("filterSize", PyInt 2);
        ("modulesX", PyInt modulesX); ("channels", PyInt 1);
        ("imgSize", PyInt 4); ("numFilters", PyInt 2);
        ("partialSum", PyInt partialSum);
        ("neuron", PyString "ident")].


(** The convolution layer built from a declaration. *)
Definition convBuilt (modulesX partialSum : Z) : Layer Q * LayerState Q :=
  match ConvLayer_new (convDecl "conv" [0] modulesX partialSum) 1 with
  | Ok r => r
  | _ => (mkLayer "" SoftmaxLayer false false false [] [] 0,
          newState [] noWeights)
  end.

(** The layer of index [l] of the graph built from [ds]. *)
Definition layerOf (ds : list (PyDict Q)) (l : nat) : Layer Q :=
  match layers (graphOf ds) !! l with
  | Some L => L
  | None => mkLayer "" SoftmaxLayer false false false [] [] 0
  end.

(** The diamond after a forward pass, in gradient-checking mode. *)
Definition checking : GraphState Q :=
  set_checkingGrads true (afterFprop diamond).

(** The state after the first turn of the loop of [FCLayer::_bprop] on
    layer 2, in checking mode. *)
Definition checkingStep : GraphState Q :=
  match FCLayer_bpropInput (graphOf diamond) 2 (layerOf diamond 2) 0 checking with
  | Ok r => r.2
  | _ => checking
  end.


(** [LogregCost::bprop] of the zero-coefficient cost (layer 3) of
    [twoCosts] after a forward pass. *)
Definition afterZeroCost : GraphState Q :=
  match LogregCost_bprop (Layer_bprop (graphOf twoCosts) 5) 3
          (layerOf twoCosts 3) 0%Q (afterFprop twoCosts) with
  | Ok st => st
  | _ => afterFprop twoCosts
  end.


(** The state after a forward and a backward pass. *)
Definition afterBprop (ds : list (PyDict Q)) : GraphState Q :=
  match LayerGraph_bprop (graphOf ds) 10 (afterFprop ds) with
  | Ok st => st
  | _ => afterFprop ds
  end.

(** The state of layer [l]. *)
Definition layerStateOf (st : GraphState Q) (l : nat) : LayerState Q :=
  match lstate st !! l with
  | Some s => s
  | None => newState [] noWeights
  end.

(** In the diamond, what layers 3 and 4 write into the buffer of layer 2
    during the backward pass. *)
Definition c3 : Matrix Q := [[3%Q; 6%Q]; [9%Q; 12%Q]].
Definition c4 : Matrix Q := [[6%Q; 12%Q]; [18%Q; 24%Q]].

(** The state in which [LayerGraph::checkGradients] asks the layers of the
    diamond to check their weights: checking mode, a forward pass, the
    baseline cost and a backward pass. *)
Definition gcStart : GraphState Q :=
  let g := graphOf diamond in
  let st := set_counts 0 0 (set_checkingGrads true (stateOf diamond)) in
  match LayerGraph_fprop g 10 batch st with
  | Ok st1 =>
      match LayerGraph_getCostFunctionValue g st1 with
      | Ok e =>
          match LayerGraph_bprop g 10 (set_baseErr e st1) with
          | Ok st2 => st2
          | _ => st
          end
      | _ => st
      end
  | _ => st
  end.

(** The checks of the biases of layers 2 and 3 from there. *)
Definition gcBiases : GradCheck Q :=
  match LayerGraph_checkGradientsW (graphOf diamond) 7 "fc2 biases"
          (1 # 100)%Q (BiasesOf 2) gcStart with
  | Ok gc => gc
  | _ => mkGradCheck [] [] 0%Q false gcStart
  end.
Definition gcBiases3 : GradCheck Q :=
  match LayerGraph_checkGradientsW (graphOf diamond) 7 "fc3 biases"
          (1 # 100)%Q (BiasesOf 3) gcStart with
  | Ok gc => gc
  | _ => mkGradCheck [] [] 0%Q false gcStart
  end.

Definition poolDecl (nm : string) (ins : list Z) (p : string) : PyDict Q :=
  dict [("type", PyString "pool"); ("name", PyString nm);
        ("inputs", PyIntList ins);
        ("channels", PyInt 1); ("subsX", PyInt 2); ("start", PyInt 0);
        ("stride", PyInt 2); ("outputsX", PyInt 2); ("imgSize", PyInt 4);
        ("pool", PyString p)].

(** A network with a layer of every kind: labels, images, a convolution,
    a pooling layer, a fully connected layer, a softmax and a cost. *)
Definition convnet : list (PyDict Q) :=
  [dataDecl "labels" 0; dataDecl "data" 1;
   convDecl "conv" [1] 2 1;
   poolDecl "pool" [2] "max";
   fcDecl "fc" [3] [I2] noBias;
   softmaxDecl "probs" [4];
   costDecl "logprob" [0; 5] 1%Q].

(** The pooling layer built from a declaration. *)
Definition poolBuilt (p : string) : Layer Q * LayerState Q :=
  match PoolLayer_new (poolDecl "pool" [2] p) 3 with
  | Ok r => r
  | _ => (mkLayer "" SoftmaxLayer false false false [] [] 0,
          newState [] noWeights)
  end.

(** A second forward pass on the network [convnet], after a forward and
    a backward pass. *)
Definition secondFprop : GraphState Q :=
  match LayerGraph_fprop (graphOf convnet) 10 batch (afterBprop convnet) with
  | Ok st => st
  | _ => afterBprop convnet
  end.

(** The state after [LayerGraph::checkGradients] on the network
    [convnet]. *)
Definition afterCheck : GraphState Q :=
  match LayerGraph_checkGradients (graphOf convnet) 10 batch
          (stateOf convnet) with
  | Ok st => st
  | _ => stateOf convnet
  end.

(** A batch that has the labels only, for a graph with two data
    layers. *)
Definition labelsOnly : Data Q := mkData [ [[1%Q; 0%Q]] ] 2.

End Example.
(** * Properties *)

(** ** Outcomes *)

Lemma bindO_Ok {E A B : Type} (m : Outcome E A) (k : A -> Outcome E B) (b : B) :
  bindO m k = Ok b -> exists a, m = Ok a /\ k a = Ok b.
Proof. destruct m; simpl; try discriminate. eauto. Qed.

Lemma deref_Ok {E A : Type} (o : option A) (a : A) :
  @deref E A o = Ok a -> o = Some a.
Proof. destruct o; simpl; congruence. Qed.

Lemma assertO_Ok {E : Type} (b : bool) (u : unit) :
  @assertO E b = Ok u -> b = true.
Proof. destruct b; simpl; congruence. Qed.

Lemma forEach_app {E A S : Type} (body : A -> S -> Outcome E S) xs ys s :
  forEach body (xs ++ ys) s = do s' <- forEach body xs s; forEach body ys s'.
Proof.
  revert s. induction xs as [|x xs IH]; intros s; simpl; [reflexivity|].
  destruct (body x s); simpl; auto.
Qed.

(** A loop invariant for [forEach]. *)
Lemma forEach_inv {E A S : Type} (P : S -> Prop)
  (body : A -> S -> Outcome E S) xs :
  (forall x s s', In x xs -> P s -> body x s = Ok s' -> P s') ->
  forall s s', P s -> forEach body xs s = Ok s' -> P s'.
Proof.
  induction xs as [|x xs IH]; intros Hb s s' Hs Hrun; simpl in Hrun.
  - injection Hrun as <-. exact Hs.
  - apply bindO_Ok in Hrun. destruct Hrun as (s1 & H1 & H2).
    eapply IH; [|eapply Hb; [left; reflexivity|exact Hs|exact H1]|exact H2].
    intros y t t' Hy. apply Hb. right. exact Hy.
Qed.

Lemma mapO_Forall {E A B : Type} (P : B -> Prop) (f : A -> Outcome E B) xs ys :
  (forall x y, f x = Ok y -> P y) -> mapO f xs = Ok ys -> Forall P ys.
Proof.
  intros Hf. revert ys. induction xs as [|x xs IH]; intros ys Hm; simpl in Hm.
  - injection Hm as <-. constructor.
  - invO. subst ys. constructor; eauto.
Qed.

(** ** Construction: forward links are the inverse of backward links *)

Section ConstructionFacts.
Context {F : Type} `{FloatOps F}.

Lemma count_occ_replicate (k i a : nat) :
  count_occ Nat.eq_dec (replicate k i) a = if decide (i = a) then k else 0%nat.
Proof.
  induction k as [|k IH]; simpl.
  - destruct (decide (i = a)); reflexivity.
  - destruct (Nat.eq_dec i a), (decide (i = a)); try congruence; lia.
Qed.

Lemma count_occ_flat_map_seq (f : nat -> nat) (s n a : nat) :
  count_occ Nat.eq_dec (flat_map (fun i => replicate (f i) i) (seq s n)) a
  = if decide (s <= a < s + n)%nat then f a else 0%nat.
Proof.
  revert s. induction n as [|n IH]; intros s; simpl.
  - destruct (decide (s <= a < s + 0)%nat); [lia|reflexivity].
  - rewrite count_occ_app, count_occ_replicate, IH.
    destruct (decide (s = a)), (decide (S s <= a < S s + n)%nat),
      (decide (s <= a < s + S n)%nat); subst; lia.
Qed.

Lemma addNext_iter_proj (i : nat) (gp : bool) (k : nat) (L : Layer F) :
  let L' := Nat.iter k (Layer_addNext i gp) L in
  getName L' = getName L /\ kind L' = kind L /\
  isPropagateGrad L' = isPropagateGrad L /\
  isGradProducer L' = isGradProducer L /\ trans L' = trans L /\
  getPrev L' = getPrev L /\
  getNext L' = getNext L ++ replicate k i /\
  numGradProducersNext L' = numGradProducersNext L + Z.of_nat k * Z.b2z gp.
Proof.
  induction k as [|k IH]; simpl.
  - rewrite app_nil_r. repeat split; lia.
  - destruct IH as (? & ? & ? & ? & ? & ? & Hn & Hg). simpl in *.
    repeat split; try assumption.
    + rewrite Hn, <- app_assoc. f_equal. symmetry. apply replicate_cons_app.
    + rewrite Hg. lia.
Qed.

Lemma addNext_fold_lookup (i : nat) (gp : bool) (ps : list nat)
  (ls : list (Layer F)) (b : nat) :
  foldl (fun ls' p => alter (Layer_addNext i gp) p ls') ls ps !! b
  = Nat.iter (count_occ Nat.eq_dec ps b) (Layer_addNext i gp) <$> ls !! b.
Proof.
  revert ls. induction ps as [|p ps IH]; intros ls; simpl.
  - destruct (ls !! b); reflexivity.
  - rewrite IH, list_lookup_alter.
    destruct (decide (p = b)), (Nat.eq_dec p b); try congruence.
    destruct (ls !! p) eqn:E; subst; rewrite ?E; simpl; [|reflexivity].
    f_equal. apply Nat.iter_swap.
Qed.

Lemma connectLayer_lookup (ls : list (Layer F)) (i b : nat) (L : Layer F) :
  ls !! b = Some L ->
  exists L', connectLayer ls i !! b = Some L' /\
    kind L' = kind L /\ isGradProducer L' = isGradProducer L /\
    isPropagateGrad L' = isPropagateGrad L /\
    getPrev L' = getPrev L /\
    getNext L' = getNext L ++ linksTo ls b [i].
Proof.
  intros Hb. unfold connectLayer, linksTo. simpl. rewrite app_nil_r.
  destruct (ls !! i) as [Li|] eqn:Ei.
  - rewrite addNext_fold_lookup, Hb. simpl. eexists. split; [reflexivity|].
    pose proof (addNext_iter_proj i (isGradProducer Li)
                  (count_occ Nat.eq_dec (getPrev Li) b) L) as P.
    simpl in P. tauto.
  - exists L. simpl. rewrite app_nil_r. tauto.
Qed.

Lemma connectLayer_length (ls : list (Layer F)) (i : nat) :
  length (connectLayer ls i) = length ls.
Proof.
  unfold connectLayer. destruct (ls !! i) as [Li|]; [|reflexivity].
  generalize (getPrev Li). intros ps. revert ls.
  induction ps as [|p ps IH]; intros ls; simpl; [reflexivity|].
  rewrite IH. apply length_alter.
Qed.

Lemma linksTo_ext (ls ls' : list (Layer F)) (b : nat) (idxs : list nat) :
  (forall i, getPrev <$> ls' !! i = getPrev <$> ls !! i) ->
  linksTo ls' b idxs = linksTo ls b idxs.
Proof.
  intros Hp. unfold linksTo. induction idxs as [|i idxs IH]; simpl; [reflexivity|].
  rewrite IH. f_equal. f_equal. f_equal. specialize (Hp i).
  destruct (ls' !! i), (ls !! i); simpl in Hp; congruence.
Qed.

Lemma connect_fold_lookup (idxs : list nat) (ls : list (Layer F)) (b : nat)
  (L : Layer F) :
  ls !! b = Some L ->
  exists L', foldl connectLayer ls idxs !! b = Some L' /\
    kind L' = kind L /\ isGradProducer L' = isGradProducer L /\
    isPropagateGrad L' = isPropagateGrad L /\
    getPrev L' = getPrev L /\
    getNext L' = getNext L ++ linksTo ls b idxs.
Proof.
  revert ls L. induction idxs as [|i idxs IH]; intros ls L Hb; simpl.
  - exists L. unfold linksTo. simpl. rewrite app_nil_r. tauto.
  - destruct (connectLayer_lookup ls i b L Hb)
      as (L1 & H1 & Hk1 & Hg1 & Hpg1 & Hp1 & Hn1).
    destruct (IH _ _ H1) as (L2 & H2 & Hk2 & Hg2 & Hpg2 & Hp2 & Hn2).
    exists L2. split; [exact H2|]. repeat split; try congruence.
    rewrite Hn2, Hn1, <- app_assoc. f_equal.
    rewrite (linksTo_ext ls (connectLayer ls i)).
    + unfold linksTo. simpl. rewrite app_nil_r. reflexivity.
    + intros j. destruct (ls !! j) as [Lj|] eqn:Ej.
      * destruct (connectLayer_lookup ls i j Lj Ej)
          as (Lj' & -> & _ & _ & _ & Hpj & _).
        simpl. f_equal. exact Hpj.
      * apply lookup_ge_None in Ej.
        rewrite (proj2 (lookup_ge_None _ _)); [reflexivity|].
        rewrite connectLayer_length. exact Ej.
Qed.

Lemma connect_length (ls : list (Layer F)) : length (connect ls) = length ls.
Proof.
  unfold connect. generalize (seq 0 (length ls)). intros idxs. revert ls.
  induction idxs as [|i idxs IH]; intros ls; simpl; [reflexivity|].
  rewrite IH. apply connectLayer_length.
Qed.

(** The links after the second loop, for layers that come out of the
    first loop (no forward link yet). *)
Lemma connect_spec (ls : list (Layer F)) (b : nat) (L : Layer F) :
  ls !! b = Some L -> getNext L = [] ->
  exists L', connect ls !! b = Some L' /\
    kind L' = kind L /\ isGradProducer L' = isGradProducer L /\
    isPropagateGrad L' = isPropagateGrad L /\
    getPrev L' = getPrev L /\
    forall a La, ls !! a = Some La ->
      count_occ Nat.eq_dec (getNext L') a
      = count_occ Nat.eq_dec (getPrev La) b.
Proof.
  intros Hb Hnil.
  destruct (connect_fold_lookup (seq 0 (length ls)) ls b L Hb)
    as (L' & H' & Hk & Hg & Hpg & Hp & Hn).
  exists L'. split; [exact H'|]. repeat split; try assumption.
  intros a La Ha. rewrite Hn, Hnil. simpl. unfold linksTo.
  rewrite (count_occ_flat_map_seq
             (fun i => count_occ Nat.eq_dec
                         (match ls !! i with
                          | Some Li => getPrev Li | None => []
                          end) b)).
  apply lookup_lt_Some in Ha as Hlt.
  destruct (decide (0 <= a < 0 + length ls)%nat); [|lia].
  rewrite Ha. reflexivity.
Qed.

Lemma getLayer_lt (n : nat) (idx : Z) (p : nat) :
  getLayer n idx = Ok p -> (p < n)%nat.
Proof.
  unfold getLayer. intros Hg. invO. subst p.
  apply andb_true_iff in Hb. destruct Hb as [H0 H1].
  apply Z.leb_le in H0. apply Z.ltb_lt in H1. lia.
Qed.

Lemma mapO_getLayer (n : nat) (ins : list Z) (prev : list nat) :
  mapO (E:=unit) (getLayer n) ins = Ok prev ->
  Forall (fun p => (p < n)%nat) prev /\ map Z.of_nat prev = ins.
Proof.
  revert prev. induction ins as [|idx ins IH]; intros prev Hm; simpl in Hm.
  - injection Hm as <-. split; [constructor|reflexivity].
  - invO. subst prev. destruct (IH _ Ha0) as [Hf He]. split.
    + constructor; [eapply getLayer_lt; eassumption|exact Hf].
    + simpl. rewrite He. f_equal. unfold getLayer in Ha.
      destruct ((0 <=? idx) && (idx <? Z.of_nat n)) eqn:Hb; [|discriminate].
      injection Ha as <-. apply andb_true_iff in Hb. destruct Hb as [H0 _].
      apply Z.leb_le in H0. lia.
Qed.

Lemma Layer_new_prev (d : PyDict F) (n : nat) base :
  Layer_new d n = Ok base ->
  Forall (fun p => (p < n)%nat) base.2 /\ declared d base.2.
Proof.
  unfold Layer_new, declared. intros Hn. invO. subst base. simpl.
  destruct (getIntVec d "inputs") as [ins|].
  - apply mapO_getLayer. exact Ha0.
  - injection Ha0 as <-. split; [constructor|reflexivity].
Qed.

Lemma FCLayer_new_fresh d n r : FCLayer_new d n = Ok r -> fresh d n r.
Proof. unfold FCLayer_new. intros Hn; invO; subst; split; simpl; [reflexivity|];
  eapply Layer_new_prev; eassumption. Qed.
Lemma ConvLayer_new_fresh d n r : ConvLayer_new d n = Ok r -> fresh d n r.
Proof. unfold ConvLayer_new. intros Hn; invO; subst; split; simpl; [reflexivity|];
  eapply Layer_new_prev; eassumption. Qed.
Lemma PoolLayer_new_fresh d n r : PoolLayer_new d n = Ok r -> fresh d n r.
Proof. unfold PoolLayer_new. intros Hn; invO; subst; split; simpl; [reflexivity|];
  eapply Layer_new_prev; eassumption. Qed.
Lemma DataLayer_new_fresh d n r : DataLayer_new d n = Ok r -> fresh d n r.
Proof. unfold DataLayer_new. intros Hn; invO; subst; split; simpl; [reflexivity|];
  eapply Layer_new_prev; eassumption. Qed.
Lemma SoftmaxLayer_new_fresh d n r : SoftmaxLayer_new d n = Ok r -> fresh d n r.
Proof. unfold SoftmaxLayer_new. intros Hn; invO; subst; split; simpl; [reflexivity|];
  eapply Layer_new_prev; eassumption. Qed.
Lemma LogregCost_new_fresh d n r : LogregCost_new d n = Ok r -> fresh d n r.
Proof. unfold LogregCost_new. intros Hn; invO; subst; split; simpl; [reflexivity|];
  eapply Layer_new_prev; eassumption. Qed.

Lemma FCLayer_new_kind d n r :
  FCLayer_new d n = Ok r -> isData (kind r.1) = false /\ isCost (kind r.1) = false.
Proof. unfold FCLayer_new. intros Hn; invO; subst; auto. Qed.
Lemma ConvLayer_new_kind d n r :
  ConvLayer_new d n = Ok r -> isData (kind r.1) = false /\ isCost (kind r.1) = false.
Proof. unfold ConvLayer_new. intros Hn; invO; subst; auto. Qed.
Lemma PoolLayer_new_kind d n r :
  PoolLayer_new d n = Ok r -> isData (kind r.1) = false /\ isCost (kind r.1) = false.
Proof. unfold PoolLayer_new. intros Hn; invO; subst; auto. Qed.
Lemma DataLayer_new_kind d n r :
  DataLayer_new d n = Ok r -> isData (kind r.1) = true /\ isCost (kind r.1) = false.
Proof. unfold DataLayer_new. intros Hn; invO; subst; auto. Qed.
Lemma SoftmaxLayer_new_kind d n r :
  SoftmaxLayer_new d n = Ok r -> isData (kind r.1) = false /\ isCost (kind r.1) = false.
Proof. unfold SoftmaxLayer_new. intros Hn; invO; subst; auto. Qed.
Lemma LogregCost_new_kind d n r :
  LogregCost_new d n = Ok r -> isData (kind r.1) = false /\ isCost (kind r.1) = true.
Proof. unfold LogregCost_new. intros Hn; invO; subst; auto. Qed.

(** One turn of the first loop appends one layer. *)
Lemma instantiate_step (d : PyDict F) acc acc' :
  instantiate d acc = Ok acc' ->
  exists r, fresh d (length (layers acc.1)) r /\
    layers acc'.1 = layers acc.1 ++ [r.1] /\
    acc'.2 = acc.2 ++ [r.2] /\
    dataLayers acc'.1 = (if isData (kind r.1)
                         then dataLayers acc.1 ++ [length (layers acc.1)]
                         else dataLayers acc.1) /\
    costs acc'.1 = (if isCost (kind r.1)
                    then costs acc.1 ++ [length (layers acc.1)]
                    else costs acc.1).
Proof.
  unfold instantiate. intros Hi.
  apply bindO_Ok in Hi. destruct Hi as (ty & _ & Hi).
  repeat match type of Hi with
         | (if ?b then _ else _) = Ok _ => destruct b
         end; try discriminate Hi;
    apply bindO_Ok in Hi; destruct Hi as (r & Hr & Hi);
    injection Hi as <-; exists r; simpl.
  - destruct (FCLayer_new_kind _ _ _ Hr) as [-> ->].
    split; [eapply FCLayer_new_fresh; eassumption|auto].
  - destruct (ConvLayer_new_kind _ _ _ Hr) as [-> ->].
    split; [eapply ConvLayer_new_fresh; eassumption|auto].
  - destruct (PoolLayer_new_kind _ _ _ Hr) as [-> ->].
    split; [eapply PoolLayer_new_fresh; eassumption|auto].
  - destruct (DataLayer_new_kind _ _ _ Hr) as [-> ->].
    split; [eapply DataLayer_new_fresh; eassumption|auto].
  - destruct (SoftmaxLayer_new_kind _ _ _ Hr) as [-> ->].
    split; [eapply SoftmaxLayer_new_fresh; eassumption|auto].
  - destruct (LogregCost_new_kind _ _ _ Hr) as [-> ->].
    split; [eapply LogregCost_new_fresh; eassumption|auto].
Qed.

Lemma indicesOf_app sel s (ls ls' : list (Layer F)) :
  indicesOf sel s (ls ++ ls')
  = indicesOf sel s ls ++ indicesOf sel (s + length ls) ls'.
Proof.
  revert s. induction ls as [|L ls IH]; intros s; simpl.
  - rewrite Nat.add_0_r. reflexivity.
  - rewrite IH. replace (S s + length ls)%nat with (s + S (length ls))%nat by lia.
    destruct (sel (kind L)); reflexivity.
Qed.

Lemma instantiate_built (ds : list (PyDict F)) acc acc' :
  built acc -> forEach instantiate ds acc = Ok acc' -> built acc'.
Proof.
  apply forEach_inv. clear. intros d acc acc' _ (Hl & Hlen & Hd & Hc) Hi.
  destruct (instantiate_step d acc acc' Hi)
    as (r & (Hnx & Hpv & _) & Hls & Hst & Hdl & Hcs).
  unfold built. rewrite Hls, Hst, Hdl, Hcs, !indicesOf_app, Hd, Hc.
  split; [|split; [|split]].
  - intros i L Hi'.
    apply lookup_app_Some in Hi'. destruct Hi' as [Hin|[Hge Hin]];
      [apply (Hl _ _ Hin)|].
    destruct (i - length (layers acc.1))%nat eqn:E; simpl in Hin; [|discriminate].
    injection Hin as <-. replace i with (length (layers acc.1)) by lia.
    split; assumption.
  - rewrite !length_app, Hlen. reflexivity.
  - simpl. destruct (isData (kind r.1)); simpl; rewrite ?app_nil_r; reflexivity.
  - simpl. destruct (isCost (kind r.1)); simpl; rewrite ?app_nil_r; reflexivity.
Qed.

Lemma built_init : built (mkLayerGraph (F:=F) [] [] [], []).
Proof.
  unfold built. simpl. repeat split; intros; discriminate.
Qed.
End ConstructionFacts.

Section ConstructionTheorems.
Context {F : Type} `{FloatOps F}.

Lemma linksTo_elem (ls : list (Layer F)) (b : nat) (idxs : list nat) (a : nat) :
  In a (linksTo ls b idxs) -> In a idxs.
Proof.
  unfold linksTo. intros Hin. apply in_flat_map in Hin.
  destruct Hin as (i & Hi & Hr). apply list_elem_of_In in Hr.
  apply elem_of_replicate in Hr. destruct Hr as [-> _]. exact Hi.
Qed.

Lemma connect_next_valid (ls : list (Layer F)) (b : nat) (L L' : Layer F) :
  ls !! b = Some L -> getNext L = [] -> connect ls !! b = Some L' ->
  Forall (fun s => (s < length ls)%nat) (getNext L').
Proof.
  intros Hb Hnil Hc.
  destruct (connect_fold_lookup (seq 0 (length ls)) ls b L Hb)
    as (L1 & H1 & _ & _ & _ & _ & Hn).
  unfold connect in Hc. rewrite H1 in Hc. injection Hc as <-.
  rewrite Hn, Hnil. simpl. apply List.Forall_forall. intros a Ha.
  apply linksTo_elem in Ha. apply in_seq in Ha. lia.
Qed.

Lemma indicesOf_ext sel s (ls ls' : list (Layer F)) :
  Forall2 (fun L L' => kind L = kind L') ls ls' ->
  indicesOf sel s ls = indicesOf sel s ls'.
Proof.
  intros Hf. revert s. induction Hf as [|L L' ls ls' Hk _ IH]; intros s; simpl.
  - reflexivity.
  - rewrite Hk, IH. reflexivity.
Qed.

Lemma connect_kinds (ls : list (Layer F)) :
  (forall i L, ls !! i = Some L -> getNext L = []) ->
  Forall2 (fun L L' => kind L = kind L') ls (connect ls).
Proof.
  intros Hnil. apply Forall2_same_length_lookup. split.
  - symmetry. apply connect_length.
  - intros i L L' Hi Hi'.
    destruct (connect_spec ls i L Hi (Hnil _ _ Hi)) as (L1 & H1 & Hk & _).
    rewrite H1 in Hi'. injection Hi' as <-. symmetry. exact Hk.
Qed.

(** The constructor yields a well-formed graph, with one state per layer. *)
Lemma LayerGraph_new_wf (layerParams : list (PyDict F)) g st :
  LayerGraph_new layerParams = Ok (g, st) ->
  wf_graph g /\ length (lstate st) = length (layers g).
Proof.
  unfold LayerGraph_new. intros Hn. invO. subst g st.
  pose proof (instantiate_built _ _ _ built_init Ha) as (Hl & Hlen & Hd & Hc).
  assert (Hnil : forall i L, layers a.1 !! i = Some L -> getNext L = [])
    by (intros i L Hi; apply (Hl _ _ Hi)).
  split; [constructor; simpl|].
  - intros x b La Lb Hx Hb.
    assert (Hbl : (b < length (layers a.1))%nat)
      by (apply lookup_lt_Some in Hb; rewrite connect_length in Hb; exact Hb).
    assert (Hxl : (x < length (layers a.1))%nat)
      by (apply lookup_lt_Some in Hx; rewrite connect_length in Hx; exact Hx).
    destruct (lookup_lt_is_Some_2 _ _ Hbl) as [Lb0 Hb0].
    destruct (lookup_lt_is_Some_2 _ _ Hxl) as [La0 Hx0].
    destruct (connect_spec _ _ _ Hb0 (Hnil _ _ Hb0))
      as (Lb1 & Hb1 & _ & _ & _ & _ & Hcount).
    destruct (connect_spec _ _ _ Hx0 (Hnil _ _ Hx0))
      as (La1 & Hx1 & _ & _ & _ & Hp & _).
    rewrite Hb1 in Hb. injection Hb as <-.
    rewrite Hx1 in Hx. injection Hx as <-.
    rewrite Hp. apply (Hcount _ _ Hx0).
  - intros i L Hi.
    assert (Hil : (i < length (layers a.1))%nat)
      by (apply lookup_lt_Some in Hi; rewrite connect_length in Hi; exact Hi).
    destruct (lookup_lt_is_Some_2 _ _ Hil) as [L0 Hi0].
    destruct (connect_spec _ _ _ Hi0 (Hnil _ _ Hi0))
      as (L1 & Hi1 & _ & _ & _ & Hp & _).
    rewrite Hi1 in Hi. injection Hi as <-. rewrite Hp. apply (Hl _ _ Hi0).
  - intros i L Hi. rewrite connect_length.
    assert (Hil : (i < length (layers a.1))%nat)
      by (apply lookup_lt_Some in Hi; rewrite connect_length in Hi; exact Hi).
    destruct (lookup_lt_is_Some_2 _ _ Hil) as [L0 Hi0].
    eapply connect_next_valid; [exact Hi0|apply (Hnil _ _ Hi0)|exact Hi].
  - rewrite Hd. apply indicesOf_ext, connect_kinds, Hnil.
  - rewrite Hc. apply indicesOf_ext, connect_kinds, Hnil.
  - unfold LayerGraph_reset. simpl. rewrite length_map, connect_length.
    exact Hlen.
Qed.
End ConstructionTheorems.

Section LinksTheorem.
Context {F : Type} `{FloatOps F}.

Lemma instantiate_declared (ds : list (PyDict F)) acc acc' :
  forEach instantiate ds acc = Ok acc' ->
  exists ls', layers acc'.1 = layers acc.1 ++ ls' /\
    Forall2 (fun d L => declared d (getPrev L)) ds ls'.
Proof.
  revert acc. induction ds as [|d ds IH]; intros acc Hrun; simpl in Hrun.
  - injection Hrun as <-. exists []. rewrite app_nil_r. split; constructor.
  - invO. destruct (instantiate_step d acc a Ha) as (r & (_ & _ & Hd) & Hls & _).
    destruct (IH _ Hrun) as (ls' & Hls' & Hf).
    exists (r.1 :: ls'). split.
    + rewrite Hls', Hls, <- app_assoc. reflexivity.
    + constructor; assumption.
Qed.


End LinksTheorem.


(** ** Entry points a layer kind does not support *)

Section Misuse.
Context {F : Type} `{FloatOps F} `{Kernels F}.

(** C9.  The generic entry point of a layer kind that does not support it
    throws and computes nothing: the zero-argument [fprop()] of a data
    layer throws ["No dava given!"] on every call, [Cost::_bprop] throws
    on every call, and so does [Layer::bprop(NVMatrix&)] on a cost layer;
    the state at the throw is the state of the call (with, in the last
    case, the record that [_bprop] was entered). *)
Theorem unsupported_entry_points_throw (g : LayerGraph F) :
  (forall fuel l L st,
      layers g !! l = Some L -> isData (kind L) = true ->
      Layer_fprop g fuel l st = Throw "No dava given!" st) /\
  (forall (v : Matrix F) (st : GraphState F),
      Cost__bprop v st = Throw "Cost does not support _bprop(NVMatrix&)" st) /\
  (forall bprop l L s st,
      isCost (kind L) = true -> lstate st !! l = Some s ->
      Layer_bprop_v g bprop l L st
      = Throw "Cost does not support _bprop(NVMatrix&)"
              (log (EvBprop l (getActGrads s)) st)).
Proof.
  split; [|split].
  - intros fuel l L st Hl Hk. destruct fuel; simpl; unfold layerAt;
      rewrite Hl; simpl; destruct (kind L); try discriminate Hk; reflexivity.
  - reflexivity.
  - intros bprop l L s st Hk Hs. unfold Layer_bprop_v, stateAt.
    rewrite Hs. simpl. destruct (kind L); try discriminate Hk. reflexivity.
Qed.
End Misuse.

Lemma unsupported_entry_points_throw_witness :
  Layer_fprop (Example.graphOf Example.diamond) 3 0
    (Example.stateOf Example.diamond)
  = Throw "No dava given!" (Example.stateOf Example.diamond).
Proof.
  apply (proj1 (unsupported_entry_points_throw
                  (Example.graphOf Example.diamond))
           3%nat 0%nat (Example.layerOf Example.diamond 0)).
  - vm_compute. reflexivity.
  - vm_compute. reflexivity.
Defined.

(** ** The cost layer with coefficient zero *)

Section ZeroCoeff.
Context {F : Type} `{FloatOps F} `{Kernels F}.

(** With a zero coefficient [LogregCost::bprop] launches no kernel and
    writes no buffer, but it still calls [bprop()] on its second
    predecessor. *)
Lemma LogregCost_bprop_zero (bprop : nat -> GraphState F -> Run F)
  (l : nat) (L : Layer F) (coeff : F) (st : GraphState F) :
  feqb coeff (of_int 0) = true ->
  LogregCost_bprop bprop l L coeff st
  = do p1 <- deref (getPrev L !! 1%nat); bprop p1 st.
Proof. intros Hz. unfold LogregCost_bprop. rewrite Hz. reflexivity. Qed.
End ZeroCoeff.

(** C1 (the code departs from the claim).  On the network [twoCosts],
    where the cost layer 3 has coefficient zero and shares its predictions
    layer 2 with the cost layer 4, [LogregCost::bprop] on layer 3 after a
    forward pass leaves the gradient buffer of layer 2 as it was, but it
    calls [bprop()] on layer 2: the backward counter of layer 2 goes from
    0 to 1, which is its number of gradient-producing successors, so the
    backward computation of layer 2 runs, on a buffer no one has written. *)
Theorem LogregCost_bprop_zero_coeff_signals :
  let g := Example.graphOf Example.twoCosts in
  let L := Example.layerOf Example.twoCosts 3 in
  let st := Example.afterFprop Example.twoCosts in
  let st' := Example.afterZeroCost in
  layers g !! 3%nat = Some L /\ kind L = LogregCost 0%Q /\
  LogregCost_bprop (Layer_bprop g 5) 3 L 0%Q st = Ok st' /\
  getRcvdBInputs <$> lstate st !! 2%nat = Some 0 /\
  getRcvdBInputs <$> lstate st' !! 2%nat = Some 1 /\
  numGradProducersNext <$> layers g !! 2%nat = Some 1 /\
  getActGrads <$> lstate st !! 2%nat = Some [] /\
  getActGrads <$> lstate st' !! 2%nat = Some [] /\
  trace st' = trace st ++ [EvBprop 2 []].
Proof.
  cbv zeta. repeat apply conj; vm_compute; reflexivity.
Qed.

(** ** The two ways to the convolution weight gradient *)

Section PartialSum.
Context {F : Type} `{FloatOps F} `{Kernels F}.

Lemma trace_weightGrads (l : nat) (c : ConvParams) (prevActs v : Matrix F)
  (st : GraphState F) :
  trace (ConvLayer_weightGrads l c prevActs v st)
  = trace st ++ [EvLaunch l (KConvWeightActs
                               (if (0 <? partialSum c)
                                   && (partialSum c <? modules c)
                                then Some (partialSum c) else None))].
Proof.
  unfold ConvLayer_weightGrads.
  destruct ((0 <? partialSum c) && (partialSum c <? modules c)); reflexivity.
Qed.

End PartialSum.


(** ** The weight increment of a fully-connected layer *)

Section Increment.
Context {F : Type} `{FloatOps F} `{Kernels F}.

Lemma upd_lookup (l : nat) (f : LayerState F -> LayerState F)
  (st : GraphState F) (j : nat) :
  lstate (upd l f st) !! j
  = if decide (l = j) then f <$> lstate st !! l else lstate st !! j.
Proof. unfold upd. simpl. apply list_lookup_alter. Qed.

Lemma upd_lookup_eq (l : nat) (f : LayerState F -> LayerState F)
  (st : GraphState F) (s : LayerState F) :
  lstate st !! l = Some s -> lstate (upd l f st) !! l = Some (f s).
Proof.
  intros Hs. rewrite upd_lookup. destruct (decide (l = l)); [|congruence].
  rewrite Hs. reflexivity.
Qed.

Lemma upd_lookup_ne (l : nat) (f : LayerState F -> LayerState F)
  (st : GraphState F) (j : nat) :
  l <> j -> lstate (upd l f st) !! j = lstate st !! j.
Proof.
  intros Hne. rewrite upd_lookup. destruct (decide (l = j)); congruence.
Qed.

Lemma zip_scaled_row (c0 c1 : F) (r r' : list F) :
  (forall x y, fadd (fmul c0 x) (fmul c1 y) = y) ->
  length r = length r' ->
  zip_with fadd (map (fmul c0) r) (map (fmul c1) r') = r'.
Proof.
  intros Hlaw. revert r'. induction r as [|x r IH]; intros [|y r'] Hlen;
    simpl in *; try discriminate; [reflexivity|].
  rewrite Hlaw, IH by lia. reflexivity.
Qed.

(** An [addProduct] whose scaling arguments wipe the target and keep the
    product writes the product. *)
Lemma addProduct_overwrite (t a b : Matrix F) (c0 c1 : F) :
  (forall x y, fadd (fmul c0 x) (fmul c1 y) = y) ->
  shapeEq t (rightMult a b) ->
  addProduct t a b c0 c1 = rightMult a b.
Proof.
  intros Hlaw Hs. unfold addProduct, madd, scale.
  induction Hs as [|r r' t p Hlen _ IH]; simpl; [reflexivity|].
  rewrite zip_scaled_row by assumption. f_equal. exact IH.
Qed.

End Increment.


(** ** The softmax layer *)

Section Softmax.
Context {F : Type} `{FloatOps F} `{Kernels F}.

Lemma addVector_max1 (a : Matrix F) (c : F) :
  addVector a (max1 a) c
  = map (fun r => map (fun x => fadd x (fmul c (rowmax r))) r) a.
Proof.
  unfold addVector, max1. rewrite length_map, Nat.eqb_refl.
  destruct a as [|r a]; [reflexivity|].
  change (getNumCols (map (fun r0 => [rowmax r0]) (r :: a)) =? 1)
    with true.
  cbv [andb]. rewrite zip_with_fmap_r, zip_with_diag. reflexivity.
Qed.

Lemma eltwiseDivideByVector_sum1 (a : Matrix F) :
  eltwiseDivideByVector a (sum1 a)
  = map (fun r => map (fun x => fdiv x (rowsum r)) r) a.
Proof.
  unfold eltwiseDivideByVector, sum1.
  rewrite zip_with_fmap_r, zip_with_diag. reflexivity.
Qed.

(** C8.  [SoftmaxLayer::_fprop] leaves in the activation buffer, for
    every input matrix, the softmax of each case: the per-case maximum is
    subtracted from the entries of the case (as the addition of [-1]
    times the maximum), the result is exponentiated entry by entry, and
    each case is divided by its sum. *)
Theorem SoftmaxLayer_fprop_softmax (v : list (Matrix F)) (input : Matrix F)
  (s : LayerState F) :
  (forall x m, fadd x (fmul (of_int (-1)) m) = fsub x m) ->
  v !! 0%nat = Some input ->
  SoftmaxLayer__fprop v s = Ok (set_acts (softmax_spec input) s) /\
  let shifted := addVector input (max1 input) (of_int (-1)) in
  let exped := apply fexp shifted in
  shifted = map (fun r => map (fun x => fsub x (rowmax r)) r) input /\
  exped = map (fun r => map (fun x => fexp (fsub x (rowmax r))) r) input /\
  softmax_spec input = eltwiseDivideByVector exped (sum1 exped).
Proof.
  intros Hsub Hv.
  assert (Hshift : addVector input (max1 input) (of_int (-1))
                   = map (fun r => map (fun x => fsub x (rowmax r)) r) input).
  { rewrite addVector_max1. apply map_ext. intros r. apply map_ext.
    intros x. apply Hsub. }
  assert (Hexp : apply fexp (addVector input (max1 input) (of_int (-1)))
                 = map (fun r => map (fun x => fexp (fsub x (rowmax r))) r)
                       input).
  { rewrite Hshift. unfold apply. rewrite map_map. apply map_ext. intros r.
    apply map_map. }
  assert (Hdiv : softmax_spec input
                 = eltwiseDivideByVector
                     (apply fexp (addVector input (max1 input) (of_int (-1))))
                     (sum1 (apply fexp
                              (addVector input (max1 input) (of_int (-1)))))).
  { rewrite eltwiseDivideByVector_sum1, Hexp, map_map. reflexivity. }
  split.
  - unfold SoftmaxLayer__fprop. rewrite Hv. simpl. rewrite <- Hdiv.
    reflexivity.
  - cbv zeta. auto.
Qed.
End Softmax.

Lemma Example_sub_law (x m : Q) :
  fadd x (fmul (of_int (-1)) m) = fsub x m.
Proof.
  simpl. apply Qred_complete. rewrite Qred_correct. unfold Qminus.
  apply Qplus_comp; [reflexivity|]. ring.
Qed.

Lemma SoftmaxLayer_fprop_softmax_witness :
  let input := [[1%Q; 3%Q; 2%Q]; [0%Q; 0%Q; 0%Q]] in
  let s := newState [] noWeights in
  SoftmaxLayer__fprop [input] s = Ok (set_acts (softmax_spec input) s) /\
  let shifted := addVector input (max1 input) (of_int (-1)) in
  let exped := apply fexp shifted in
  shifted = map (fun r => map (fun x => fsub x (rowmax r)) r) input /\
  exped = map (fun r => map (fun x => fexp (fsub x (rowmax r))) r) input /\
  softmax_spec input = eltwiseDivideByVector exped (sum1 exped).
Proof.
  intros input s.
  apply (SoftmaxLayer_fprop_softmax [input] input s Example_sub_law).
  reflexivity.
Defined.

(** ** First writer overwrites, later writers accumulate *)

Section Accumulate.
Context {F : Type} `{FloatOps F}.

Hypothesis fadd_comm : forall x y : F, fadd x y = fadd y x.
Hypothesis fadd_assoc : forall x y z : F, fadd x (fadd y z) = fadd (fadd x y) z.

Lemma zip_fadd_comm (r r' : list F) :
  zip_with fadd r r' = zip_with fadd r' r.
Proof.
  revert r'. induction r as [|x r IH]; intros [|y r']; simpl; try reflexivity.
  rewrite fadd_comm, IH. reflexivity.
Qed.

Lemma zip_fadd_assoc (r1 r2 r3 : list F) :
  zip_with fadd r1 (zip_with fadd r2 r3)
  = zip_with fadd (zip_with fadd r1 r2) r3.
Proof.
  revert r2 r3. induction r1 as [|x r1 IH]; intros [|y r2] [|z r3]; simpl;
    try reflexivity.
  rewrite fadd_assoc, IH. reflexivity.
Qed.

Lemma madd_comm (a b : Matrix F) : madd a b = madd b a.
Proof.
  unfold madd. revert b. induction a as [|r a IH]; intros [|r' b]; simpl;
    try reflexivity.
  rewrite zip_fadd_comm, IH. reflexivity.
Qed.

Lemma madd_assoc (a b c : Matrix F) : madd a (madd b c) = madd (madd a b) c.
Proof.
  unfold madd. revert b c.
  induction a as [|r a IH]; intros [|r' b] [|r'' c]; simpl; try reflexivity.
  rewrite zip_fadd_assoc, IH. reflexivity.
Qed.

Lemma foldl_madd_perm (cs cs' : list (Matrix F)) :
  Permutation cs cs' -> forall a, foldl madd a cs = foldl madd a cs'.
Proof.
  induction 1 as [|x l l' _ IH|x y l|l l' l'' _ IH1 _ IH2]; intros a; simpl.
  - reflexivity.
  - apply IH.
  - f_equal. rewrite <- !madd_assoc. f_equal. apply madd_comm.
  - rewrite IH1. apply IH2.
Qed.

Lemma msum_perm (cs cs' : list (Matrix F)) :
  Permutation cs cs' -> msum cs = msum cs'.
Proof.
  induction 1 as [|x l l' Hp _|x y l|l l' l'' _ IH1 _ IH2]; simpl.
  - reflexivity.
  - apply foldl_madd_perm. exact Hp.
  - f_equal. apply madd_comm.
  - rewrite IH1. exact IH2.
Qed.
End Accumulate.

Section Deliveries.
Context {F : Type} `{FloatOps F}.

Lemma deliver_spec (L : Layer F) (c : Matrix F) (s : LayerState F) :
  getRcvdBInputs (deliver L c s).1 = getRcvdBInputs s + 1 /\
  getActGrads (deliver L c s).1
  = (if getRcvdBInputs s =? 0 then c else madd (getActGrads s) c) /\
  (deliver L c s).2 = (getRcvdBInputs s + 1 =? numGradProducersNext L).
Proof. repeat split. Qed.

(** The deliveries after the first one add to the buffer. *)
Lemma deliverAll_later (L : Layer F) (cs : list (Matrix F)) :
  forall (s : LayerState F) (k : nat),
    getRcvdBInputs s = Z.of_nat k -> (1 <= k)%nat ->
    getActGrads (deliverAll L cs s).1 = foldl madd (getActGrads s) cs /\
    getRcvdBInputs (deliverAll L cs s).1 = Z.of_nat (k + length cs) /\
    (deliverAll L cs s).2
    = map (fun j => Z.of_nat (k + j + 1) =? numGradProducersNext L)
          (seq 0 (length cs)).
Proof.
  induction cs as [|c cs IH]; intros s k Hk Hpos.
  - simpl. repeat split. rewrite Hk. f_equal. lia.
  - destruct (deliver_spec L c s) as (Hr1 & Ha1 & Hf1).
    assert (Hnz : (getRcvdBInputs s =? 0) = false)
      by (apply Z.eqb_neq; lia).
    rewrite Hnz in Ha1.
    destruct (IH (deliver L c s).1 (S k)) as (Ha & Hr & Hf); [lia|lia|].
    change (deliverAll L (c :: cs) s)
      with ((deliverAll L cs (deliver L c s).1).1,
            (deliver L c s).2 :: (deliverAll L cs (deliver L c s).1).2).
    cbn [fst snd]. rewrite Ha, Hr, Hf, Ha1, Hf1.
    split; [reflexivity|]. split.
    + cbn [length]. lia.
    + cbn [length seq map]. f_equal.
      * f_equal. lia.
      * rewrite <- seq_shift, map_map. apply map_ext. intros j. f_equal. lia.
Qed.

Lemma deliverAll_spec (L : Layer F) (cs : list (Matrix F)) (s : LayerState F) :
  getRcvdBInputs s = 0 ->
  (cs <> [] -> getActGrads (deliverAll L cs s).1 = msum cs) /\
  getRcvdBInputs (deliverAll L cs s).1 = Z.of_nat (length cs) /\
  (deliverAll L cs s).2
  = map (fun j => Z.of_nat (j + 1) =? numGradProducersNext L)
        (seq 0 (length cs)).
Proof.
  intros H0. destruct cs as [|c cs].
  - simpl. repeat split; [congruence|exact H0].
  - destruct (deliver_spec L c s) as (Hr1 & Ha1 & Hf1).
    rewrite H0 in *. change (0 =? 0) with true in Ha1.
    destruct (deliverAll_later L cs (deliver L c s).1 1)
      as (Ha & Hr & Hf); [lia|lia|].
    change (deliverAll L (c :: cs) s)
      with ((deliverAll L cs (deliver L c s).1).1,
            (deliver L c s).2 :: (deliverAll L cs (deliver L c s).1).2).
    cbn [fst snd]. rewrite Ha, Hr, Hf, Ha1, Hf1.
    split; [reflexivity|]. split.
    + cbn [length]. lia.
    + cbn [length seq map]. f_equal.
      rewrite <- seq_shift, map_map. apply map_ext. intros j. f_equal; lia.
Qed.

Lemma fired_last (n : nat) (z : Z) :
  z = Z.of_nat (S n) ->
  map (fun j => Z.of_nat (j + 1) =? z) (seq 0 (S n))
  = replicate n false ++ [true].
Proof.
  intros ->. rewrite seq_S, map_app. simpl. f_equal.
  - apply list_eq. intros i. rewrite list_lookup_fmap.
    destruct (decide (i < n)%nat) as [Hlt|Hge].
    + rewrite lookup_seq_lt by exact Hlt. simpl.
      rewrite lookup_replicate_2 by exact Hlt. f_equal.
      apply Z.eqb_neq. lia.
    + rewrite lookup_seq_ge by lia. simpl. symmetry.
      apply lookup_replicate_None. lia.
  - f_equal. apply Z.eqb_eq. lia.
Qed.

End Deliveries.

Lemma Example_fadd_comm (x y : Q) : fadd x y = fadd y x.
Proof. simpl. apply Qred_complete. ring. Qed.

Lemma Example_fadd_assoc (x y z : Q) : fadd x (fadd y z) = fadd (fadd x y) z.
Proof.
  simpl. apply Qred_complete. rewrite !Qred_correct. ring.
Qed.



(** ** The forward wave *)

Section ForwardFacts.
Context {F : Type} `{FloatOps F} `{Kernels F}.

Lemma fpropKeeps_set_acts (a : Matrix F) (s : LayerState F) :
  fpropKeeps s (set_acts a s).
Proof. repeat split. Qed.

Lemma FCLayer__fprop_keeps neuron v (s s' : LayerState F) :
  FCLayer__fprop neuron v s = Ok s' -> fpropKeeps s s'.
Proof. unfold FCLayer__fprop. intros Hr. invO. subst s'. repeat split. Qed.

Lemma ConvLayer__fprop_keeps c neuron v (s s' : LayerState F) :
  ConvLayer__fprop c neuron v s = Ok s' -> fpropKeeps s s'.
Proof. unfold ConvLayer__fprop. intros Hr. invO. subst s'. repeat split. Qed.

Lemma SoftmaxLayer__fprop_keeps v (s s' : LayerState F) :
  SoftmaxLayer__fprop v s = Ok s' -> fpropKeeps s s'.
Proof. unfold SoftmaxLayer__fprop. intros Hr. invO. subst s'. repeat split. Qed.

Lemma DataLayer__fprop_keeps dataIdx v (s s' : LayerState F) :
  DataLayer__fprop dataIdx v s = Ok s' -> fpropKeeps s s'.
Proof. unfold DataLayer__fprop. intros Hr. invO. subst s'. repeat split. Qed.

Lemma PoolLayer__fprop_keeps p v (s s' : LayerState F) :
  PoolLayer__fprop p v s = Ok s' -> fpropKeeps s s'.
Proof.
  unfold PoolLayer__fprop. intros Hr. invO; subst s'; repeat split.
Qed.

Lemma LogregCost__fprop_keeps n v (s s' : LayerState F) :
  LogregCost__fprop n v s = Ok s' -> fpropKeeps s s'.
Proof. unfold LogregCost__fprop. intros Hr. invO. subst s'. repeat split. Qed.

(** What the [_fprop] of layer [l] does to the graph: it rewrites buffers
    of layer [l] and logs that it ran. *)
Lemma Layer__fprop_spec (l : nat) (L : Layer F) (v : list (Matrix F))
  (st st' : GraphState F) :
  Layer__fprop l L v st = Ok st' ->
  exists s s' evs,
    lstate st !! l = Some s /\ fpropKeeps s s' /\
    lstate st' = alter (fun _ => s') l (lstate st) /\
    trace st' = trace st ++ evs /\ fpropped evs = [l] /\
    sameGlobals st st'.
Proof.
  unfold Layer__fprop, stateAt. intros Hr. invO. subst st'.
  exists a, a0.
  assert (Hk : fpropKeeps a a0).
  { destruct (kind L).
    - eapply FCLayer__fprop_keeps; eassumption.
    - eapply ConvLayer__fprop_keeps; eassumption.
    - eapply PoolLayer__fprop_keeps; eassumption.
    - eapply DataLayer__fprop_keeps; eassumption.
    - eapply SoftmaxLayer__fprop_keeps; eassumption.
    - invO. eapply LogregCost__fprop_keeps; eassumption. }
  destruct (kind L);
    (eexists; split; [exact Ha|]; split; [exact Hk|]; split; [reflexivity|];
     split; [simpl; rewrite <- ?app_assoc; reflexivity|];
     split; [reflexivity|repeat split]).
Qed.
End ForwardFacts.

Section Counting.

Lemma got_nil (xs : list nat) : got [] xs = 0%nat.
Proof. induction xs as [|x xs IH]; simpl; [reflexivity|exact IH]. Qed.

Lemma got_snoc (C : list nat) (l : nat) (xs : list nat) :
  got (C ++ [l]) xs = (got C xs + count_occ Nat.eq_dec xs l)%nat.
Proof.
  induction xs as [|x xs IH]; simpl; [reflexivity|].
  rewrite IH, count_occ_app. simpl.
  destruct (Nat.eq_dec l x), (Nat.eq_dec x l); try congruence; lia.
Qed.

Lemma got_le (C : list nat) (xs : list nat) :
  List.NoDup C -> (got C xs <= length xs)%nat.
Proof.
  intros Hnd. induction xs as [|x xs IH]; simpl; [lia|].
  pose proof (proj1 (List.NoDup_count_occ Nat.eq_dec C) Hnd x). lia.
Qed.

Lemma got_all (C : list nat) (xs : list nat) :
  List.NoDup C -> (forall x, In x xs -> In x C) -> got C xs = length xs.
Proof.
  intros Hnd Hall. induction xs as [|x xs IH]; simpl; [reflexivity|].
  rewrite IH by (intros y Hy; apply Hall; right; exact Hy).
  pose proof (proj1 (List.NoDup_count_occ Nat.eq_dec C) Hnd x) as Hle.
  assert (Hin : In x C) by (apply Hall; left; reflexivity).
  apply (count_occ_In Nat.eq_dec) in Hin. lia.
Qed.

Lemma NoDup_snoc (C : list nat) (l : nat) :
  List.NoDup C -> ~ In l C -> List.NoDup (C ++ [l]).
Proof.
  intros Hnd Hni. apply (List.NoDup_count_occ Nat.eq_dec). intros x.
  rewrite count_occ_app. simpl.
  pose proof (proj1 (List.NoDup_count_occ Nat.eq_dec C) Hnd x) as Hle.
  destruct (Nat.eq_dec l x) as [->|Hne]; [|lia].
  apply (count_occ_not_In Nat.eq_dec) in Hni. lia.
Qed.
End Counting.

Section Wave.
Context {F : Type} `{FloatOps F} `{Kernels F}.
Variable g : LayerGraph F.
Hypothesis Hwf : wf_graph g.
Variable n0 : nat.
Variable tr0 : list (Event F).

Lemma computedSince_app (st st' : GraphState F) (evs : list (Event F)) :
  (n0 <= length (trace st))%nat -> trace st' = trace st ++ evs ->
  computedSince n0 st' = computedSince n0 st ++ fpropped evs.
Proof.
  intros Hle Ht. unfold computedSince, fpropped.
  rewrite Ht, drop_app_le by exact Hle. apply omap_app.
Qed.

Lemma computedSince_same (st st' : GraphState F) :
  trace st' = trace st -> computedSince n0 st' = computedSince n0 st.
Proof. unfold computedSince. intros ->. reflexivity. Qed.

(** The call of [fprop()] on [l] that does not complete its inputs. *)
Lemma FInv_wait D l rest (st st1 : GraphState F) (L : Layer F)
  (s s1 : LayerState F) :
  FInv g n0 tr0 D (l :: rest) st ->
  layers g !! l = Some L -> isData (kind L) = false ->
  lstate st !! l = Some s ->
  getRcvdFInputs s + 1 <> Z.of_nat (length (getPrev L)) ->
  lstate st1 = alter (fun _ => s1) l (lstate st) ->
  getRcvdFInputs s1 = getRcvdFInputs s + 1 ->
  trace st1 = trace st ->
  FInv g n0 tr0 D rest st1.
Proof.
  intros [Hlen Htr Hpre Hnd Hdata Hcount] HL Hk Hs Hne Hl1 Hr1 Ht1.
  pose proof (computedSince_same st st1 Ht1) as HC.
  constructor.
  - rewrite Hl1, length_alter. exact Hlen.
  - rewrite Ht1. exact Htr.
  - rewrite Ht1. exact Hpre.
  - rewrite HC. exact Hnd.
  - intros m Lm HLm Hkm. rewrite HC. apply (Hdata m Lm HLm Hkm).
  - intros m Lm sm HLm Hsm Hkm. rewrite HC. rewrite Hl1 in Hsm.
    rewrite list_lookup_alter in Hsm.
    destruct (decide (l = m)) as [<-|Hlm].
    + rewrite Hs in Hsm. simpl in Hsm. injection Hsm as <-.
      rewrite HL in HLm. injection HLm as <-.
      destruct (Hcount l L s HL Hs Hk) as (Hc & Hin & Hout).
      rewrite count_occ_cons_eq in Hc by reflexivity.
      pose proof (got_le (computedSince n0 st) (getPrev L) Hnd) as Hle.
      assert (Hni : ~ In l (computedSince n0 st)).
      { intros Hi. specialize (Hin Hi). lia. }
      split; [lia|]. split; [intros Hi; contradiction|].
      intros _. specialize (Hout Hni). lia.
    + destruct (Hcount m Lm sm HLm Hsm Hkm) as (Hc & Hin & Hout).
      rewrite count_occ_cons_neq in Hc by exact Hlm.
      split; [exact Hc|]. split; assumption.
Qed.

(** The call of [fprop()] on [l] that completes its inputs: [l] computes
    and owes a call to each of its successors. *)
Lemma FInv_fire D l rest (st st3 : GraphState F) (L : Layer F)
  (s s3 : LayerState F) (evs : list (Event F)) :
  FInv g n0 tr0 D (l :: rest) st ->
  layers g !! l = Some L -> isData (kind L) = false ->
  lstate st !! l = Some s ->
  getRcvdFInputs s + 1 = Z.of_nat (length (getPrev L)) ->
  lstate st3 = alter (fun _ => s3) l (lstate st) ->
  getRcvdFInputs s3 = getRcvdFInputs s + 1 ->
  trace st3 = trace st ++ evs -> fpropped evs = [l] ->
  FInv g n0 tr0 D (getNext L ++ rest) st3.
Proof.
  intros [Hlen Htr Hpre Hnd Hdata Hcount] HL Hk Hs Heq Hl3 Hr3 Ht3 Hev.
  pose proof (computedSince_app st st3 evs Htr Ht3) as HC.
  rewrite Hev in HC.
  destruct (Hcount l L s HL Hs Hk) as (Hcl & Hinl & Houtl).
  assert (Hni : ~ In l (computedSince n0 st)).
  { intros Hi. specialize (Hinl Hi). lia. }
  constructor.
  - rewrite Hl3, length_alter. exact Hlen.
  - rewrite Ht3, length_app. lia.
  - rewrite Ht3, take_app_le by exact Htr. exact Hpre.
  - rewrite HC. apply NoDup_snoc; assumption.
  - intros m Lm HLm Hkm. rewrite HC, in_app_iff.
    rewrite <- (Hdata m Lm HLm Hkm). split; [|tauto].
    intros [Hi|[<-|[]]]; [exact Hi|].
    rewrite HL in HLm. injection HLm as <-. congruence.
  - intros m Lm sm HLm Hsm Hkm. rewrite HC, got_snoc, count_occ_app.
    rewrite (wf_inverse g Hwf m l Lm L HLm HL).
    rewrite Hl3, list_lookup_alter in Hsm.
    destruct (decide (l = m)) as [<-|Hlm].
    + rewrite Hs in Hsm. simpl in Hsm. injection Hsm as <-.
      rewrite HL in HLm. injection HLm as <-.
      rewrite count_occ_cons_eq in Hcl by reflexivity.
      split; [lia|]. split; [intros _; lia|].
      intros Hno. exfalso. apply Hno. apply in_app_iff. right. left.
      reflexivity.
    + destruct (Hcount m Lm sm HLm Hsm Hkm) as (Hc & Hin & Hout).
      rewrite count_occ_cons_neq in Hc by exact Hlm.
      split; [lia|]. split.
      * intros Hi. apply in_app_iff in Hi. destruct Hi as [Hi|[Hi|[]]];
          [exact (Hin Hi)|congruence].
      * intros Hno. apply Hout. intros Hi. apply Hno. apply in_app_iff.
        left. exact Hi.
Qed.

(** A data layer is entered with its slot of the data. *)
Lemma FInv_data D l (st st3 : GraphState F) (L : Layer F)
  (s3 : LayerState F) (evs : list (Event F)) :
  FInv g n0 tr0 D [] st ->
  layers g !! l = Some L -> isData (kind L) = true -> ~ In l D ->
  lstate st3 = alter (fun _ => s3) l (lstate st) ->
  trace st3 = trace st ++ evs -> fpropped evs = [l] ->
  FInv g n0 tr0 (D ++ [l]) (getNext L) st3.
Proof.
  intros [Hlen Htr Hpre Hnd Hdata Hcount] HL Hk HnD Hl3 Ht3 Hev.
  pose proof (computedSince_app st st3 evs Htr Ht3) as HC.
  rewrite Hev in HC.
  assert (Hni : ~ In l (computedSince n0 st)).
  { intros Hi. apply HnD. apply (Hdata l L HL Hk). exact Hi. }
  constructor.
  - rewrite Hl3, length_alter. exact Hlen.
  - rewrite Ht3, length_app. lia.
  - rewrite Ht3, take_app_le by exact Htr. exact Hpre.
  - rewrite HC. apply NoDup_snoc; assumption.
  - intros m Lm HLm Hkm. rewrite HC, !in_app_iff.
    rewrite (Hdata m Lm HLm Hkm). tauto.
  - intros m Lm sm HLm Hsm Hkm. rewrite HC, got_snoc.
    rewrite (wf_inverse g Hwf m l Lm L HLm HL).
    assert (Hlm : l <> m).
    { intros <-. rewrite HL in HLm. injection HLm as <-. congruence. }
    rewrite Hl3, list_lookup_alter_ne in Hsm by exact Hlm.
    destruct (Hcount m Lm sm HLm Hsm Hkm) as (Hc & Hin & Hout).
    simpl in Hc.
    split; [lia|]. split.
    + intros Hi. apply in_app_iff in Hi. destruct Hi as [Hi|[Hi|[]]];
        [exact (Hin Hi)|congruence].
    + intros Hno. apply Hout. intros Hi. apply Hno. apply in_app_iff.
      left. exact Hi.
Qed.
End Wave.

Section WaveRun.
Context {F : Type} `{FloatOps F} `{Kernels F}.
Variable g : LayerGraph F.

(** [Layer::fprop()] written out. *)
Lemma Layer_fprop_eq (fuel : nat) (l : nat) (st : GraphState F) :
  Layer_fprop g fuel l st
  = do L <- layerAt g l;
    if isData (kind L) then Throw "No dava given!" st
    else
      do s <- stateAt l st;
      let st1 := upd l (fun _ => set_rcvdFInputs (getRcvdFInputs s + 1) s) st in
      if getRcvdFInputs s + 1 =? Z.of_nat (length (getPrev L)) then
        match fuel with
        | O => OutOfFuel
        | S fuel' =>
            do v <- gatherActs L st1;
            Layer_fprop_v (Layer_fprop g fuel') l L v st1
        end
      else Ok st1.
Proof.
  destruct fuel; simpl; unfold layerAt; destruct (layers g !! l) as [L|];
    simpl; try reflexivity; destruct (kind L); reflexivity.
Qed.

Lemma alter_const_alter {A : Type} (x : A) (f : A -> A) (l : nat)
  (ls : list A) :
  alter (fun _ => x) l (alter f l ls) = alter (fun _ => x) l ls.
Proof.
  apply list_eq. intros i. rewrite !list_lookup_alter.
  destruct (decide (l = i)); [|reflexivity].
  destruct (decide (l = l)); [|congruence].
  destruct (ls !! l); reflexivity.
Qed.

Hypothesis Hwf : wf_graph g.
Variable n0 : nat.
Variable tr0 : list (Event F).

Lemma forEach_fprop_inv (fuel : nat) :
  (forall l st st' D rest,
      FInv g n0 tr0 D (l :: rest) st -> Layer_fprop g fuel l st = Ok st' ->
      FInv g n0 tr0 D rest st') ->
  forall xs st st' D rest,
    FInv g n0 tr0 D (xs ++ rest) st ->
    forEach (Layer_fprop g fuel) xs st = Ok st' ->
    FInv g n0 tr0 D rest st'.
Proof.
  intros Hstep xs. induction xs as [|x xs IH]; intros st st' D rest Hinv Hrun;
    simpl in Hrun.
  - injection Hrun as <-. exact Hinv.
  - invO. eapply IH; [|exact Hrun]. eapply Hstep; [|exact Ha]. exact Hinv.
Qed.

(** A call of [fprop()] keeps the invariant and takes itself off the
    pending calls. *)
Lemma Layer_fprop_inv (fuel : nat) :
  forall l st st' D rest,
    FInv g n0 tr0 D (l :: rest) st -> Layer_fprop g fuel l st = Ok st' ->
    FInv g n0 tr0 D rest st'.
Proof.
  induction fuel as [|fuel IH]; intros l st st' D rest Hinv Hrun;
    rewrite Layer_fprop_eq in Hrun; unfold layerAt, stateAt in Hrun.
  - invO. subst st'. apply Z.eqb_neq in Hb0.
    eapply (FInv_wait g n0 tr0 D l rest st _ a a0 _ Hinv Ha Hb Ha0 Hb0);
      reflexivity.
  - invO.
    + unfold Layer_fprop_v in Hrun. invO.
      destruct (Layer__fprop_spec _ _ _ _ _ Ha3)
        as (s2 & s3 & evs & Hs2 & Hkeep & Hl3 & Ht3 & Hev & _).
      simpl in Hs2. rewrite !list_lookup_alter in Hs2.
      destruct (decide (l = l)); [|congruence].
      rewrite Ha0 in Hs2. simpl in Hs2. injection Hs2 as <-.
      simpl in Hl3. rewrite !alter_const_alter in Hl3.
      apply Z.eqb_eq in Hb0.
      eapply (forEach_fprop_inv fuel IH); [|exact Hrun].
      eapply (FInv_fire g Hwf n0 tr0 D l rest st a3 a a0 s3 evs Hinv Ha Hb Ha0
                Hb0 Hl3); [|exact Ht3|exact Hev].
      destruct Hkeep as (Hk1 & _). rewrite Hk1. simpl. symmetry. exact Hb0.
    + subst st'. apply Z.eqb_neq in Hb0.
      eapply (FInv_wait g n0 tr0 D l rest st _ a a0 _ Hinv Ha Hb Ha0 Hb0);
        reflexivity.
Qed.
End WaveRun.

Section Fuel.
Context {F : Type} `{FloatOps F} `{Kernels F}.

Lemma bindO_fuel {E A B : Type} (m : Outcome E A) (k : A -> Outcome E B) :
  m <> OutOfFuel -> (forall a, m = Ok a -> k a <> OutOfFuel) ->
  bindO m k <> OutOfFuel.
Proof. destruct m; simpl; intros Hm Hk; try discriminate; auto. Qed.

Lemma deref_fuel {E A : Type} (o : option A) : @deref E A o <> OutOfFuel.
Proof. destruct o; discriminate. Qed.

Lemma assertO_fuel {E : Type} (b : bool) : @assertO E b <> OutOfFuel.
Proof. destruct b; discriminate. Qed.

Lemma forEach_fuel {E A S : Type} (body : A -> S -> Outcome E S) (xs : list A) :
  (forall x s, In x xs -> body x s <> OutOfFuel) ->
  forall s, forEach body xs s <> OutOfFuel.
Proof.
  induction xs as [|x xs IH]; intros Hb s; simpl; [discriminate|].
  apply bindO_fuel; [apply Hb; left; reflexivity|].
  intros s' _. apply IH. intros y t Hy. apply Hb. right. exact Hy.
Qed.

Lemma FCLayer_multInputs_fuel (ws : list (Weights F)) (v : list (Matrix F)) :
  forall idx acts, FCLayer_multInputs ws idx v acts <> OutOfFuel.
Proof.
  induction v as [|input v IH]; intros idx acts; simpl; [discriminate|].
  apply bindO_fuel; [apply deref_fuel|]. intros w _. apply IH.
Qed.

(** No layer computation consumes recursion budget. *)
Lemma Layer__fprop_fuel (l : nat) (L : Layer F) (v : list (Matrix F))
  (st : GraphState F) :
  Layer__fprop l L v st <> OutOfFuel.
Proof.
  unfold Layer__fprop, stateAt.
  apply bindO_fuel; [apply deref_fuel|]. intros s _.
  apply bindO_fuel; [|discriminate].
  destruct (kind L); unfold FCLayer__fprop, ConvLayer__fprop,
    PoolLayer__fprop, DataLayer__fprop, SoftmaxLayer__fprop,
    LogregCost__fprop, LayerGraph_getNumCases;
    repeat first
      [ apply FCLayer_multInputs_fuel
      | apply deref_fuel
      | apply assertO_fuel
      | discriminate
      | apply bindO_fuel; [|intros ? _]
      | match goal with
        | |- (if ?b then _ else _) <> _ => destruct b
        | |- match ?o with Some _ => _ | None => _ end <> _ => destruct o
        end ].
Qed.

Lemma gatherActs_fuel (L : Layer F) (st : GraphState F) :
  gatherActs L st <> OutOfFuel.
Proof.
  unfold gatherActs. generalize (getPrev L). intros ps.
  induction ps as [|p ps IH]; [discriminate|].
  apply bindO_fuel; [apply deref_fuel|]. intros s _.
  apply bindO_fuel; [exact IH|]. discriminate.
Qed.

Variable g : LayerGraph F.
Hypothesis Hwf : wf_graph g.

(** A successor has a larger index than the layer. *)
Lemma next_later (l : nat) (L : Layer F) (s : nat) :
  layers g !! l = Some L -> In s (getNext L) ->
  (l < s < length (layers g))%nat.
Proof.
  intros HL Hin.
  pose proof (wf_next g Hwf l L HL) as Hv.
  rewrite List.Forall_forall in Hv. specialize (Hv s Hin).
  destruct (lookup_lt_is_Some_2 _ _ Hv) as [Ls HLs].
  split; [|exact Hv].
  apply (count_occ_In Nat.eq_dec) in Hin.
  rewrite (wf_inverse g Hwf s l Ls L HLs HL) in Hin.
  apply (count_occ_In Nat.eq_dec) in Hin.
  pose proof (wf_prev g Hwf s Ls HLs) as Hp.
  rewrite List.Forall_forall in Hp. apply (Hp l Hin).
Qed.

(** The recursion of [fprop()] goes to layers of larger index, so a
    budget of as many calls as there are layers above is enough. *)
Lemma Layer_fprop_fuel (fuel : nat) :
  forall l st, (length (layers g) <= fuel + l)%nat ->
               Layer_fprop g fuel l st <> OutOfFuel.
Proof.
  induction fuel as [|fuel IH]; intros l st Hf; rewrite Layer_fprop_eq;
    unfold layerAt, stateAt.
  - rewrite (proj2 (lookup_ge_None (layers g) l)) by lia. discriminate.
  - destruct (layers g !! l) as [L|] eqn:HL; simpl; [|discriminate].
    destruct (isData (kind L)); [discriminate|].
    apply bindO_fuel; [apply deref_fuel|]. intros s _. cbv zeta.
    destruct (getRcvdFInputs s + 1 =? Z.of_nat (length (getPrev L)));
      [|discriminate].
    apply bindO_fuel; [apply gatherActs_fuel|]. intros v _.
    unfold Layer_fprop_v.
    apply bindO_fuel; [apply assertO_fuel|]. intros _ _.
    apply bindO_fuel; [apply Layer__fprop_fuel|]. intros st3 _.
    apply forEach_fuel. intros x t Hx. apply IH.
    pose proof (next_later l L x HL Hx). lia.
Qed.

Lemma LayerGraph_fprop_fuel (fuel : nat) (d : Data F) (st : GraphState F) :
  (length (layers g) <= fuel)%nat ->
  LayerGraph_fprop g fuel d st <> OutOfFuel.
Proof.
  intros Hf. unfold LayerGraph_fprop. apply forEach_fuel. intros i t _.
  apply bindO_fuel; [apply deref_fuel|]. intros l _.
  unfold DataLayer_fprop, layerAt.
  apply bindO_fuel; [apply deref_fuel|]. intros L _.
  apply bindO_fuel; [apply Layer__fprop_fuel|]. intros st3 _.
  apply forEach_fuel. intros x t' Hx. apply Layer_fprop_fuel. lia.
Qed.
End Fuel.

Section Indices.
Context {F : Type}.

Lemma indicesOf_In (sel : LayerKind F -> bool) (ls : list (Layer F)) :
  forall s l, In l (indicesOf sel s ls) <->
              exists i L, l = (s + i)%nat /\ ls !! i = Some L /\
                          sel (kind L) = true.
Proof.
  induction ls as [|L0 ls IH]; intros s l; simpl.
  - split; [intros []|intros (i & L & _ & Hl & _); discriminate].
  - assert (Htail : In l (indicesOf sel (S s) ls) <->
                    exists i L, l = (s + S i)%nat /\ ls !! i = Some L /\
                                sel (kind L) = true).
    { rewrite IH. split; intros (i & L & -> & Hi & Hs); exists i, L;
        (split; [lia|split; assumption]). }
    destruct (sel (kind L0)) eqn:E; simpl; rewrite Htail; split.
    + intros [<-|(i & L & -> & Hi & Hs)].
      * exists 0%nat, L0. split; [lia|]. split; [reflexivity|exact E].
      * exists (S i), L. split; [reflexivity|]. split; assumption.
    + intros ([|i] & L & -> & Hi & Hs).
      * left. lia.
      * right. exists i, L. split; [reflexivity|]. split; assumption.
    + intros (i & L & -> & Hi & Hs). exists (S i), L.
      split; [reflexivity|]. split; assumption.
    + intros ([|i] & L & -> & Hi & Hs).
      * simpl in Hi. injection Hi as <-. congruence.
      * exists i, L. split; [reflexivity|]. split; assumption.
Qed.

Lemma indicesOf_NoDup (sel : LayerKind F -> bool) (ls : list (Layer F)) :
  forall s, List.NoDup (indicesOf sel s ls).
Proof.
  induction ls as [|L0 ls IH]; intros s; simpl; [constructor|].
  destruct (sel (kind L0)); [|apply IH].
  constructor; [|apply IH].
  intros Hin. apply indicesOf_In in Hin.
  destruct Hin as (i & L & Heq & _). lia.
Qed.

Lemma NoDup_lookup_take (xs : list nat) (i x : nat) :
  List.NoDup xs -> xs !! i = Some x -> ~ In x (take i xs).
Proof.
  intros Hnd Hi Hin. apply NoDup_ListNoDup in Hnd.
  apply list_elem_of_In, elem_of_take in Hin.
  destruct Hin as (j & Hj & Hlt).
  pose proof (NoDup_lookup _ _ _ _ Hnd Hi Hj). lia.
Qed.
End Indices.

Section Pass.
Context {F : Type} `{FloatOps F} `{Kernels F}.
Variable g : LayerGraph F.
Hypothesis Hwf : wf_graph g.
Hypothesis Hfed : fedByData g.

(** Entering a data layer keeps the invariant. *)
Lemma DataLayer_fprop_inv n0 tr0 (fuel : nat) (l : nat) (L : Layer F)
  (v : list (Matrix F)) (D : list nat) (st st' : GraphState F) :
  FInv g n0 tr0 D [] st ->
  layers g !! l = Some L -> isData (kind L) = true -> ~ In l D ->
  DataLayer_fprop g fuel l v st = Ok st' ->
  FInv g n0 tr0 (D ++ [l]) [] st'.
Proof.
  intros Hinv HL Hk HnD Hrun. unfold DataLayer_fprop, layerAt in Hrun.
  rewrite HL in Hrun. simpl in Hrun. invO.
  destruct (Layer__fprop_spec _ _ _ _ _ Ha)
    as (s2 & s3 & evs & Hs2 & _ & Hl3 & Ht3 & Hev & _).
  eapply (forEach_fprop_inv g n0 tr0 fuel
            (Layer_fprop_inv g Hwf n0 tr0 fuel)); [|exact Hrun].
  rewrite app_nil_r.
  eapply (FInv_data g Hwf n0 tr0 D l st a L s3 evs Hinv HL Hk HnD Hl3 Ht3 Hev).
Qed.

Lemma seed_inv n0 tr0 (fuel : nat) (v : list (Matrix F)) (k : nat) :
  forall i st st',
    FInv g n0 tr0 (take i (dataLayers g)) [] st ->
    forEach (fun i st => do l <- deref (dataLayers g !! i);
                         DataLayer_fprop g fuel l v st)
            (seq i k) st = Ok st' ->
    FInv g n0 tr0 (take (i + k) (dataLayers g)) [] st'.
Proof.
  induction k as [|k IH]; intros i st st' Hinv Hrun; simpl in Hrun.
  - injection Hrun as <-. rewrite Nat.add_0_r. exact Hinv.
  - invO. replace (i + S k)%nat with (S i + k)%nat by lia.
    apply (IH (S i) a st'); [|exact Hrun].
    rewrite (take_S_r _ _ a0 Ha0).
    assert (Hin : In a0 (dataLayers g)).
    { apply list_elem_of_In. eapply list_elem_of_lookup_2. exact Ha0. }
    rewrite (wf_data g Hwf) in Hin. apply indicesOf_In in Hin.
    destruct Hin as (j & L & -> & HL & Hk). simpl in *.
    eapply DataLayer_fprop_inv; try eassumption.
    apply NoDup_lookup_take; [|exact Ha0].
    rewrite (wf_data g Hwf). apply indicesOf_NoDup.
Qed.

(** The state a pass starts from satisfies the invariant. *)
Lemma reset_inv (d : Data F) (st : GraphState F) :
  length (lstate st) = length (layers g) ->
  FInv g (length (trace st)) (trace st) [] []
       (LayerGraph_reset (LayerGraph_setData d st)).
Proof.
  intros Hlen.
  assert (HC : computedSince (length (trace st))
                 (LayerGraph_reset (LayerGraph_setData d st)) = []).
  { unfold computedSince. simpl. rewrite drop_all. reflexivity. }
  constructor.
  - simpl. rewrite length_map. exact Hlen.
  - simpl. lia.
  - simpl. apply take_ge. lia.
  - rewrite HC. constructor.
  - intros l L _ _. rewrite HC. tauto.
  - intros l L s HL Hs Hk. rewrite HC, got_nil. simpl in Hs.
    rewrite list_lookup_fmap in Hs.
    destruct (lstate st !! l) as [s0|]; [|discriminate].
    injection Hs as <-. simpl.
    split; [reflexivity|]. split; [intros []|]. intros _.
    destruct (getPrev L) as [|p ps] eqn:E.
    + apply (Hfed l L HL) in E. congruence.
    + simpl. lia.
Qed.

(** Once nothing is pending and every data layer has been entered, every
    layer has computed. *)
Lemma all_computed n0 tr0 (st : GraphState F) :
  FInv g n0 tr0 (dataLayers g) [] st ->
  forall l L, layers g !! l = Some L -> In l (computedSince n0 st).
Proof.
  intros [Hlen Htr Hpre Hnd Hdata Hcount] l.
  induction l as [l IH] using lt_wf_ind. intros L HL.
  destruct (isData (kind L)) eqn:Hk.
  - apply (Hdata l L HL Hk). rewrite (wf_data g Hwf). apply indicesOf_In.
    exists l, L. split; [reflexivity|]. split; assumption.
  - assert (Hlt : (l < length (lstate st))%nat)
      by (rewrite Hlen; eapply lookup_lt_Some; exact HL).
    destruct (lookup_lt_is_Some_2 _ _ Hlt) as [s Hs].
    destruct (Hcount l L s HL Hs Hk) as (Hc & _ & Hout).
    destruct (in_dec Nat.eq_dec l (computedSince n0 st)) as [Hi|Hni];
      [exact Hi|exfalso].
    specialize (Hout Hni). simpl in Hc.
    rewrite (got_all _ _ Hnd) in Hc; [lia|].
    intros p Hp. pose proof (wf_prev g Hwf l L HL) as Hprev.
    rewrite List.Forall_forall in Hprev. specialize (Hprev p Hp).
    assert (Hpl : (p < length (layers g))%nat)
      by (apply lookup_lt_Some in HL; lia).
    destruct (lookup_lt_is_Some_2 _ _ Hpl) as [Lp HLp].
    apply (IH p Hprev Lp HLp).
Qed.
End Pass.

Section ForwardTheorem.
Context {F : Type} `{FloatOps F} `{Kernels F}.

End ForwardTheorem.

Lemma Example_diamond_fed : fedByData (Example.graphOf Example.diamond).
Proof.
  intros l L HL.
  do 7 (destruct l as [|l];
        [vm_compute in HL; injection HL as <-; vm_compute;
         split; intros; congruence|]).
  vm_compute in HL. discriminate HL.
Qed.


(** ** What the forward pass leaves alone *)

Section Frame.
Context {F : Type} `{FloatOps F} `{Kernels F}.

Lemma sameGlobals_refl (st : GraphState F) : sameGlobals st st.
Proof. repeat split. Qed.

Lemma sameGlobals_trans (st1 st2 st3 : GraphState F) :
  sameGlobals st1 st2 -> sameGlobals st2 st3 -> sameGlobals st1 st3.
Proof.
  intros (A1 & A2 & A3 & A4 & A5 & A6) (B1 & B2 & B3 & B4 & B5 & B6).
  repeat split; congruence.
Qed.

Lemma framed_refl (st : GraphState F) : framed st st.
Proof. split; [reflexivity|apply sameGlobals_refl]. Qed.

Lemma framed_trans (st1 st2 st3 : GraphState F) :
  framed st1 st2 -> framed st2 st3 -> framed st1 st3.
Proof.
  intros [A1 A2] [B1 B2]. split; [congruence|].
  eapply sameGlobals_trans; eassumption.
Qed.

(** Replacing the state of a layer by one with the same weights. *)
Lemma framed_alter (l : nat) (s s' : LayerState F) (st st' : GraphState F) :
  lstate st !! l = Some s ->
  weights s' = weights s -> biases s' = biases s ->
  lstate st' = alter (fun _ => s') l (lstate st) ->
  sameGlobals st st' -> framed st st'.
Proof.
  intros Hs Hw Hb Hl Hg. split; [|exact Hg].
  unfold weightsOf. rewrite Hl. apply list_eq. intros i.
  rewrite !list_lookup_fmap, list_lookup_alter.
  destruct (decide (l = i)) as [<-|]; [|reflexivity].
  rewrite Hs. simpl. rewrite Hw, Hb. reflexivity.
Qed.

Lemma framed_count (l : nat) (s : LayerState F) (z : Z) (st : GraphState F) :
  lstate st !! l = Some s ->
  framed st (upd l (fun _ => set_rcvdFInputs z s) st).
Proof.
  intros Hs.
  apply (framed_alter l s (set_rcvdFInputs z s) st _ Hs); try reflexivity.
  repeat split.
Qed.

Lemma framed_reset (st : GraphState F) : framed st (LayerGraph_reset st).
Proof.
  split; [|repeat split]. unfold weightsOf, LayerGraph_reset. simpl.
  change (map Layer_reset (lstate st)) with (Layer_reset <$> lstate st).
  rewrite <- list_fmap_compose. reflexivity.
Qed.

Variable g : LayerGraph F.

Lemma Layer__fprop_framed (l : nat) (L : Layer F) (v : list (Matrix F))
  (st st' : GraphState F) :
  Layer__fprop l L v st = Ok st' -> framed st st'.
Proof.
  intros Hr.
  destruct (Layer__fprop_spec _ _ _ _ _ Hr)
    as (s & s' & evs & Hs & (_ & _ & _ & Hw & Hb) & Hl & _ & _ & Hg).
  eapply framed_alter; eassumption.
Qed.

Lemma forEach_framed {A : Type} (body : A -> GraphState F -> Run F)
  (xs : list A) :
  (forall x st st', body x st = Ok st' -> framed st st') ->
  forall st st', forEach body xs st = Ok st' -> framed st st'.
Proof.
  intros Hb. induction xs as [|x xs IH]; intros st st' Hrun; simpl in Hrun.
  - injection Hrun as <-. apply framed_refl.
  - invO. eapply framed_trans; [eapply Hb; exact Ha|apply IH; exact Hrun].
Qed.

Lemma Layer_fprop_framed (fuel : nat) :
  forall l st st', Layer_fprop g fuel l st = Ok st' -> framed st st'.
Proof.
  induction fuel as [|fuel IH]; intros l st st' Hrun;
    rewrite Layer_fprop_eq in Hrun; unfold layerAt, stateAt in Hrun.
  - invO. subst st'. apply framed_count. exact Ha0.
  - invO.
    + unfold Layer_fprop_v in Hrun. invO.
      set (s1 := set_rcvdFInputs (getRcvdFInputs a0 + 1) a0) in *.
      set (st1 := upd l (fun _ => s1) st) in *.
      set (st2 := upd l (set_rcvdFInputs (Z.of_nat (length (getPrev a)))) st1)
        in *.
      assert (H1 : framed st st1) by (apply framed_count; exact Ha0).
      assert (Hs1 : lstate st1 !! l = Some s1)
        by exact (upd_lookup_eq l (fun _ => s1) st a0 Ha0).
      assert (H2 : framed st1 st2).
      { apply (framed_alter l s1
                 (set_rcvdFInputs (Z.of_nat (length (getPrev a))) s1)
                 st1 st2 Hs1); try reflexivity; [|repeat split].
        unfold st2. simpl. apply list_eq. intros i.
        rewrite !list_lookup_alter.
        destruct (decide (l = i)); [|reflexivity].
        destruct (decide (l = l)); [|congruence].
        rewrite Ha0. reflexivity. }
      assert (H3 : framed st2 a3)
        by (eapply Layer__fprop_framed; exact Ha3).
      assert (H4 : framed a3 st')
        by (eapply forEach_framed; [apply IH|exact Hrun]).
      eapply framed_trans; [exact H1|]. eapply framed_trans; [exact H2|].
      eapply framed_trans; [exact H3|exact H4].
    + subst st'. apply framed_count. exact Ha0.
Qed.

(** [LayerGraph::fprop()] writes no weight and, apart from the
    activations, the counters, the errors of the cost layers and the log,
    nothing else. *)
Lemma LayerGraph_fprop0_framed (fuel : nat) (st st' : GraphState F) :
  LayerGraph_fprop0 g fuel st = Ok st' -> framed st st'.
Proof.
  unfold LayerGraph_fprop0, LayerGraph_fprop. intros Hrun.
  destruct (data st) as [d|] eqn:Hd; [|discriminate].
  eapply framed_trans; [|eapply forEach_framed; [|exact Hrun]].
  - eapply framed_trans; [|apply framed_reset].
    split; [reflexivity|]. unfold sameGlobals, LayerGraph_setData. simpl.
    rewrite Hd. repeat split.
  - intros i t t' Hb. invO. unfold DataLayer_fprop, layerAt in Hb. invO.
    eapply framed_trans; [eapply Layer__fprop_framed; exact Ha1|].
    eapply forEach_framed; [|exact Hb]. apply Layer_fprop_framed.
Qed.
End Frame.

(** ** The gradient check *)

Section MatrixEntries.
Context {F : Type}.

Lemma mget_mset_eq (i j : nat) (x : F) (m : Matrix F) (row : list F) :
  m !! i = Some row -> (j < length row)%nat ->
  mget i j (mset i j x m) = Some x.
Proof.
  intros Hi Hj. unfold mget, mset, Matrix in *. rewrite list_lookup_alter.
  destruct (decide (i = i)); [|congruence]. rewrite Hi. simpl.
  apply list_lookup_insert_eq. exact Hj.
Qed.

Lemma mget_mset_ne (i j i' j' : nat) (x : F) (m : Matrix F) :
  (i', j') <> (i, j) -> mget i' j' (mset i j x m) = mget i' j' m.
Proof.
  intros Hne. unfold mget, mset, Matrix in *. rewrite list_lookup_alter.
  destruct (decide (i = i')) as [<-|]; [|reflexivity].
  destruct (m !! i) as [row|]; simpl; [|reflexivity].
  apply list_lookup_insert_ne. congruence.
Qed.

Lemma mset_restore (i j : nat) (x v : F) (m : Matrix F) :
  mget i j m = Some v -> mset i j v (mset i j x m) = m.
Proof.
  unfold mget, mset, Matrix in *. intros Hv. apply list_eq. intros k.
  rewrite !list_lookup_alter.
  destruct (decide (i = k)) as [<-|]; [|reflexivity].
  destruct (decide (i = i)); [|congruence].
  destruct (m !! i) as [row|]; simpl; [|reflexivity].
  rewrite list_insert_insert_eq, list_insert_id by exact Hv. reflexivity.
Qed.

Lemma mset_length (i j : nat) (x : F) (m : Matrix F) :
  length (mset i j x m) = length m.
Proof. unfold mset, Matrix in *. apply length_alter. Qed.

Lemma mset_rows (i j : nat) (x : F) (m : Matrix F) (cols : nat) :
  Forall (fun row => length row = cols) m ->
  Forall (fun row => length row = cols) (mset i j x m).
Proof.
  intros Hf. apply Forall_lookup. intros k row Hk.
  unfold mset, Matrix in *. rewrite list_lookup_alter in Hk.
  rewrite Forall_lookup in Hf.
  destruct (decide (i = k)) as [<-|]; [|exact (Hf _ _ Hk)].
  destruct (m !! i) as [row0|] eqn:E; simpl in Hk; [|discriminate].
  injection Hk as <-. rewrite length_insert. exact (Hf _ _ E).
Qed.
End MatrixEntries.

Section References.
Context {F : Type} `{FloatOps F} `{Kernels F}.

Lemma weightsOf_setWeights (r : WeightsRef) (w : Weights F)
  (st : GraphState F) :
  weightsOf (setWeights r w st)
  = alter (setPair r w) (refLayer r) (weightsOf st).
Proof.
  unfold weightsOf. apply list_eq. intros k.
  destruct r as [l i|l]; simpl;
    rewrite list_lookup_fmap, !list_lookup_alter, !list_lookup_fmap;
    (destruct (decide (l = k)); [|reflexivity]);
    destruct (lstate st !! l); reflexivity.
Qed.

Lemma getWeights_weightsOf (r : WeightsRef) (st : GraphState F) :
  getWeights r st
  = match weightsOf st !! refLayer r with
    | Some p => deref (getPair r p)
    | None => Undefined
    end.
Proof.
  unfold getWeights, weightsOf, stateAt. rewrite list_lookup_fmap.
  destruct r as [l i|l]; simpl; destruct (lstate st !! l); reflexivity.
Qed.

Lemma getWeights_framed (r : WeightsRef) (st st' : GraphState F) :
  framed st st' -> getWeights r st' = getWeights r st.
Proof.
  intros [Hw _]. rewrite !getWeights_weightsOf, Hw. reflexivity.
Qed.

Lemma getPair_setPair (r : WeightsRef) (w w0 : Weights F) p :
  getPair r p = Some w0 -> getPair r (setPair r w p) = Some w.
Proof.
  destruct r as [l i|l]; simpl; [|reflexivity].
  intros Hp. apply list_lookup_insert_eq. eapply lookup_lt_Some. exact Hp.
Qed.

Lemma setPair_setPair (r : WeightsRef) (w w' : Weights F) p :
  setPair r w (setPair r w' p) = setPair r w p.
Proof.
  destruct r as [l i|l]; simpl; [|reflexivity].
  rewrite list_insert_insert_eq. reflexivity.
Qed.

Lemma setPair_id (r : WeightsRef) (w : Weights F) p :
  getPair r p = Some w -> setPair r w p = p.
Proof.
  destruct r as [l i|l]; simpl; destruct p as [ws b]; simpl.
  - intros Hp. rewrite list_insert_id by exact Hp. reflexivity.
  - intros Hp. injection Hp as ->. reflexivity.
Qed.

Lemma getWeights_setWeights (r : WeightsRef) (w w0 : Weights F)
  (st : GraphState F) :
  getWeights r st = Ok w0 -> getWeights r (setWeights r w st) = Ok w.
Proof.
  rewrite !getWeights_weightsOf, weightsOf_setWeights, list_lookup_alter.
  destruct (decide (refLayer r = refLayer r)); [|congruence].
  destruct (weightsOf st !! refLayer r) as [p|]; simpl; [|discriminate].
  intros Hg. apply deref_Ok in Hg. rewrite (getPair_setPair r w w0 p Hg).
  reflexivity.
Qed.

Lemma sameGlobals_setWeights (r : WeightsRef) (w : Weights F)
  (st : GraphState F) : sameGlobals st (setWeights r w st).
Proof. destruct r; repeat split. Qed.

(** Writing the perturbed matrix, running anything that writes no weight,
    and writing the original weights back restores all weights. *)
Lemma restore_framed (r : WeightsRef) (w0 wp : Weights F)
  (st st2 : GraphState F) :
  getWeights r st = Ok w0 ->
  framed (setWeights r wp st) st2 ->
  framed st (setWeights r w0 st2).
Proof.
  intros Hg [Hw Hgl]. split.
  - rewrite weightsOf_setWeights, Hw, weightsOf_setWeights.
    rewrite getWeights_weightsOf in Hg.
    apply list_eq. intros k. rewrite !list_lookup_alter.
    destruct (decide (refLayer r = k)) as [<-|]; [|reflexivity].
    destruct (decide (refLayer r = refLayer r)); [|congruence].
    destruct (weightsOf st !! refLayer r) as [p|]; simpl; [|reflexivity].
    apply deref_Ok in Hg. rewrite setPair_setPair, (setPair_id r w0 p Hg).
    reflexivity.
  - eapply sameGlobals_trans; [apply (sameGlobals_setWeights r wp st)|].
    eapply sameGlobals_trans; [exact Hgl|].
    apply sameGlobals_setWeights.
Qed.

Lemma set_W_restore (w0 : Weights F) (M : Matrix F) :
  set_W (getW w0) (set_W M w0) = w0.
Proof. destruct w0; reflexivity. Qed.
End References.

Section CheckLoop.
Context {F : Type} `{FloatOps F} `{Kernels F}.
Variable g : LayerGraph F.
Variables (fuel : nat) (eps : F) (r : WeightsRef).
Variables (st0 : GraphState F) (w0 : Weights F) (cols : nat).
Hypothesis Hw0 : getWeights r st0 = Ok w0.

Lemma copyFromHost_spec (M : Matrix F) (st st' : GraphState F) :
  framed st0 st -> copyFromHost r M st = Ok st' ->
  st' = setWeights r (set_W M w0) st.
Proof.
  intros Hfr Hc. unfold copyFromHost in Hc. invO.
  rewrite (getWeights_framed r st0 st Hfr), Hw0 in Ha.
  injection Ha as <-. symmetry. exact Hc.
Qed.

(** One turn of the inner loop. *)
Lemma checkGradientsW_entry_inv (done : nat -> nat -> Prop) (i j : nat)
  acc acc' :
  (i < length (getW w0))%nat -> (j < cols)%nat ->
  GCInv g fuel eps r st0 w0 cols done acc ->
  checkGradientsW_entry g fuel eps r i j acc = Ok acc' ->
  GCInv g fuel eps r st0 w0 cols
        (fun i' j' => done i' j' \/ (i' = i /\ j' = j)) acc'.
Proof.
  intros Hi Hj Hinv Hrun. destruct acc as [[wcpu ng] st].
  destruct Hinv as (Hcpu & Hfr & Hlen & Hrows & Hdone). simpl in *.
  subst wcpu. unfold checkGradientsW_entry in Hrun. cbn [fst snd] in Hrun.
  invO. subst acc'. unfold GCInv. cbn [fst snd].
  rename a into v, a0 into st1, a1 into st2, a2 into err, a3 into n,
    a4 into st3.
  pose proof (copyFromHost_spec _ _ _ Hfr Ha0) as Hst1.
  pose proof (LayerGraph_fprop0_framed g fuel st1 st2 Ha1) as Hf12.
  assert (Hg2 : getWeights r st2
                = Ok (set_W (mset i j (fadd v eps) (getW w0)) w0)).
  { rewrite (getWeights_framed r st1 st2 Hf12), Hst1.
    apply (getWeights_setWeights r _ w0).
    rewrite (getWeights_framed r st0 st Hfr). exact Hw0. }
  rewrite (mset_restore i j _ v (getW w0) Ha) in *.
  assert (Hst3 : st3 = setWeights r w0 st2).
  { unfold copyFromHost in Ha4. rewrite Hg2 in Ha4. simpl in Ha4.
    injection Ha4 as <-. rewrite set_W_restore. reflexivity. }
  assert (Hf3 : framed st st3).
  { rewrite Hst3. eapply restore_framed; [|rewrite <- Hst1; exact Hf12].
    rewrite (getWeights_framed r st0 st Hfr). exact Hw0. }
  assert (Hg02 : sameGlobals st0 st2).
  { eapply sameGlobals_trans; [exact (proj2 Hfr)|].
    eapply sameGlobals_trans; [|exact (proj2 Hf12)].
    rewrite Hst1. apply sameGlobals_setWeights. }
  destruct Hg02 as (Hdata & _ & _ & _ & _ & Hbase).
  unfold LayerGraph_getNumCases in Ha3.
  destruct (data st2) as [d|] eqn:Hd2; [|discriminate].
  injection Ha3 as <-.
  assert (Hrow : exists row, ng !! i = Some row /\ (j < length row)%nat).
  { assert (Hlt : (i < length ng)%nat) by lia.
    destruct (lookup_lt_is_Some_2 _ _ Hlt) as [row Hr].
    exists row. split; [exact Hr|].
    rewrite Forall_lookup in Hrows. rewrite (Hrows _ _ Hr). exact Hj. }
  destruct Hrow as (row & Hrow & Hjrow).
  assert (Hnew : entryOK g fuel eps r st0 w0 i j
                   (mget i j (mset i j
                                (fdiv (fsub err (baseErr st2))
                                      (fmul (of_int (getNumCases d)) eps)) ng))).
  { exists v, st, err, d. split; [exact Ha|]. split; [exact Hfr|]. split.
    - unfold costWith. rewrite Ha0. simpl. rewrite Ha1. simpl. exact Ha2.
    - split; [congruence|].
      rewrite (mget_mset_eq i j _ ng row Hrow Hjrow), Hbase. reflexivity. }
  split; [reflexivity|]. split; [eapply framed_trans; eassumption|].
  split; [etransitivity; [apply mset_length|exact Hlen]|].
  split; [apply mset_rows; exact Hrows|].
  intros i' j' Hd.
  destruct (decide ((i', j') = (i, j))) as [Heq|Hne].
  - injection Heq as -> ->. exact Hnew.
  - rewrite mget_mset_ne by exact Hne. destruct Hd as [Hd|[-> ->]].
    + apply Hdone. exact Hd.
    + congruence.
Qed.

(** The inner loop, over the columns [s, s + k) of row [i]. *)
Lemma checkGradientsW_row_inv (i : nat) (k : nat) :
  forall (s : nat) (done : nat -> nat -> Prop) acc acc',
    (i < length (getW w0))%nat -> (s + k <= cols)%nat ->
    GCInv g fuel eps r st0 w0 cols done acc ->
    forEach (checkGradientsW_entry g fuel eps r i) (seq s k) acc = Ok acc' ->
    GCInv g fuel eps r st0 w0 cols
          (fun i' j' => done i' j' \/ (i' = i /\ (s <= j' < s + k)%nat)) acc'.
Proof.
  induction k as [|k IH]; intros s done acc acc' Hi Hk Hinv Hrun;
    simpl in Hrun.
  - injection Hrun as <-. destruct Hinv as (A & B & C & D & E).
    refine (conj A (conj B (conj C (conj D _)))). intros i' j' [Hd|[_ Hr]]; [auto|lia].
  - invO.
    pose proof (checkGradientsW_entry_inv done i s acc a Hi
                  ltac:(lia) Hinv Ha) as H1.
    pose proof (IH (S s) _ a acc' Hi ltac:(lia) H1 Hrun)
      as (A & B & C & D & E).
    refine (conj A (conj B (conj C (conj D _)))). intros i' j' [Hd|[-> Hr]].
    + apply E. left. left. exact Hd.
    + apply E. destruct (decide (j' = s)) as [->|Hne].
      * left. right. split; reflexivity.
      * right. split; [reflexivity|lia].
Qed.

(** The outer loop, over the rows [s, s + k). *)
Lemma checkGradientsW_rows_inv (k : nat) :
  forall (s : nat) (done : nat -> nat -> Prop) acc acc',
    (s + k <= length (getW w0))%nat ->
    GCInv g fuel eps r st0 w0 cols done acc ->
    forEach (fun i => forEach (checkGradientsW_entry g fuel eps r i)
                              (seq 0 cols))
            (seq s k) acc = Ok acc' ->
    GCInv g fuel eps r st0 w0 cols
          (fun i' j' => done i' j'
                        \/ ((s <= i' < s + k)%nat /\ (j' < cols)%nat)) acc'.
Proof.
  induction k as [|k IH]; intros s done acc acc' Hk Hinv Hrun;
    simpl in Hrun.
  - injection Hrun as <-. destruct Hinv as (A & B & C & D & E).
    refine (conj A (conj B (conj C (conj D _)))). intros i' j' [Hd|[Hr _]]; [auto|lia].
  - invO.
    pose proof (checkGradientsW_row_inv s cols 0%nat done acc a
                  ltac:(lia) ltac:(lia) Hinv Ha) as H1.
    pose proof (IH (S s) _ a acc' ltac:(lia) H1 Hrun)
      as (A & B & C & D & E).
    refine (conj A (conj B (conj C (conj D _)))). intros i' j' [Hd|[Hr Hc]].
    + apply E. left. left. exact Hd.
    + apply E. destruct (decide (i' = s)) as [->|Hne].
      * left. right. split; [reflexivity|lia].
      * right. split; lia.
Qed.

(** The two loops of [checkGradientsW]: the host copy of the weights is
    back to what it was, no weight of the graph has changed, and every
    entry of the numeric gradient is the difference quotient. *)
Lemma checkGradientsW_loop_spec acc' :
  cols = Z.to_nat (getNumCols (getW w0)) ->
  checkGradientsW_loop g fuel eps r (length (getW w0)) cols
    (getW w0, mzero (length (getW w0)) cols, st0) = Ok acc' ->
  GCInv g fuel eps r st0 w0 cols
        (fun i j => (i < length (getW w0))%nat /\ (j < cols)%nat) acc'.
Proof.
  intros Hcols Hrun. unfold checkGradientsW_loop in Hrun.
  assert (Hinit : GCInv g fuel eps r st0 w0 cols (fun _ _ => False)
                    (getW w0, mzero (length (getW w0)) cols, st0)).
  { split; [reflexivity|]. split; [apply framed_refl|]. simpl.
    unfold mzero. split; [apply length_replicate|]. split.
    - apply Forall_replicate. apply length_replicate.
    - intros i j []. }
  pose proof (checkGradientsW_rows_inv (length (getW w0)) 0%nat _ _ acc'
                ltac:(lia) Hinit Hrun) as (A & B & C & D & E).
  refine (conj A (conj B (conj C (conj D _)))). intros i j [Hi Hj]. apply E. right.
  split; [lia|exact Hj].
Qed.
End CheckLoop.

Section CheckFuel.
Context {F : Type} `{FloatOps F} `{Kernels F}.
Variable g : LayerGraph F.
Hypothesis Hwf : wf_graph g.

Lemma mapO_fuel {E A B : Type} (f : A -> Outcome E B) (xs : list A) :
  (forall x, f x <> OutOfFuel) -> mapO f xs <> OutOfFuel.
Proof.
  intros Hf. induction xs as [|x xs IH]; simpl; [discriminate|].
  apply bindO_fuel; [apply Hf|]. intros y _.
  apply bindO_fuel; [exact IH|]. discriminate.
Qed.

Lemma getWeights_fuel (r : WeightsRef) (st : GraphState F) :
  getWeights r st <> OutOfFuel.
Proof.
  destruct r; unfold getWeights, stateAt;
    (apply bindO_fuel; [apply deref_fuel|]); intros s _;
    [apply deref_fuel|discriminate].
Qed.

Lemma copyFromHost_fuel (r : WeightsRef) (m : Matrix F) (st : GraphState F) :
  copyFromHost r m st <> OutOfFuel.
Proof.
  unfold copyFromHost. apply bindO_fuel; [apply getWeights_fuel|].
  discriminate.
Qed.

Lemma LayerGraph_getCostFunctionValue_fuel (st : GraphState F) :
  LayerGraph_getCostFunctionValue g st <> OutOfFuel.
Proof.
  unfold LayerGraph_getCostFunctionValue.
  apply bindO_fuel; [|discriminate].
  apply mapO_fuel. intros c. unfold layerAt, stateAt.
  apply bindO_fuel; [apply deref_fuel|]. intros L _.
  apply bindO_fuel; [apply deref_fuel|]. intros s _.
  destruct (kind L); discriminate.
Qed.

Lemma checkGradientsW_entry_fuel (fuel : nat) (eps : F) (r : WeightsRef)
  (i j : nat) (acc : Matrix F * Matrix F * GraphState F) :
  (length (layers g) <= fuel)%nat ->
  checkGradientsW_entry g fuel eps r i j acc <> OutOfFuel.
Proof.
  intros Hf. unfold checkGradientsW_entry.
  apply bindO_fuel; [apply deref_fuel|]. intros v _.
  apply bindO_fuel; [apply copyFromHost_fuel|]. intros st1 _.
  apply bindO_fuel.
  { unfold LayerGraph_fprop0. destruct (data st1); [|discriminate].
    apply LayerGraph_fprop_fuel; assumption. }
  intros st2 _.
  apply bindO_fuel; [apply LayerGraph_getCostFunctionValue_fuel|].
  intros err _.
  apply bindO_fuel.
  { unfold LayerGraph_getNumCases. destruct (data st2); discriminate. }
  intros n _.
  apply bindO_fuel; [apply copyFromHost_fuel|]. discriminate.
Qed.

(** With one unit of budget per layer, a gradient check does not run out
    of budget. *)
Lemma LayerGraph_checkGradientsW_fuel (fuel : nat) (name : string) (eps : F)
  (r : WeightsRef) (st : GraphState F) :
  (length (layers g) <= fuel)%nat ->
  LayerGraph_checkGradientsW g fuel name eps r st <> OutOfFuel.
Proof.
  intros Hf. unfold LayerGraph_checkGradientsW.
  apply bindO_fuel; [apply getWeights_fuel|]. intros w _.
  apply bindO_fuel.
  { unfold checkGradientsW_loop. apply forEach_fuel. intros i acc _.
    apply forEach_fuel. intros j acc' _.
    apply checkGradientsW_entry_fuel. exact Hf. }
  intros acc _.
  apply bindO_fuel.
  { unfold LayerGraph_getNumCases. destruct (data acc.2); discriminate. }
  intros n _.
  apply bindO_fuel; [apply getWeights_fuel|]. discriminate.
Qed.
End CheckFuel.

Section GradientCheckTheorems.
Context {F : Type} `{FloatOps F} `{Kernels F}.
Variable g : LayerGraph F.

(** What [checkGradientsW] returns, in terms of the state it is called
    in. *)
Lemma checkGradientsW_spec (fuel : nat) (name : string) (eps : F)
  (r : WeightsRef) (st : GraphState F) (gc : GradCheck F) :
  LayerGraph_checkGradientsW g fuel name eps r st = Ok gc ->
  exists w0 d acc,
    getWeights r st = Ok w0 /\ data st = Some d /\
    GCInv g fuel eps r st w0 (Z.to_nat (getNumCols (getW w0)))
          (fun i j => (i < length (getW w0))%nat
                      /\ (j < Z.to_nat (getNumCols (getW w0)))%nat) acc /\
    let gr := scale (fdiv (of_dec (-1) 0) (of_int (getNumCases d)))
                    (getGrads w0) in
    let relErr := fdiv (norm (subtract acc.1.2 gr)) (norm gr) in
    gc_numGrads gc = acc.1.2 /\ gc_gradsCPU gc = gr /\
    gc_relErr gc = relErr /\
    gc_fail gc = fgeb relErr (of_dec 2 (-2)) /\
    weightsOf (gc_state gc)
    = alter (setPair r (set_grads gr w0)) (refLayer r) (weightsOf st) /\
    numTests (gc_state gc) = numTests st + 1 /\
    numFailures (gc_state gc) = numFailures st + Z.b2z (gc_fail gc).
Proof.
  unfold LayerGraph_checkGradientsW. intros Hrun. invO. subst gc.
  rename a into w0, a0 into acc, a1 into n, a2 into w.
  pose proof (checkGradientsW_loop_spec g fuel eps r st w0 _ Ha acc
                eq_refl Ha0) as Hinv.
  pose proof Hinv as (_ & Hfr & _).
  rewrite (getWeights_framed r st acc.2 Hfr), Ha in Ha2.
  injection Ha2 as <-.
  unfold LayerGraph_getNumCases in Ha1.
  destruct Hfr as [Hw (Hd & _ & _ & Hnf & Hnt & _)].
  destruct (data acc.2) as [d|] eqn:Hd2; [|discriminate].
  injection Ha1 as <-.
  exists w0, d, acc. split; [exact Ha|]. split; [congruence|].
  split; [exact Hinv|]. cbv zeta. cbn [gc_numGrads gc_gradsCPU gc_relErr
                                        gc_fail gc_state].
  split; [reflexivity|]. split; [reflexivity|]. split; [reflexivity|].
  split; [reflexivity|]. split.
  - match goal with
    | |- weightsOf (set_counts _ _ ?s) = _ =>
        change (weightsOf (set_counts _ _ s)) with (weightsOf s)
    end.
    match goal with
    | |- weightsOf (if ?b then log ?e ?s else ?s) = _ =>
        replace (weightsOf (if b then log e s else s)) with (weightsOf s)
          by (destruct b; reflexivity)
    end.
    rewrite weightsOf_setWeights, Hw. reflexivity.
  - cbn [gc_fail]. unfold set_counts. cbn [numTests numFailures].
    match goal with
    | |- context [setWeights r ?w acc.2] =>
        pose proof (sameGlobals_setWeights r w acc.2)
          as (_ & _ & _ & Hnf' & Hnt' & _)
    end.
    split.
    + match goal with
      | |- numTests (if ?b then _ else _) + 1 = _ => destruct b
      end; cbn [log numTests]; rewrite Hnt', Hnt; reflexivity.
    + match goal with
      | |- numFailures (if ?b then _ else _) + _ = _ => destruct b
      end; cbn [log numFailures]; rewrite Hnf', Hnf; reflexivity.
Qed.


End GradientCheckTheorems.

Lemma Example_diamond_wf : wf_graph (Example.graphOf Example.diamond).
Proof.
  apply (LayerGraph_new_wf Example.diamond _ (Example.stateOf Example.diamond)).
  vm_compute. reflexivity.
Qed.



(** * The rest of [layer.cu] *)

(** ** Construction: what the constructors refuse *)

Section ConstructionErrors.
Context {F : Type} `{FloatOps F}.

Lemma instantiate_unknown (d : PyDict F) (ty : string) acc :
  d !! "type" = Some (PyString ty) -> ~ In ty layerTypes ->
  instantiate d acc = Throw (String.append "Unknown layer type " ty) tt.
Proof.
  intros Hty Hnot. unfold instantiate, getString. rewrite Hty. simpl.
  repeat match goal with
         | |- (if String.eqb ty ?k then _ else _) = _ =>
             destruct (String.eqb_spec ty k) as [->|_];
             [exfalso; apply Hnot; unfold layerTypes; simpl; tauto|]
         end.
  reflexivity.
Qed.

(** X1.  When the declarations before it build, a declaration whose
    ["type"] is none of the six known layer types makes
    [LayerGraph::LayerGraph] throw ["Unknown layer type "] followed by the
    type, whatever else the declaration and the declarations after it
    hold: the type is looked at before any other key. *)
Theorem LayerGraph_new_unknown_type (ds1 ds2 : list (PyDict F))
  (d : PyDict F) (ty : string) (g : LayerGraph F) (st : GraphState F) :
  LayerGraph_new ds1 = Ok (g, st) ->
  d !! "type" = Some (PyString ty) ->
  ~ In ty layerTypes ->
  LayerGraph_new (ds1 ++ d :: ds2)
  = Throw (String.append "Unknown layer type " ty) tt.
Proof.
  unfold LayerGraph_new. intros Hnew Hty Hnot. invO.
  rewrite forEach_app, Ha. simpl.
  rewrite (instantiate_unknown d ty a Hty Hnot). reflexivity.
Qed.

(** X2.  [PoolLayer::PoolLayer] accepts the pooling types ["max"] and
    ["avg"] only: on a declaration with a name, valid inputs and the six
    integer keys it throws ["Unknown pooling type "] followed by the type
    for any other ["pool"] string, and a pool layer it returns has one of
    the two. *)
Theorem PoolLayer_new_pool_type (d : PyDict F) (n : nat) :
  (forall base p,
      Layer_new d n = Ok base ->
      (forall k, In k poolKeys -> exists z, d !! k = Some (PyInt z)) ->
      d !! "pool" = Some (PyString p) -> p <> "max" -> p <> "avg" ->
      PoolLayer_new d n
      = Throw (String.append "Unknown pooling type " p) tt) /\
  (forall L s,
      PoolLayer_new d n = Ok (L, s) ->
      exists pp, kind L = PoolLayer pp /\
                 (pool pp = "max" \/ pool pp = "avg") /\
                 d !! "pool" = Some (PyString (pool pp))).
Proof.
  split.
  - intros base p Hbase Hkeys Hp Hmax Havg. unfold PoolLayer_new.
    rewrite Hbase. simpl. unfold getInt.
    repeat match goal with
           | |- context [d !! ?k] =>
               lazymatch k with
               | "pool" => fail
               | _ => let z := fresh "z" in
                      let Hz := fresh "Hz" in
                      destruct (Hkeys k) as [z Hz];
                      [unfold poolKeys; simpl; tauto|rewrite Hz; simpl]
               end
           end.
    unfold getString. rewrite Hp. simpl.
    destruct (String.eqb_spec p "max") as [->|_]; [congruence|].
    destruct (String.eqb_spec p "avg") as [->|_]; [congruence|].
    reflexivity.
  - intros L s Hnew. unfold PoolLayer_new in Hnew. invO.
    subst L. simpl. eexists. split; [reflexivity|]. simpl.
    unfold getString in Ha6.
    destruct (d !! "pool") as [[| |p| | | |]|] eqn:Hp; try discriminate Ha6.
    injection Ha6 as <-. split; [|reflexivity].
    apply andb_false_iff in Hb. destruct Hb as [Hb|Hb];
      apply negb_false_iff in Hb; apply String.eqb_eq in Hb; auto.
Qed.
End ConstructionErrors.

Lemma LayerGraph_new_unknown_type_witness :
  let d := Example.dict [("type", PyString "relu")] in
  LayerGraph_new (Example.diamond ++ [d])
  = Throw (E:=unit) (A:=LayerGraph Q * GraphState Q)
          "Unknown layer type relu" tt.
Proof.
  intros d.
  apply (LayerGraph_new_unknown_type Example.diamond [] d "relu"
           (Example.graphOf Example.diamond)
           (Example.stateOf Example.diamond)).
  - vm_compute. reflexivity.
  - vm_compute. reflexivity.
  - unfold layerTypes. simpl. intuition discriminate.
Defined.

Lemma PoolLayer_new_pool_type_witness :
  PoolLayer_new (Example.poolDecl "pool" [0] "min") 1
  = Throw (E:=unit) (A:=Layer Q * LayerState Q) "Unknown pooling type min" tt
  /\ exists pp, kind (Example.poolBuilt "avg").1 = PoolLayer pp /\
                (pool pp = "max" \/ pool pp = "avg").
Proof.
  split.
  - apply (proj1 (PoolLayer_new_pool_type
                    (Example.poolDecl "pool" [0] "min") 1) ("pool", [0%nat])).
    + vm_compute. reflexivity.
    + intros k Hk. unfold poolKeys in Hk. simpl in Hk.
      repeat (destruct Hk as [<-|Hk]; [eexists; vm_compute; reflexivity|]).
      contradiction.
    + vm_compute. reflexivity.
    + discriminate.
    + discriminate.
  - destruct (proj2 (PoolLayer_new_pool_type
                       (Example.poolDecl "pool" [2] "avg") 3)
                (Example.poolBuilt "avg").1
                (Example.poolBuilt "avg").2) as (pp & Hk & Hp & _).
    + vm_compute. reflexivity.
    + exists pp. split; assumption.
Defined.

(** ** Construction: the shape of the graph *)

Section ConstructionOrder.
Context {F : Type} `{FloatOps F} `{Kernels F}.

Lemma instantiate_length (ds : list (PyDict F)) acc acc' :
  forEach instantiate ds acc = Ok acc' ->
  length (layers acc'.1) = (length (layers acc.1) + length ds)%nat.
Proof.
  intros Hrun. destruct (instantiate_declared ds acc acc' Hrun)
    as (ls' & -> & Hf).
  rewrite length_app. f_equal. symmetry. eapply Forall2_length. exact Hf.
Qed.

Lemma LayerGraph_new_length (ds : list (PyDict F)) g st :
  LayerGraph_new ds = Ok (g, st) -> length (layers g) = length ds.
Proof.
  unfold LayerGraph_new. intros Hnew. invO. subst g. simpl.
  rewrite connect_length, (instantiate_length _ _ _ Ha). reflexivity.
Qed.

(** X3.  A graph that [LayerGraph::LayerGraph] has built has one layer
    and one layer state per declaration, in the order of the
    declarations; the predecessors of a layer all come before it and its
    successors all come after it, so the links form no cycle. *)
Theorem LayerGraph_new_ordered (ds : list (PyDict F)) (g : LayerGraph F)
  (st : GraphState F) :
  LayerGraph_new ds = Ok (g, st) ->
  length (layers g) = length ds /\ length (lstate st) = length ds /\
  forall l L, layers g !! l = Some L ->
    Forall (fun p => (p < l)%nat) (getPrev L) /\
    Forall (fun s => (l < s < length ds)%nat) (getNext L).
Proof.
  intros Hnew. destruct (LayerGraph_new_wf ds g st Hnew) as [Hwf Hlen].
  pose proof (LayerGraph_new_length ds g st Hnew) as Hn.
  split; [exact Hn|]. split; [congruence|].
  intros l L HL. split; [apply (wf_prev g Hwf l L HL)|].
  apply List.Forall_forall. intros s Hs. rewrite <- Hn.
  exact (next_later g Hwf l L s HL Hs).
Qed.
End ConstructionOrder.

Lemma LayerGraph_new_ordered_witness :
  let g := Example.graphOf Example.convnet in
  let st := Example.stateOf Example.convnet in
  length (layers g) = 7%nat /\ length (lstate st) = 7%nat /\
  forall l L, layers g !! l = Some L ->
    Forall (fun p => (p < l)%nat) (getPrev L) /\
    Forall (fun s => (l < s < 7)%nat) (getNext L).
Proof.
  intros g st.
  apply (LayerGraph_new_ordered Example.convnet g st).
  vm_compute. reflexivity.
Defined.

(** ** Construction: what the constructors establish *)

Section Constructors.
Context {F : Type} `{FloatOps F}.

Lemma getString_Ok (d : PyDict F) (k : string) (x : string) :
  getString (E:=unit) d k = Ok x -> d !! k = Some (PyString x).
Proof.
  unfold getString.
  destruct (d !! k) as [[| |p| | | |]|]; try discriminate. congruence.
Qed.

Lemma getInt_Ok (d : PyDict F) (k : string) (x : Z) :
  getInt (E:=unit) d k = Ok x -> exists z, d !! k = Some (PyInt z) /\ x = wrap32 z.
Proof.
  unfold getInt.
  destruct (d !! k) as [[z| | | | | |]|]; try discriminate.
  intros [= <-]. eauto.
Qed.

Lemma getFloat_Ok (d : PyDict F) (k : string) (x : F) :
  getFloat (E:=unit) d k = Ok x -> d !! k = Some (PyFloat x).
Proof.
  unfold getFloat.
  destruct (d !! k) as [[| x'| | | | |]|]; try discriminate. congruence.
Qed.

Lemma getMatrix_Ok (d : PyDict F) (k : string) (x : Matrix F) :
  getMatrix (E:=unit) d k = Ok x -> d !! k = Some (PyArray x).
Proof.
  unfold getMatrix.
  destruct (d !! k) as [[| | | | |m|]|]; try discriminate. congruence.
Qed.

Lemma getMatrixVec_Ok (d : PyDict F) (k : string) (x : list (Matrix F)) :
  getMatrixVec (E:=unit) d k = Ok x -> d !! k = Some (PyArrayList x).
Proof.
  unfold getMatrixVec.
  destruct (d !! k) as [[| | | | | |m]|]; try discriminate. congruence.
Qed.

Lemma mapO_Forall2 {E A B : Type} (f : A -> Outcome E B) xs ys :
  mapO f xs = Ok ys -> Forall2 (fun x y => f x = Ok y) xs ys.
Proof.
  revert ys. induction xs as [|x xs IH]; intros ys Hm; simpl in Hm.
  - injection Hm as <-. constructor.
  - invO. subst ys. constructor; auto.
Qed.

(** [Weights::initialize] on the lists of an FC layer keeps the weight
    matrices of the declaration, in order. *)
Lemma WeightList_initialize_W (hW hInc : list (Matrix F)) (eps wc mom : list F)
  (ws : list (Weights F)) :
  WeightList_initialize hW hInc eps wc mom = Ok ws -> map getW ws = hW.
Proof.
  unfold WeightList_initialize. intros Hm. apply mapO_Forall2 in Hm.
  apply list_eq. intros i. rewrite list_lookup_fmap.
  destruct (hW !! i) as [m|] eqn:Hi.
  - apply lookup_lt_Some in Hi as Hlt.
    destruct (Forall2_lookup_l _ _ _ i i Hm) as (w & Hw & Hf).
    { apply lookup_seq. split; [reflexivity|exact Hlt]. }
    rewrite Hw. simpl. invO. subst w. simpl. congruence.
  - apply lookup_ge_None in Hi.
    rewrite (proj2 (lookup_ge_None ws i)); [reflexivity|].
    rewrite <- (Forall2_length _ _ _ Hm), length_seq. exact Hi.
Qed.
End Constructors.

Section ConstructorFacts.
Context {F : Type} `{FloatOps F}.

Lemma Layer_new_name (d : PyDict F) (n : nat) base :
  Layer_new d n = Ok base -> d !! "name" = Some (PyString base.1).
Proof.
  unfold Layer_new. intros Hn. invO. subst base. simpl.
  apply getString_Ok. exact Ha.
Qed.

Ltac ctor_start Hn :=
  intros Hn Hty; invO; subst; unfold unlinked, constructed, kindBuilt; simpl;
  repeat match goal with
         | H : Layer_new _ _ = Ok _ |- _ => apply Layer_new_name in H
         | H : getString _ _ = Ok _ |- _ => apply getString_Ok in H
         | H : getFloat _ _ = Ok _ |- _ => apply getFloat_Ok in H
         | H : getMatrix _ _ = Ok _ |- _ => apply getMatrix_Ok in H
         | H : getMatrixVec _ _ = Ok _ |- _ => apply getMatrixVec_Ok in H
         end.

Lemma FCLayer_new_unlinked (d : PyDict F) n r :
  FCLayer_new d n = Ok r -> d !! "type" = Some (PyString "fc") ->
  unlinked d r.
Proof.
  unfold FCLayer_new. ctor_start Hn.
  match goal with
  | Hw : WeightList_initialize _ _ _ _ _ = Ok _ |- _ =>
      apply WeightList_initialize_W in Hw; rewrite Hw
  end.
  match goal with
  | Hz : (_ =? 1) = true |- _ => apply Z.eqb_eq in Hz
  end.
  tauto.
Qed.

Lemma ConvLayer_new_unlinked (d : PyDict F) n r :
  ConvLayer_new d n = Ok r -> d !! "type" = Some (PyString "conv") ->
  unlinked d r.
Proof.
  unfold ConvLayer_new. ctor_start Hn.
  match goal with
  | Hz : (_ =? 1) = true |- _ => apply Z.eqb_eq in Hz
  end.
  repeat split; try assumption; try reflexivity; try lia.
  eexists. split; [reflexivity|]. simpl. assumption.
Qed.

Lemma PoolLayer_new_unlinked (d : PyDict F) n r :
  PoolLayer_new d n = Ok r -> d !! "type" = Some (PyString "pool") ->
  unlinked d r.
Proof.
  unfold PoolLayer_new. ctor_start Hn.
  repeat split; try assumption; try reflexivity.
  apply andb_false_iff in Hb. destruct Hb as [Hb|Hb];
    apply negb_false_iff in Hb; apply String.eqb_eq in Hb; auto.
Qed.

Lemma DataLayer_new_unlinked (d : PyDict F) n r :
  DataLayer_new d n = Ok r -> d !! "type" = Some (PyString "data") ->
  unlinked d r.
Proof.
  unfold DataLayer_new. ctor_start Hn.
  match goal with
  | Hz : getInt _ _ = Ok _ |- _ => apply getInt_Ok in Hz
  end.
  repeat split; try assumption; try reflexivity.
Qed.

Lemma SoftmaxLayer_new_unlinked (d : PyDict F) n r :
  SoftmaxLayer_new d n = Ok r -> d !! "type" = Some (PyString "softmax") ->
  unlinked d r.
Proof.
  unfold SoftmaxLayer_new. ctor_start Hn.
  repeat split; try assumption; try reflexivity.
Qed.

Lemma LogregCost_new_unlinked (d : PyDict F) n r :
  LogregCost_new d n = Ok r -> d !! "type" = Some (PyString "cost.logreg") ->
  unlinked d r.
Proof.
  unfold LogregCost_new. ctor_start Hn.
  repeat split; try assumption; try reflexivity.
Qed.
End ConstructorFacts.

Section ConstructionLoops.
Context {F : Type} `{FloatOps F}.

Lemma instantiate_unlinked (d : PyDict F) acc acc' :
  instantiate d acc = Ok acc' ->
  exists r, unlinked d r /\
    layers acc'.1 = layers acc.1 ++ [r.1] /\ acc'.2 = acc.2 ++ [r.2].
Proof.
  unfold instantiate. intros Hi.
  apply bindO_Ok in Hi. destruct Hi as (ty & Hty & Hi).
  apply getString_Ok in Hty.
  repeat match type of Hi with
         | (if String.eqb ty ?k then _ else _) = Ok _ =>
             destruct (String.eqb_spec ty k) as [->|_]
         end; try discriminate Hi;
    apply bindO_Ok in Hi; destruct Hi as (r & Hr & Hi);
    injection Hi as <-; exists r; simpl; (split; [|split; reflexivity]).
  - apply (FCLayer_new_unlinked d _ r Hr Hty).
  - apply (ConvLayer_new_unlinked d _ r Hr Hty).
  - apply (PoolLayer_new_unlinked d _ r Hr Hty).
  - apply (DataLayer_new_unlinked d _ r Hr Hty).
  - apply (SoftmaxLayer_new_unlinked d _ r Hr Hty).
  - apply (LogregCost_new_unlinked d _ r Hr Hty).
Qed.

Lemma instantiate_all (ds : list (PyDict F)) acc acc' :
  forEach instantiate ds acc = Ok acc' ->
  exists rs : list (Layer F * LayerState F),
    layers acc'.1 = layers acc.1 ++ rs.*1 /\ acc'.2 = acc.2 ++ rs.*2 /\
    Forall2 unlinked ds rs.
Proof.
  revert acc. induction ds as [|d ds IH]; intros acc Hrun; simpl in Hrun.
  - injection Hrun as <-. exists []. simpl. rewrite !app_nil_r.
    repeat split. constructor.
  - invO. destruct (instantiate_unlinked d acc a Ha) as (r & Hr & Hl & Hs).
    destruct (IH _ Hrun) as (rs & Hl' & Hs' & Hf).
    exists (r :: rs). simpl. rewrite Hl', Hs', Hl, Hs, <- !app_assoc.
    repeat split. constructor; assumption.
Qed.

Lemma sameStatic_refl (L : Layer F) : sameStatic L L.
Proof. repeat split. Qed.

Lemma sameStatic_trans (L1 L2 L3 : Layer F) :
  sameStatic L1 L2 -> sameStatic L2 L3 -> sameStatic L1 L3.
Proof.
  intros (A1 & A2 & A3 & A4 & A5 & A6) (B1 & B2 & B3 & B4 & B5 & B6).
  repeat split; congruence.
Qed.

Lemma filter_replicate (f : nat -> bool) (k i : nat) :
  List.filter f (replicate k i) = if f i then replicate k i else [].
Proof.
  induction k as [|k IH]; simpl; [destruct (f i); reflexivity|].
  rewrite IH. destruct (f i); reflexivity.
Qed.

(** One turn of the second loop, on all fields of a layer. *)
Lemma connectLayer_fields (ls : list (Layer F)) (i b : nat) (L : Layer F) :
  ls !! b = Some L ->
  exists L', connectLayer ls i !! b = Some L' /\ sameStatic L L' /\
    getNext L' = getNext L ++ linksTo ls b [i] /\
    numGradProducersNext L'
    = numGradProducersNext L
      + Z.of_nat (length (List.filter (producesGrad ls) (linksTo ls b [i]))).
Proof.
  intros Hb. unfold connectLayer, linksTo, producesGrad. simpl.
  rewrite app_nil_r.
  destruct (ls !! i) as [Li|] eqn:Ei.
  - rewrite addNext_fold_lookup, Hb. simpl. eexists. split; [reflexivity|].
    pose proof (addNext_iter_proj i (isGradProducer Li)
                  (count_occ Nat.eq_dec (getPrev Li) b) L) as P.
    simpl in P. destruct P as (P1 & P2 & P3 & P4 & P5 & P6 & P7 & P8).
    split; [repeat split; assumption|]. split; [exact P7|].
    rewrite P8, filter_replicate, Ei.
    destruct (isGradProducer Li); simpl; rewrite ?length_replicate; lia.
  - exists L. simpl. rewrite app_nil_r.
    split; [exact Hb|]. split; [apply sameStatic_refl|]. split; [reflexivity|].
    lia.
Qed.

Lemma producesGrad_ext (ls ls' : list (Layer F)) :
  (forall j, isGradProducer <$> ls' !! j = isGradProducer <$> ls !! j) ->
  forall s, producesGrad ls' s = producesGrad ls s.
Proof.
  intros Hg s. unfold producesGrad. specialize (Hg s).
  destruct (ls' !! s), (ls !! s); simpl in Hg; congruence.
Qed.

Lemma connectLayer_static (ls : list (Layer F)) (i j : nat) :
  getPrev <$> connectLayer ls i !! j = getPrev <$> ls !! j /\
  isGradProducer <$> connectLayer ls i !! j = isGradProducer <$> ls !! j.
Proof.
  destruct (ls !! j) as [Lj|] eqn:Ej.
  - destruct (connectLayer_fields ls i j Lj Ej)
      as (Lj' & -> & (_ & _ & _ & Hg & _ & Hp) & _).
    simpl. split; f_equal; assumption.
  - apply lookup_ge_None in Ej.
    rewrite (proj2 (lookup_ge_None _ _)); [split; reflexivity|].
    rewrite connectLayer_length. exact Ej.
Qed.

Lemma connect_fold_fields (idxs : list nat) (ls : list (Layer F)) (b : nat)
  (L : Layer F) :
  ls !! b = Some L ->
  exists L', foldl connectLayer ls idxs !! b = Some L' /\ sameStatic L L' /\
    getNext L' = getNext L ++ linksTo ls b idxs /\
    numGradProducersNext L'
    = numGradProducersNext L
      + Z.of_nat (length (List.filter (producesGrad ls) (linksTo ls b idxs))).
Proof.
  revert ls L. induction idxs as [|i idxs IH]; intros ls L Hb; cbn [foldl].
  - exists L. unfold linksTo. simpl. rewrite app_nil_r.
    split; [exact Hb|]. split; [apply sameStatic_refl|]. split; [reflexivity|].
    lia.
  - destruct (connectLayer_fields ls i b L Hb) as (L1 & H1 & Hs1 & Hn1 & Hg1).
    destruct (IH _ _ H1) as (L2 & H2 & Hs2 & Hn2 & Hg2).
    exists L2. split; [exact H2|].
    split; [eapply sameStatic_trans; eassumption|].
    assert (Hl : linksTo (connectLayer ls i) b idxs = linksTo ls b idxs).
    { apply linksTo_ext. intros j. apply connectLayer_static. }
    assert (Hsplit : linksTo ls b (i :: idxs)
                     = linksTo ls b [i] ++ linksTo ls b idxs).
    { unfold linksTo. simpl. rewrite app_nil_r. reflexivity. }
    split.
    + rewrite Hn2, Hn1, Hl, Hsplit, <- app_assoc. reflexivity.
    + rewrite Hg2, Hg1, Hl, Hsplit, List.filter_app, length_app.
      rewrite (List.filter_ext (producesGrad (connectLayer ls i))
                 (producesGrad ls)).
      * lia.
      * apply producesGrad_ext. intros j. apply connectLayer_static.
Qed.

Lemma connect_static (ls : list (Layer F)) (j : nat) :
  isGradProducer <$> connect ls !! j = isGradProducer <$> ls !! j.
Proof.
  unfold connect. generalize (seq 0 (length ls)). intros idxs.
  revert ls. induction idxs as [|i idxs IH]; intros ls; simpl.
  - reflexivity.
  - rewrite IH. apply connectLayer_static.
Qed.

(** The second loop, for the layers that come out of the first. *)
Lemma connect_fields (ls : list (Layer F)) (b : nat) (L : Layer F) :
  ls !! b = Some L -> getNext L = [] -> numGradProducersNext L = 0 ->
  exists L', connect ls !! b = Some L' /\ sameStatic L L' /\
    numGradProducersNext L'
    = Z.of_nat (length (List.filter (producesGrad (connect ls))
                                    (getNext L'))).
Proof.
  intros Hb Hnil Hz.
  destruct (connect_fold_fields (seq 0 (length ls)) ls b L Hb)
    as (L' & H' & Hs & Hn & Hg).
  exists L'. split; [exact H'|]. split; [exact Hs|].
  rewrite Hg, Hz, Hn, Hnil. rewrite Z.add_0_l, app_nil_l. f_equal. f_equal.
  apply List.filter_ext. intros s. symmetry. apply producesGrad_ext.
  intros j. apply connect_static.
Qed.
End ConstructionLoops.

Section ConstructionShape.
Context {F : Type} `{FloatOps F}.

Lemma constructed_sameStatic (d : PyDict F) (L L' : Layer F)
  (s : LayerState F) :
  sameStatic L L' -> constructed d L s -> constructed d L' s.
Proof.
  intros (Hn & Hk & Hp & Hg & _ & Hv). unfold constructed, kindBuilt.
  rewrite Hn, Hk, Hp, Hg, Hv. tauto.
Qed.

Lemma constructed_reset (d : PyDict F) (L : Layer F) (s : LayerState F) :
  constructed d L s -> constructed d L (Layer_reset s).
Proof.
  unfold constructed, kindBuilt, Layer_reset. simpl.
  intros (A1 & A2 & A3 & A4 & A5 & A6 & A7 & A8 & A9 & A10).
  repeat split; assumption.
Qed.

(** Every layer of a built graph, with the declaration it comes from and
    its state. *)
Lemma LayerGraph_new_layers (ds : list (PyDict F)) g st :
  LayerGraph_new ds = Ok (g, st) ->
  forall l L, layers g !! l = Some L ->
    numGradProducersNext L
    = Z.of_nat (length (List.filter (producesGrad (layers g)) (getNext L))) /\
    exists d s, ds !! l = Some d /\ lstate st !! l = Some s /\
                constructed d L s.
Proof.
  unfold LayerGraph_new. intros Hnew. invO. subst g st. simpl.
  destruct (instantiate_all ds _ a Ha) as (rs & Hl & Hs & Hf).
  simpl in Hl, Hs. intros l L HL.
  assert (Hlt : (l < length rs)%nat).
  { apply lookup_lt_Some in HL. rewrite connect_length, Hl in HL.
    rewrite length_fmap in HL. exact HL. }
  destruct (lookup_lt_is_Some_2 rs l Hlt) as [r Hr].
  destruct (Forall2_lookup_r _ _ _ l r Hf Hr) as (d & Hd & Hu).
  destruct Hu as (Hc & Hnil & Hz).
  assert (H0 : layers a.1 !! l = Some r.1)
    by (rewrite Hl, list_lookup_fmap, Hr; reflexivity).
  destruct (connect_fields _ l r.1 H0 Hnil Hz) as (L' & HL' & Hst & Hcount).
  rewrite HL' in HL. injection HL as <-.
  split; [exact Hcount|].
  exists d, (Layer_reset r.2). split; [exact Hd|]. split.
  - change (map Layer_reset a.2) with (Layer_reset <$> a.2).
    rewrite Hs, !list_lookup_fmap, Hr. reflexivity.
  - apply constructed_reset. eapply constructed_sameStatic; eassumption.
Qed.

(** X4.  In a graph that [LayerGraph::LayerGraph] has built, the number
    of backward signals a layer waits for, [_numGradProducersNext], is
    the number of entries of its successor list that are gradient
    producers; and the gradient producers are the layers that are neither
    data layers nor cost layers with coefficient zero. *)
Theorem numGradProducersNext_counts (ds : list (PyDict F))
  (g : LayerGraph F) (st : GraphState F) :
  LayerGraph_new ds = Ok (g, st) ->
  forall l L, layers g !! l = Some L ->
    numGradProducersNext L
    = Z.of_nat (length (List.filter (producesGrad (layers g)) (getNext L))) /\
    isGradProducer L = producer (kind L) /\
    producesGrad (layers g) l = producer (kind L).
Proof.
  intros Hnew l L HL.
  destruct (LayerGraph_new_layers ds g st Hnew l L HL)
    as (Hcount & d & s & _ & _ & Hc).
  destruct Hc as (_ & _ & Hg & _).
  split; [exact Hcount|]. split; [exact Hg|].
  unfold producesGrad. rewrite HL. exact Hg.
Qed.

(** X5.  Every layer of a graph that [LayerGraph::LayerGraph] has built
    is of the kind its declaration names and carries the declared name;
    it propagates gradient unless it is a data layer; its counters are
    zero and its buffers empty; and it has what its constructor checks or
    computes: a fully connected layer the declared weight matrices and a
    bias matrix of one row, a convolution layer exactly one predecessor,
    one weight matrix and the squares [_modules], [_filterPixels] and
    [_imgPixels], a pooling layer one of the pooling types ["max"] and
    ["avg"], a data layer the declared data index and a cost layer the
    declared coefficient. *)
Theorem LayerGraph_new_constructed (ds : list (PyDict F))
  (g : LayerGraph F) (st : GraphState F) :
  LayerGraph_new ds = Ok (g, st) ->
  forall l L, layers g !! l = Some L ->
    exists d s, ds !! l = Some d /\ lstate st !! l = Some s /\
      d !! "type" = Some (PyString (typeName (kind L))) /\
      d !! "name" = Some (PyString (getName L)) /\
      isPropagateGrad L = negb (isData (kind L)) /\
      getRcvdFInputs s = 0 /\ getRcvdBInputs s = 0 /\
      getActs s = [] /\ getActGrads s = [] /\ err s = [] /\
      kindBuilt d L s.
Proof.
  intros Hnew l L HL.
  destruct (LayerGraph_new_layers ds g st Hnew l L HL)
    as (_ & d & s & Hd & Hs & Hc).
  exists d, s. unfold constructed in Hc. tauto.
Qed.
End ConstructionShape.

Lemma numGradProducersNext_counts_witness :
  let g := Example.graphOf Example.twoCosts in
  getNext <$> layers g !! 2%nat = Some [3%nat; 4%nat] /\
  numGradProducersNext <$> layers g !! 2%nat = Some 1 /\
  forall l L, layers g !! l = Some L ->
    numGradProducersNext L
    = Z.of_nat (length (List.filter (producesGrad (layers g)) (getNext L))) /\
    isGradProducer L = producer (kind L) /\
    producesGrad (layers g) l = producer (kind L).
Proof.
  intros g. split; [vm_compute; reflexivity|].
  split; [vm_compute; reflexivity|].
  apply (numGradProducersNext_counts Example.twoCosts g
           (Example.stateOf Example.twoCosts)).
  vm_compute. reflexivity.
Defined.

Lemma LayerGraph_new_constructed_witness :
  let g := Example.graphOf Example.convnet in
  let st := Example.stateOf Example.convnet in
  LayerGraph_new Example.convnet = Ok (g, st) /\
  forall l L, layers g !! l = Some L ->
    exists d s, Example.convnet !! l = Some d /\ lstate st !! l = Some s /\
      d !! "type" = Some (PyString (typeName (kind L))) /\
      d !! "name" = Some (PyString (getName L)) /\
      isPropagateGrad L = negb (isData (kind L)) /\
      getRcvdFInputs s = 0 /\ getRcvdBInputs s = 0 /\
      getActs s = [] /\ getActGrads s = [] /\ err s = [] /\
      kindBuilt d L s.
Proof.
  intros g st.
  assert (Hnew : LayerGraph_new Example.convnet = Ok (g, st))
    by (vm_compute; reflexivity).
  split; [exact Hnew|].
  exact (LayerGraph_new_constructed Example.convnet g st Hnew).
Defined.

Section Registries.
Context {F : Type} `{FloatOps F}.

Lemma indicesOf_increasing (sel : LayerKind F -> bool) (ls : list (Layer F)) :
  forall s i j a b, (i < j)%nat ->
    indicesOf sel s ls !! i = Some a -> indicesOf sel s ls !! j = Some b ->
    (a < b)%nat.
Proof.
  induction ls as [|L0 ls IH]; intros s i j a b Hij Ha Hb; simpl in *;
    [discriminate|].
  destruct (sel (kind L0)); [|eapply IH; eassumption].
  destruct j as [|j]; [lia|]. simpl in Hb.
  destruct i as [|i]; simpl in Ha.
  - injection Ha as <-.
    assert (Hin : In b (indicesOf sel (S s) ls)).
    { apply list_elem_of_In, list_elem_of_lookup. eauto. }
    apply indicesOf_In in Hin. destruct Hin as (k & L & -> & _). lia.
  - apply (IH (S s) i j a b); [lia|assumption|assumption].
Qed.

Lemma indicesOf_In0 (sel : LayerKind F -> bool) (ls : list (Layer F)) l :
  In l (indicesOf sel 0 ls) <->
  exists L, ls !! l = Some L /\ sel (kind L) = true.
Proof.
  rewrite indicesOf_In. split.
  - intros (i & L & -> & Hi & Hs). exists L. simpl. auto.
  - intros (L & Hi & Hs). exists l, L. auto.
Qed.

(** X6.  In a graph that [LayerGraph::LayerGraph] has built, [_dataLayers]
    holds the data layers and nothing else, and [_costs] the cost layers
    and nothing else, each layer once and in the order of the
    declarations. *)
Theorem LayerGraph_new_registries (ds : list (PyDict F)) (g : LayerGraph F)
  (st : GraphState F) :
  LayerGraph_new ds = Ok (g, st) ->
  (forall l, In l (dataLayers g) <->
             exists L, layers g !! l = Some L /\ isData (kind L) = true) /\
  (forall l, In l (costs g) <->
             exists L, layers g !! l = Some L /\ isCost (kind L) = true) /\
  (forall i j a b, (i < j)%nat ->
      dataLayers g !! i = Some a -> dataLayers g !! j = Some b ->
      (a < b)%nat) /\
  (forall i j a b, (i < j)%nat ->
      costs g !! i = Some a -> costs g !! j = Some b -> (a < b)%nat).
Proof.
  intros Hnew. destruct (LayerGraph_new_wf ds g st Hnew) as [Hwf _].
  rewrite (wf_data g Hwf), (wf_costs g Hwf).
  split; [intros l; apply indicesOf_In0|].
  split; [intros l; apply indicesOf_In0|].
  split; apply indicesOf_increasing.
Qed.
End Registries.

Lemma LayerGraph_new_registries_witness :
  let g := Example.graphOf Example.twoCosts in
  dataLayers g = [0%nat; 1%nat] /\ costs g = [3%nat; 4%nat] /\
  (forall l, In l (dataLayers g) <->
             exists L, layers g !! l = Some L /\ isData (kind L) = true) /\
  (forall l, In l (costs g) <->
             exists L, layers g !! l = Some L /\ isCost (kind L) = true) /\
  (forall i j a b, (i < j)%nat ->
      dataLayers g !! i = Some a -> dataLayers g !! j = Some b ->
      (a < b)%nat) /\
  (forall i j a b, (i < j)%nat ->
      costs g !! i = Some a -> costs g !! j = Some b -> (a < b)%nat).
Proof.
  intros g. split; [vm_compute; reflexivity|].
  split; [vm_compute; reflexivity|].
  apply (LayerGraph_new_registries Example.twoCosts g
           (Example.stateOf Example.twoCosts)).
  vm_compute. reflexivity.
Defined.

(** ** The forward computation of a fully connected layer *)

Section FCForward.
Context {F : Type} `{FloatOps F} `{Kernels F}.

Lemma FCLayer_multInputs_from (ws : list (Weights F)) :
  forall (v : list (Matrix F)) (idx : nat) (acts : Matrix F),
    FCLayer_multInputs ws (S idx) v acts
    = if (length v <=? length (drop (S idx) ws))%nat
      then Ok (foldl madd acts (FC_products v (drop (S idx) ws)))
      else Undefined.
Proof.
  induction v as [|input v IH]; intros idx acts; [reflexivity|].
  cbn [FCLayer_multInputs].
  destruct (ws !! S idx) as [w|] eqn:Hw; cbn [deref bindO].
  - rewrite IH, (drop_S ws w (S idx) Hw). reflexivity.
  - apply lookup_ge_None in Hw. rewrite (drop_ge ws (S idx)) by lia.
    reflexivity.
Qed.

(** X7.  [FCLayer::_fprop] on the inputs [v] needs one weight matrix per
    input, otherwise it indexes [_weights] out of range.  With enough
    weight matrices it leaves in [_acts] the neuron function applied to
    [input_0 * W_0 + input_1 * W_1 + ... + biases], summed from left to
    right; the first product overwrites [_acts], so with at least one
    input the result does not depend on what [_acts] held before, and
    with no input the biases are added onto the old contents. *)
Theorem FCLayer_fprop_formula (neuron : string) (v : list (Matrix F))
  (s : LayerState F) :
  FCLayer__fprop neuron v s
  = if (length v <=? length (weights s))%nat
    then Ok (set_acts
               (neuron_activate neuron
                  (addVector (FC_preact (getActs s)
                                (FC_products v (weights s)))
                             (getW (biases s)) (of_int 1))) s)
    else Undefined.
Proof.
  unfold FCLayer__fprop. destruct v as [|input v]; [reflexivity|].
  cbn [FCLayer_multInputs].
  destruct (weights s) as [|w ws] eqn:Hws; [reflexivity|].
  cbn [lookup list_lookup deref bindO].
  change ((w :: ws) !! 0%nat) with (Some w). cbn [deref bindO].
  pose proof (FCLayer_multInputs_from (w :: ws) v 0
                (rightMult input (getW w))) as Hm.
  cbn [drop] in Hm. rewrite drop_0 in Hm. rewrite Hm.
  cbn [length]. change (S (length v) <=? S (length ws))%nat
    with (length v <=? length ws)%nat.
  destruct (length v <=? length ws)%nat; reflexivity.
Qed.
End FCForward.

(** ** What a forward pass never does *)

Section ForwardSteps.
Context {F : Type} `{FloatOps F} `{Kernels F}.
Variable g : LayerGraph F.

(** Any relation between states that holds across a change of a forward
    counter and across a [_fprop] holds across [fprop()]. *)
Section StepRelation.
Variable R : GraphState F -> GraphState F -> Prop.
Hypothesis R_refl : forall st, R st st.
Hypothesis R_trans : forall st1 st2 st3, R st1 st2 -> R st2 st3 -> R st1 st3.
Hypothesis R_count : forall l s z st,
  lstate st !! l = Some s -> R st (upd l (fun _ => set_rcvdFInputs z s) st).
Hypothesis R_fprop : forall l L v st st',
  Layer__fprop l L v st = Ok st' -> R st st'.

Lemma forEach_rel {A : Type} (body : A -> GraphState F -> Run F)
  (xs : list A) :
  (forall x st st', body x st = Ok st' -> R st st') ->
  forall st st', forEach body xs st = Ok st' -> R st st'.
Proof.
  intros Hb. induction xs as [|x xs IH]; intros st st' Hrun; simpl in Hrun.
  - injection Hrun as <-. apply R_refl.
  - invO. eapply R_trans; [eapply Hb; exact Ha|apply IH; exact Hrun].
Qed.

Lemma upd_at (l : nat) (f : LayerState F -> LayerState F) (s : LayerState F)
  (st : GraphState F) :
  lstate st !! l = Some s -> upd l f st = upd l (fun _ => f s) st.
Proof.
  intros Hs. unfold upd. f_equal. apply list_eq. intros i.
  rewrite !list_lookup_alter. destruct (decide (l = i)) as [<-|]; [|reflexivity].
  rewrite Hs. reflexivity.
Qed.

Lemma Layer_fprop_rel (fuel : nat) :
  forall l st st', Layer_fprop g fuel l st = Ok st' -> R st st'.
Proof.
  induction fuel as [|fuel IH]; intros l st st' Hrun;
    rewrite Layer_fprop_eq in Hrun; unfold layerAt, stateAt in Hrun.
  - invO. subst st'. apply R_count. exact Ha0.
  - invO.
    + unfold Layer_fprop_v in Hrun. invO.
      set (s1 := set_rcvdFInputs (getRcvdFInputs a0 + 1) a0) in *.
      set (st1 := upd l (fun _ => s1) st) in *.
      assert (H1 : R st st1) by (apply R_count; exact Ha0).
      assert (Hs1 : lstate st1 !! l = Some s1)
        by exact (upd_lookup_eq l (fun _ => s1) st a0 Ha0).
      rewrite (upd_at l _ s1 st1 Hs1) in Ha3.
      assert (H2 : R st1 (upd l (fun _ => set_rcvdFInputs
                                   (Z.of_nat (length (getPrev a))) s1) st1))
        by (apply R_count; exact Hs1).
      eapply R_trans; [exact H1|]. eapply R_trans; [exact H2|].
      eapply R_trans; [eapply R_fprop; exact Ha3|].
      eapply forEach_rel; [apply IH|exact Hrun].
    + subst st'. apply R_count. exact Ha0.
Qed.

Lemma DataLayer_fprop_rel (fuel : nat) (l : nat) (v : list (Matrix F))
  (st st' : GraphState F) :
  DataLayer_fprop g fuel l v st = Ok st' -> R st st'.
Proof.
  unfold DataLayer_fprop, layerAt. intros Hrun. invO.
  eapply R_trans; [eapply R_fprop; exact Ha0|].
  eapply forEach_rel; [|exact Hrun]. apply Layer_fprop_rel.
Qed.
End StepRelation.
End ForwardSteps.

Section ForwardOnly.
Context {F : Type} `{FloatOps F} `{Kernels F}.

Lemma fwdKeeps_refl (s : LayerState F) : fwdKeeps s s.
Proof. repeat split. Qed.

Lemma forwardOnly_refl (st : GraphState F) : forwardOnly st st.
Proof.
  split; [apply Forall2_same_length_lookup; split; [reflexivity|]|].
  - intros i s s' Hs Hs'. rewrite Hs in Hs'. injection Hs' as <-.
    apply fwdKeeps_refl.
  - repeat split. exists []. rewrite app_nil_r. split; reflexivity.
Qed.

Lemma forwardOnly_trans (st1 st2 st3 : GraphState F) :
  forwardOnly st1 st2 -> forwardOnly st2 st3 -> forwardOnly st1 st3.
Proof.
  intros (A & A1 & A2 & A3 & A4 & A5 & evs & Ht & He)
         (B & B1 & B2 & B3 & B4 & B5 & evs' & Ht' & He').
  split; [|repeat split; try congruence].
  - eapply Forall2_trans; [|exact A|exact B].
    intros x y z (X1 & X2 & X3) (Y1 & Y2 & Y3). repeat split; congruence.
  - exists (evs ++ evs'). rewrite Ht', Ht, app_assoc. split; [reflexivity|].
    rewrite forallb_app, He, He'. reflexivity.
Qed.

(** Rewriting the state of one layer, and appending to the log. *)
Lemma forwardOnly_alter (l : nat) (s s' : LayerState F)
  (st st' : GraphState F) (evs : list (Event F)) :
  lstate st !! l = Some s -> fwdKeeps s s' ->
  lstate st' = alter (fun _ => s') l (lstate st) ->
  checkingGrads st' = checkingGrads st ->
  saveBwdActs st' = saveBwdActs st -> numFailures st' = numFailures st ->
  numTests st' = numTests st -> baseErr st' = baseErr st ->
  trace st' = trace st ++ evs -> forallb isForwardEvent evs = true ->
  forwardOnly st st'.
Proof.
  intros Hs Hk Hl A1 A2 A3 A4 A5 Ht He.
  split; [|repeat split; try assumption; eauto].
  rewrite Hl. apply Forall2_same_length_lookup. split.
  - rewrite length_alter. reflexivity.
  - intros i x y Hx Hy. rewrite list_lookup_alter in Hy.
    destruct (decide (l = i)) as [<-|].
    + rewrite Hs in Hx, Hy. simpl in Hy. congruence.
    + rewrite Hx in Hy. injection Hy as <-. apply fwdKeeps_refl.
Qed.

Lemma forwardOnly_count (l : nat) (s : LayerState F) (z : Z)
  (st : GraphState F) :
  lstate st !! l = Some s ->
  forwardOnly st (upd l (fun _ => set_rcvdFInputs z s) st).
Proof.
  intros Hs.
  apply (forwardOnly_alter l s (set_rcvdFInputs z s) st _ [] Hs);
    try reflexivity.
  - repeat split.
  - simpl. rewrite app_nil_r. reflexivity.
Qed.

Lemma forwardOnly_fprop (l : nat) (L : Layer F) (v : list (Matrix F))
  (st st' : GraphState F) :
  Layer__fprop l L v st = Ok st' -> forwardOnly st st'.
Proof.
  intros Hr.
  destruct (Layer__fprop_spec _ _ _ _ _ Hr)
    as (s & s' & _ & Hs & (_ & _ & Hg & Hw & Hb) & Hl & _ & _
        & (_ & G2 & G3 & G4 & G5 & G6)).
  unfold Layer__fprop, stateAt in Hr. invO. subst st'.
  destruct (kind L) eqn:Hk;
    (eapply (forwardOnly_alter l s s' st _ _ Hs);
     [repeat split; assumption|exact Hl|assumption..|
      simpl; rewrite <- ?app_assoc; reflexivity|reflexivity]).
Qed.

Lemma forwardOnly_reset (d : Data F) (st : GraphState F) :
  forwardOnly st (LayerGraph_reset (LayerGraph_setData d st)).
Proof.
  split; [|repeat split].
  - unfold LayerGraph_reset, LayerGraph_setData. simpl.
    apply Forall2_same_length_lookup. split; [rewrite length_map; reflexivity|].
    intros i s s' Hs Hs'.
    change (map Layer_reset (lstate st)) with (Layer_reset <$> lstate st)
      in Hs'.
    rewrite list_lookup_fmap, Hs in Hs'. injection Hs' as <-. repeat split.
  - exists []. simpl. rewrite app_nil_r. split; reflexivity.
Qed.

Variable g : LayerGraph F.

Lemma LayerGraph_fprop_keeps (fuel : nat) (d : Data F)
  (st st' : GraphState F) :
  LayerGraph_fprop g fuel d st = Ok st' ->
  data st' = Some d /\
  length (lstate st') = length (lstate st) /\
  (forall l s s', lstate st !! l = Some s -> lstate st' !! l = Some s' ->
     getActGrads s' = getActGrads s /\ weights s' = weights s /\
     biases s' = biases s) /\
  checkingGrads st' = checkingGrads st /\
  saveBwdActs st' = saveBwdActs st /\ numFailures st' = numFailures st /\
  numTests st' = numTests st /\ baseErr st' = baseErr st /\
  exists evs, trace st' = trace st ++ evs /\
              forallb isForwardEvent evs = true.
Proof.
  unfold LayerGraph_fprop. intros Hrun.
  set (R := fun a b : GraphState F => forwardOnly a b /\ data b = data a).
  assert (HR : R (LayerGraph_reset (LayerGraph_setData d st)) st').
  { apply (forEach_rel R) with (4 := Hrun).
    - intros t. split; [apply forwardOnly_refl|reflexivity].
    - intros t1 t2 t3 [A1 A2] [B1 B2].
      split; [eapply forwardOnly_trans; eassumption|congruence].
    - intros i t t' Hb. invO.
      apply (DataLayer_fprop_rel g R) with (5 := Hb).
      + intros t0. split; [apply forwardOnly_refl|reflexivity].
      + intros t1 t2 t3 [A1 A2] [B1 B2].
        split; [eapply forwardOnly_trans; eassumption|congruence].
      + intros l s z t0 Hs. split; [apply forwardOnly_count; exact Hs|].
        reflexivity.
      + intros l L v t0 t0' Hf. split; [eapply forwardOnly_fprop; exact Hf|].
        destruct (Layer__fprop_spec _ _ _ _ _ Hf)
          as (_ & _ & _ & _ & _ & _ & _ & _ & (G1 & _)). exact G1. }
  destruct HR as [Hfo Hd].
  pose proof (forwardOnly_trans _ _ _ (forwardOnly_reset d st) Hfo)
    as (Hl & A1 & A2 & A3 & A4 & A5 & Hev).
  split; [rewrite Hd; reflexivity|].
  split; [symmetry; eapply Forall2_length; exact Hl|].
  split; [|tauto].
  intros l s s' Hs Hs'.
  rewrite Forall2_lookup in Hl. specialize (Hl l). rewrite Hs, Hs' in Hl.
  inversion Hl; subst. assumption.
Qed.

End ForwardOnly.


(** ** The steps of a backward pass *)

Section BackwardSteps.
Context {F : Type} `{FloatOps F} `{Kernels F}.
Variable g : LayerGraph F.

(** [Layer::bprop()] and its overrides written out. *)
Lemma Layer_bprop_eq (fuel : nat) (l : nat) (st : GraphState F) :
  Layer_bprop g fuel l st
  = do L <- layerAt g l;
    match kind L with
    | DataLayer _ => Ok st
    | LogregCost coeff =>
        match fuel with
        | O => OutOfFuel
        | S fuel' => LogregCost_bprop (Layer_bprop g fuel') l L coeff st
        end
    | _ =>
        do s <- stateAt l st;
        let st1 := upd l (fun _ => set_rcvdBInputs (getRcvdBInputs s + 1) s)
                       st in
        if getRcvdBInputs s + 1 =? numGradProducersNext L then
          match fuel with
          | O => OutOfFuel
          | S fuel' => Layer_bprop_v g (Layer_bprop g fuel') l L st1
          end
        else Ok st1
    end.
Proof.
  destruct fuel; simpl; unfold layerAt; destruct (layers g !! l) as [L|];
    simpl; try reflexivity; destruct (kind L); reflexivity.
Qed.

Lemma bwdWrite_refl (s : LayerState F) : bwdWrite s s.
Proof. repeat split. Qed.

(** A relation between states that holds across each primitive step of
    the backward computations holds across [bprop()]: the steps are a
    call that only counts, a call that counts and starts the layer's
    [_bprop], a write into the state of one layer that keeps counters,
    activations and weight matrices, a kernel launch, and a gradient
    that a layer of the graph writes into one of its predecessors. *)
Section StepRelation.
Variable R : GraphState F -> GraphState F -> Prop.
Hypothesis R_refl : forall st, R st st.
Hypothesis R_trans : forall st1 st2 st3, R st1 st2 -> R st2 st3 -> R st1 st3.
Hypothesis R_wait : forall l L s st,
  layers g !! l = Some L -> lstate st !! l = Some s ->
  isData (kind L) = false -> isCost (kind L) = false ->
  getRcvdBInputs s + 1 <> numGradProducersNext L ->
  R st (upd l (fun _ => set_rcvdBInputs (getRcvdBInputs s + 1) s) st).
Hypothesis R_fire : forall l L s st,
  layers g !! l = Some L -> lstate st !! l = Some s ->
  isData (kind L) = false -> isCost (kind L) = false ->
  getRcvdBInputs s + 1 = numGradProducersNext L ->
  R st (log (EvBprop l (getActGrads s))
            (upd l (fun _ => set_rcvdBInputs (getRcvdBInputs s + 1) s) st)).
Hypothesis R_write : forall l s s' st,
  lstate st !! l = Some s -> bwdWrite s s' ->
  R st (upd l (fun _ => s') st).
Hypothesis R_launch : forall l k st, R st (log (EvLaunch l k) st).
Hypothesis R_grad : forall l L p c st,
  layers g !! l = Some L -> In p (getPrev L) ->
  gradTarget (layers g) L p = true ->
  R st (writeActGrads l p c st).

Lemma R_upd (l : nat) (f : LayerState F -> LayerState F) (st : GraphState F) :
  (forall s, lstate st !! l = Some s -> bwdWrite s (f s)) ->
  R st (upd l f st).
Proof.
  intros Hf. destruct (lstate st !! l) as [s|] eqn:Hs.
  - rewrite (upd_at l f s st Hs). apply (R_write l s (f s) st Hs). auto.
  - replace (upd l f st) with st; [apply R_refl|].
    unfold upd, set_lstate. destruct st; simpl in *. f_equal.
    apply list_eq. intros i. rewrite list_lookup_alter.
    destruct (decide (l = i)) as [<-|]; [rewrite Hs|]; reflexivity.
Qed.

Lemma gradTarget_prev (L Lp : Layer F) (p : nat) :
  layers g !! p = Some Lp -> isPropagateGrad Lp = true ->
  gradTarget (layers g) L p = true.
Proof.
  intros HLp Hp. unfold gradTarget. rewrite HLp, Hp. apply orb_true_r.
Qed.

Lemma lookup_In {A : Type} (xs : list A) (i : nat) (x : A) :
  xs !! i = Some x -> In x xs.
Proof. intros Hx. apply list_elem_of_In, list_elem_of_lookup. eauto. Qed.

Lemma R_truncActGrads (l : nat) (st : GraphState F) :
  R st (Layer_truncActGrads l st).
Proof.
  unfold Layer_truncActGrads. destruct (saveBwdActs st); [apply R_refl|].
  apply R_upd. intros s _. repeat split.
Qed.

Lemma R_forEach {A : Type} (body : A -> GraphState F -> Run F)
  (xs : list A) :
  (forall x st st', body x st = Ok st' -> R st st') ->
  forall st st', forEach body xs st = Ok st' -> R st st'.
Proof.
  intros Hb. induction xs as [|x xs IH]; intros st st' Hrun; simpl in Hrun.
  - injection Hrun as <-. apply R_refl.
  - invO. eapply R_trans; [eapply Hb; exact Ha|apply IH; exact Hrun].
Qed.
Lemma staticW_insert (ws : list (Weights F)) (i : nat) (w w' : Weights F) :
  ws !! i = Some w -> staticW w' = staticW w ->
  staticW <$> <[i := w']> ws = staticW <$> ws.
Proof.
  intros Hi Hw. rewrite list_fmap_insert, Hw. apply list_insert_id.
  rewrite list_lookup_fmap, Hi. reflexivity.
Qed.

Lemma staticW_alter_grads (ws : list (Weights F)) (i : nat) (m : Matrix F) :
  staticW <$> alter (set_grads m) i ws = staticW <$> ws.
Proof.
  apply list_eq. intros j. rewrite !list_lookup_fmap, list_lookup_alter.
  destruct (decide (i = j)) as [<-|]; [|reflexivity].
  destruct (ws !! i); reflexivity.
Qed.

Lemma writeActGrads_weights (l p : nat) (c : Matrix F) (st : GraphState F)
  (j : nat) (s s1 : LayerState F) :
  lstate st !! j = Some s -> lstate (writeActGrads l p c st) !! j = Some s1 ->
  weights s1 = weights s.
Proof.
  unfold writeActGrads. simpl. rewrite list_lookup_alter. intros Hs.
  destruct (decide (p = j)) as [<-|]; rewrite Hs; simpl; intros [= <-];
    reflexivity.
Qed.

Lemma R_bpropInput (l : nat) (L : Layer F) (i : nat) (st : GraphState F) r :
  layers g !! l = Some L ->
  FCLayer_bpropInput g l L i st = Ok r -> R st r.2.
Proof.
  unfold FCLayer_bpropInput, layerAt, stateAt. intros HL Hrun. invO.
  subst r. cbn [snd].
  rename a into p, a0 into Lp, a1 into s, a2 into w.
  set (st1 := if isPropagateGrad Lp
              then writeActGrads l p (rightMult (getActGrads s)
                                        (getTranspose (getW w))) st
              else st) in *.
  assert (Hp : In p (getPrev L)) by (eapply lookup_In; eassumption).
  assert (H1 : R st st1).
  { unfold st1. destruct (isPropagateGrad Lp) eqn:Hpg; [|apply R_refl].
    apply (R_grad l L p _ st HL Hp). eapply gradTarget_prev; eassumption. }
  eapply R_trans; [exact H1|]. apply R_upd. intros s1 Hs1.
  assert (Hw : weights s1 = weights s).
  { unfold st1 in Hs1. destruct (isPropagateGrad Lp).
    - eapply writeActGrads_weights; eassumption.
    - congruence. }
  repeat split. cbn [weights set_weights]. rewrite Hw.
  eapply staticW_insert; [eassumption|reflexivity].
Qed.

Section Kinds.
Variable bprop : nat -> GraphState F -> Run F.
Hypothesis R_bprop : forall p st st', bprop p st = Ok st' -> R st st'.

Lemma R_FCLayer (l : nat) (L : Layer F) (neuron : string)
  (st st' : GraphState F) :
  layers g !! l = Some L ->
  FCLayer__bprop g bprop l L neuron st = Ok st' -> R st st'.
Proof.
  unfold FCLayer__bprop, stateAt. intros HL Hrun. invO. subst st'.
  eapply R_trans; [|apply R_truncActGrads].
  eapply R_trans; [|eapply R_forEach; [|exact Ha0]].
  - apply R_upd. intros s _. repeat split.
  - intros i t t' Hb. cbv beta in Hb. invO.
    match goal with
    | Hi : FCLayer_bpropInput _ _ _ _ _ = Ok _ |- _ =>
        eapply R_trans; [eapply R_bpropInput; [exact HL|exact Hi]|]
    end.
    eapply R_bprop. exact Hb.
Qed.

Lemma R_weightGrads (l : nat) (c : ConvParams) (prevActs v : Matrix F)
  (st : GraphState F) :
  R st (ConvLayer_weightGrads l c prevActs v st).
Proof.
  unfold ConvLayer_weightGrads.
  destruct ((0 <? partialSum c) && (partialSum c <? modules c));
    (eapply R_trans; [|apply R_launch]);
    apply R_upd; intros s _; repeat split;
    cbn [weights set_weights]; apply staticW_alter_grads.
Qed.

Lemma R_ConvLayer (l : nat) (L : Layer F) (c : ConvParams) (neuron : string)
  (st st' : GraphState F) :
  layers g !! l = Some L ->
  ConvLayer__bprop g bprop l L c neuron st = Ok st' -> R st st'.
Proof.
  unfold ConvLayer__bprop, layerAt, stateAt. intros HL Hrun. invO.
  assert (Hp : In a0 (getPrev L)) by (eapply lookup_In; eassumption).
  eapply R_trans; [|eapply R_bprop; exact Hrun].
  eapply R_trans; [|apply R_truncActGrads].
  eapply R_trans; [|apply R_weightGrads].
  eapply R_trans;
    [|destruct (isPropagateGrad a1) eqn:Hpg;
      [apply (R_grad l L a0 _ _ HL Hp); eapply gradTarget_prev; eassumption
      |apply R_refl]].
  apply R_upd. intros s _. repeat split.
Qed.

Lemma R_SoftmaxLayer (l : nat) (L : Layer F) (st st' : GraphState F) :
  layers g !! l = Some L ->
  SoftmaxLayer__bprop g bprop l L st = Ok st' -> R st st'.
Proof.
  unfold SoftmaxLayer__bprop, layerAt, stateAt. intros HL Hrun. invO.
  - assert (Hp : In a (getPrev L)) by (eapply lookup_In; eassumption).
    eapply R_trans; [|eapply R_bprop; exact Hrun].
    eapply R_trans; [|apply R_truncActGrads].
    eapply R_trans;
      [|apply (R_grad l L a _ _ HL Hp); eapply gradTarget_prev; eassumption].
    apply R_launch.
  - subst st'. apply R_refl.
Qed.

Lemma R_PoolLayer (l : nat) (L : Layer F) (pp : PoolParams)
  (st st' : GraphState F) :
  layers g !! l = Some L ->
  PoolLayer__bprop g bprop l L pp st = Ok st' -> R st st'.
Proof.
  unfold PoolLayer__bprop, layerAt, stateAt. intros HL Hrun. invO.
  - assert (Hp : In a (getPrev L)) by (eapply lookup_In; eassumption).
    assert (Hg : gradTarget (layers g) L a = true)
      by (eapply gradTarget_prev; eassumption).
    eapply R_trans; [|eapply R_bprop; exact Hrun].
    eapply R_trans; [|apply R_truncActGrads].
    destruct (String.eqb (pool pp) "max");
      [apply (R_grad l L a _ _ HL Hp Hg)|].
    destruct (String.eqb (pool pp) "avg");
      [apply (R_grad l L a _ _ HL Hp Hg)|].
    apply R_refl.
  - subst st'. apply R_refl.
Qed.

Lemma R_LogregCost (l : nat) (L : Layer F) (coeff : F)
  (st st' : GraphState F) :
  layers g !! l = Some L -> isCost (kind L) = true ->
  LogregCost_bprop bprop l L coeff st = Ok st' -> R st st'.
Proof.
  unfold LogregCost_bprop, stateAt. intros HL Hk Hrun. invO.
  - eapply R_trans; [|eapply R_bprop; exact Hrun]. subst a.
    eapply R_trans;
      [|apply (R_grad l L a2 _ _ HL);
        [eapply lookup_In; eassumption
        |unfold gradTarget; rewrite Hk; reflexivity]].
    apply R_launch.
  - subst a. eapply R_bprop. exact Hrun.
Qed.
End Kinds.

Lemma Layer_bprop_steps (fuel : nat) :
  forall l st st', Layer_bprop g fuel l st = Ok st' -> R st st'.
Proof.
  induction fuel as [|fuel IH]; intros l st st' Hrun;
    rewrite Layer_bprop_eq in Hrun; unfold layerAt, stateAt in Hrun;
    apply bindO_Ok in Hrun; destruct Hrun as (L & HL & Hrun);
    apply deref_Ok in HL.
  - destruct (kind L) eqn:Hk; try discriminate Hrun;
      try (injection Hrun as <-; apply R_refl);
      invO; subst st';
      (eapply R_wait; [exact HL|eassumption|rewrite Hk; reflexivity..|];
       apply Z.eqb_neq; assumption).
  - destruct (kind L) eqn:Hk;
      try (injection Hrun as <-; apply R_refl);
      try (eapply R_LogregCost;
           [apply IH|exact HL|rewrite Hk; reflexivity|exact Hrun]);
      invO;
      try (subst st';
           eapply R_wait; [exact HL|eassumption|rewrite Hk; reflexivity..|];
           apply Z.eqb_neq; assumption);
      unfold Layer_bprop_v, stateAt in Hrun; rewrite Hk in Hrun; invO;
      (match goal with
       | Hs1 : lstate (upd l _ st) !! l = Some ?s1, Hs : lstate st !! l = Some ?s
         |- _ =>
           rewrite (upd_lookup_eq l _ st s Hs) in Hs1; injection Hs1 as <-
       end);
      (eapply R_trans;
       [eapply R_fire; [exact HL|eassumption|rewrite Hk; reflexivity..|];
        apply Z.eqb_eq; assumption|]).
    + eapply R_FCLayer; [apply IH|exact HL|exact Hrun].
    + eapply R_ConvLayer; [apply IH|exact HL|exact Hrun].
    + eapply R_PoolLayer; [apply IH|exact HL|exact Hrun].
    + eapply R_SoftmaxLayer; [apply IH|exact HL|exact Hrun].
Qed.
End StepRelation.

(** The same for a relation that holds across every write into the
    state of one layer and every entry in the log for a gradient written
    or a kernel launched, whoever writes. *)
Section StepRelationLog.
Variable R : GraphState F -> GraphState F -> Prop.
Hypothesis R_refl : forall st, R st st.
Hypothesis R_trans : forall st1 st2 st3, R st1 st2 -> R st2 st3 -> R st1 st3.
Hypothesis R_wait : forall l L s st,
  layers g !! l = Some L -> lstate st !! l = Some s ->
  isData (kind L) = false -> isCost (kind L) = false ->
  getRcvdBInputs s + 1 <> numGradProducersNext L ->
  R st (upd l (fun _ => set_rcvdBInputs (getRcvdBInputs s + 1) s) st).
Hypothesis R_fire : forall l L s st,
  layers g !! l = Some L -> lstate st !! l = Some s ->
  isData (kind L) = false -> isCost (kind L) = false ->
  getRcvdBInputs s + 1 = numGradProducersNext L ->
  R st (log (EvBprop l (getActGrads s))
            (upd l (fun _ => set_rcvdBInputs (getRcvdBInputs s + 1) s) st)).
Hypothesis R_write : forall l s s' st,
  lstate st !! l = Some s -> bwdWrite s s' ->
  R st (upd l (fun _ => s') st).
Hypothesis R_log : forall e st, isGradEvent e = true -> R st (log e st).

Lemma R_writeActGrads (l p : nat) (c : Matrix F) (st : GraphState F) :
  R st (writeActGrads l p c st).
Proof.
  unfold writeActGrads. eapply R_trans; [|apply R_log; reflexivity].
  apply (R_upd R R_refl R_write). intros s _. repeat split.
Qed.

Lemma Layer_bprop_rel (fuel : nat) :
  forall l st st', Layer_bprop g fuel l st = Ok st' -> R st st'.
Proof.
  apply (Layer_bprop_steps R R_refl R_trans R_wait R_fire R_write).
  - intros l k st. apply R_log. reflexivity.
  - intros l L p c st _ _ _. apply R_writeActGrads.
Qed.

Lemma LayerGraph_bprop_rel (fuel : nat) (st st' : GraphState F) :
  LayerGraph_bprop g fuel st = Ok st' ->
  exists st1, R st st1 /\ st' = LayerGraph_reset st1.
Proof.
  unfold LayerGraph_bprop. intros Hrun. invO. subst st'.
  exists a. split; [|reflexivity].
  eapply (R_forEach R R_refl R_trans); [|exact Ha]. apply Layer_bprop_rel.
Qed.
End StepRelationLog.
End BackwardSteps.

(** ** What a backward pass never does *)

Section BackwardFrameFacts.
Context {F : Type} `{FloatOps F} `{Kernels F}.

Lemma bwdKeeps_refl (s : LayerState F) : bwdKeeps s s.
Proof. repeat split. Qed.

Lemma bwdFrame_refl (st : GraphState F) : bwdFrame st st.
Proof.
  split; [|repeat split].
  apply Forall2_same_length_lookup. split; [reflexivity|].
  intros i s s' Hs Hs'. rewrite Hs in Hs'. injection Hs' as <-.
  apply bwdKeeps_refl.
Qed.

Lemma bwdFrame_trans (st1 st2 st3 : GraphState F) :
  bwdFrame st1 st2 -> bwdFrame st2 st3 -> bwdFrame st1 st3.
Proof.
  intros [A GA] [B GB]. split.
  - eapply Forall2_trans; [|exact A|exact B].
    intros x y z (X1 & X2 & X3 & X4 & X5) (Y1 & Y2 & Y3 & Y4 & Y5).
    repeat split; congruence.
  - destruct GA as (A1 & A2 & A3 & A4 & A5 & A6).
    destruct GB as (B1 & B2 & B3 & B4 & B5 & B6).
    repeat split; congruence.
Qed.

Lemma bwdFrame_alter (l : nat) (s s' : LayerState F) (st : GraphState F) :
  lstate st !! l = Some s -> bwdKeeps s s' ->
  bwdFrame st (upd l (fun _ => s') st).
Proof.
  intros Hs Hk. split; [|repeat split].
  simpl. apply Forall2_same_length_lookup. split.
  - rewrite length_alter. reflexivity.
  - intros i x y Hx Hy. rewrite list_lookup_alter in Hy.
    destruct (decide (l = i)) as [<-|].
    + rewrite Hs in Hx, Hy. simpl in Hy. congruence.
    + rewrite Hx in Hy. injection Hy as <-. apply bwdKeeps_refl.
Qed.

Lemma bwdFrame_log (e : Event F) (st : GraphState F) : bwdFrame st (log e st).
Proof.
  split; [|repeat split]. simpl.
  apply Forall2_same_length_lookup. split; [reflexivity|].
  intros i s s' Hs Hs'. rewrite Hs in Hs'. injection Hs' as <-.
  apply bwdKeeps_refl.
Qed.

Variable g : LayerGraph F.

Lemma Layer_bprop_frame (fuel : nat) (l : nat) (st st' : GraphState F) :
  Layer_bprop g fuel l st = Ok st' -> bwdFrame st st'.
Proof.
  apply (Layer_bprop_rel g bwdFrame).
  - apply bwdFrame_refl.
  - apply bwdFrame_trans.
  - intros l0 L s t HL Hs _ _ _. apply (bwdFrame_alter l0 s _ t Hs).
    repeat split.
  - intros l0 L s t HL Hs _ _ _.
    eapply bwdFrame_trans; [|apply bwdFrame_log].
    apply (bwdFrame_alter l0 s _ t Hs). repeat split.
  - intros l0 s s' t Hs (W1 & W2 & W3 & W4 & W5 & W6).
    apply (bwdFrame_alter l0 s _ t Hs). repeat split; assumption.
  - intros e t _. apply bwdFrame_log.
Qed.

Lemma LayerGraph_bprop_keeps (fuel : nat) (st st' : GraphState F) :
  LayerGraph_bprop g fuel st = Ok st' ->
  length (lstate st') = length (lstate st) /\
  (forall l s s', lstate st !! l = Some s -> lstate st' !! l = Some s' ->
     getActs s' = getActs s /\ err s' = err s /\
     staticW <$> weights s' = staticW <$> weights s /\
     staticW (biases s') = staticW (biases s) /\
     getRcvdFInputs s' = 0 /\ getRcvdBInputs s' = 0) /\
  data st' = data st /\ checkingGrads st' = checkingGrads st /\
  saveBwdActs st' = saveBwdActs st /\ numFailures st' = numFailures st /\
  numTests st' = numTests st /\ baseErr st' = baseErr st.
Proof.
  unfold LayerGraph_bprop. intros Hrun. invO. subst st'.
  assert (Hf : bwdFrame st a).
  { apply (R_forEach bwdFrame bwdFrame_refl bwdFrame_trans
             (Layer_bprop g fuel) (costs g)); [|exact Ha].
    intros x t t'. apply Layer_bprop_frame. }
  destruct Hf as [Hl Hg].
  split; [simpl; rewrite length_map; symmetry; eapply Forall2_length;
          exact Hl|].
  split; [|exact Hg].
  intros l s s' Hs Hs'. simpl in Hs'.
  change (map Layer_reset (lstate a)) with (Layer_reset <$> lstate a) in Hs'.
  rewrite list_lookup_fmap in Hs'.
  rewrite Forall2_lookup in Hl. specialize (Hl l). rewrite Hs in Hl.
  inversion Hl as [x y (K1 & K2 & K3 & K4 & K5) Hx Hy|]; subst.
  rewrite <- Hy in Hs'. simpl in Hs'. injection Hs' as <-.
  simpl. repeat split; assumption.
Qed.

End BackwardFrameFacts.


Section BackwardOnce.
Context {F : Type} `{FloatOps F} `{Kernels F}.
Variable g : LayerGraph F.
Variable n0 : nat.
Variable tr0 : list (Event F).

Lemma bpropped_app (tr tr' : list (Event F)) :
  bpropped (tr ++ tr') = bpropped tr ++ bpropped tr'.
Proof. unfold bpropped. apply omap_app. Qed.

Lemma BInv_log (e : Event F) (st : GraphState F) :
  isBprop e = false -> BInv g n0 tr0 st -> BInv g n0 tr0 (log e st).
Proof.
  intros He (Hn & Ht & Hc). unfold BInv. simpl.
  rewrite length_app, take_app_le, drop_app_le by lia.
  split; [lia|]. split; [exact Ht|].
  rewrite bpropped_app.
  replace (bpropped [e]) with (@nil nat) by (destruct e; try discriminate He; reflexivity).
  rewrite app_nil_r. exact Hc.
Qed.

(** A write into one layer that keeps or raises its backward counter. *)
Lemma BInv_alter (l : nat) (s s' : LayerState F) (st : GraphState F) :
  lstate st !! l = Some s -> getRcvdBInputs s <= getRcvdBInputs s' ->
  BInv g n0 tr0 st -> BInv g n0 tr0 (upd l (fun _ => s') st).
Proof.
  intros Hs Hle (Hn & Ht & Hc). unfold BInv. simpl.
  split; [exact Hn|]. split; [exact Ht|].
  intros j. destruct (Hc j) as [Hc1 Hc2]. split; [exact Hc1|].
  intros H1. destruct (Hc2 H1) as (L & sj & HL & Hsj & HN).
  exists L. rewrite list_lookup_alter.
  destruct (decide (l = j)) as [<-|].
  - rewrite Hs in Hsj. injection Hsj as <-. rewrite Hs. simpl.
    exists s'. repeat split; [exact HL|lia].
  - exists sj. repeat split; assumption.
Qed.

Lemma BInv_fire (l : nat) (L : Layer F) (s : LayerState F)
  (st : GraphState F) :
  layers g !! l = Some L -> lstate st !! l = Some s ->
  getRcvdBInputs s + 1 = numGradProducersNext L ->
  BInv g n0 tr0 st ->
  BInv g n0 tr0
       (log (EvBprop l (getActGrads s))
            (upd l (fun _ => set_rcvdBInputs (getRcvdBInputs s + 1) s) st)).
Proof.
  intros HL Hs HN (Hn & Ht & Hc). unfold BInv. simpl.
  rewrite length_app, take_app_le, drop_app_le by lia.
  split; [lia|]. split; [exact Ht|].
  rewrite bpropped_app. simpl. intros j. rewrite count_occ_app. simpl.
  destruct (Hc j) as [Hc1 Hc2].
  destruct (Nat.eq_dec l j) as [<-|Hne].
  - assert (Hzero : count_occ Nat.eq_dec (bpropped (drop n0 (trace st))) l
                    = 0%nat).
    { destruct (count_occ Nat.eq_dec (bpropped (drop n0 (trace st))) l)
        as [|[|k]] eqn:E; [reflexivity| |lia].
      destruct (Hc2 eq_refl) as (L' & s' & HL' & Hs' & HN').
      rewrite HL in HL'. rewrite Hs in Hs'.
      injection HL' as <-. injection Hs' as <-. lia. }
    rewrite Hzero. split; [lia|]. intros _.
    exists L, (set_rcvdBInputs (getRcvdBInputs s + 1) s).
    split; [exact HL|]. split; [|simpl; lia].
    rewrite list_lookup_alter. destruct (decide (l = l)); [|congruence].
    rewrite Hs. reflexivity.
  - rewrite Nat.add_0_r. split; [exact Hc1|]. intros H1.
    destruct (Hc2 H1) as (L' & s' & HL' & Hs' & HN').
    exists L', s'. split; [exact HL'|]. split; [|exact HN'].
    rewrite list_lookup_alter. destruct (decide (l = j)); [congruence|].
    exact Hs'.
Qed.

Lemma Layer_bprop_once (fuel : nat) (l : nat) (st st' : GraphState F) :
  Layer_bprop g fuel l st = Ok st' ->
  BInv g n0 tr0 st -> BInv g n0 tr0 st'.
Proof.
  apply (Layer_bprop_rel g (fun a b => BInv g n0 tr0 a -> BInv g n0 tr0 b)).
  - auto.
  - auto.
  - intros l0 L s t HL Hs _ _ _. apply (BInv_alter l0 s _ t Hs). simpl. lia.
  - intros l0 L s t HL Hs _ _ HN. apply (BInv_fire l0 L s t HL Hs HN).
  - intros l0 s s' t Hs (_ & W2 & _). apply (BInv_alter l0 s s' t Hs). lia.
  - intros e t He. apply BInv_log. destruct e; try discriminate He; reflexivity.
Qed.

Lemma BInv_start (st : GraphState F) :
  n0 = length (trace st) -> tr0 = trace st -> BInv g n0 tr0 st.
Proof.
  intros -> ->. unfold BInv. rewrite take_ge, drop_ge by lia.
  split; [lia|]. split; [reflexivity|]. intros l. simpl. split; [lia|].
  discriminate.
Qed.
End BackwardOnce.

Section BackwardOnceTheorem.
Context {F : Type} `{FloatOps F} `{Kernels F}.
Variable g : LayerGraph F.

End BackwardOnceTheorem.


(** ** The backward recursion ends *)

Section BackwardFuel.
Context {F : Type} `{FloatOps F} `{Kernels F}.
Variable g : LayerGraph F.

Lemma FCLayer_incScales_fuel (w : Weights F) (st : GraphState F) :
  FCLayer_incScales w st <> OutOfFuel.
Proof.
  unfold FCLayer_incScales, LayerGraph_getNumCases.
  destruct (LayerGraph_isCheckingGrads st); [discriminate|].
  destruct (data st); discriminate.
Qed.

Lemma FCLayer_bpropInput_fuel (l : nat) (L : Layer F) (i : nat)
  (st : GraphState F) :
  FCLayer_bpropInput g l L i st <> OutOfFuel.
Proof.
  unfold FCLayer_bpropInput, layerAt, stateAt.
  repeat first
    [ apply deref_fuel
    | apply FCLayer_incScales_fuel
    | discriminate
    | apply bindO_fuel; [|intros ? _] ].
Qed.

Lemma FCLayer_bpropInput_prev (l : nat) (L : Layer F) (i : nat)
  (st : GraphState F) r :
  FCLayer_bpropInput g l L i st = Ok r -> In r.1 (getPrev L).
Proof.
  unfold FCLayer_bpropInput. intros Hrun.
  apply bindO_Ok in Hrun. destruct Hrun as (p & Hp & Hrun).
  apply deref_Ok in Hp. invO. subst r. simpl.
  apply list_elem_of_In, list_elem_of_lookup. eauto.
Qed.

Section Kinds.
Variable bprop : nat -> GraphState F -> Run F.
Variable L : Layer F.
Hypothesis bprop_fuel : forall p st,
  In p (getPrev L) -> bprop p st <> OutOfFuel.

Lemma lookup_prev (i p : nat) : getPrev L !! i = Some p -> In p (getPrev L).
Proof. intros Hp. apply list_elem_of_In, list_elem_of_lookup. eauto. Qed.

Lemma FCLayer__bprop_fuel (l : nat) (neuron : string) (st : GraphState F) :
  FCLayer__bprop g bprop l L neuron st <> OutOfFuel.
Proof.
  unfold FCLayer__bprop, stateAt.
  apply bindO_fuel; [apply deref_fuel|]. intros s _.
  apply bindO_fuel; [|discriminate].
  apply forEach_fuel. intros i t _.
  apply bindO_fuel; [apply FCLayer_bpropInput_fuel|]. intros r Hr.
  apply bprop_fuel. eapply FCLayer_bpropInput_prev. exact Hr.
Qed.

Lemma ConvLayer__bprop_fuel (l : nat) (c : ConvParams) (neuron : string)
  (st : GraphState F) :
  ConvLayer__bprop g bprop l L c neuron st <> OutOfFuel.
Proof.
  unfold ConvLayer__bprop, layerAt, stateAt.
  apply bindO_fuel; [apply deref_fuel|]. intros s _.
  apply bindO_fuel; [apply deref_fuel|]. intros p Hp. apply deref_Ok in Hp.
  repeat (apply bindO_fuel; [apply deref_fuel|]; intros ? _).
  apply bprop_fuel. eapply lookup_prev. exact Hp.
Qed.

Lemma SoftmaxLayer__bprop_fuel (l : nat) (st : GraphState F) :
  SoftmaxLayer__bprop g bprop l L st <> OutOfFuel.
Proof.
  unfold SoftmaxLayer__bprop, layerAt, stateAt.
  apply bindO_fuel; [apply deref_fuel|]. intros p Hp. apply deref_Ok in Hp.
  apply bindO_fuel; [apply deref_fuel|]. intros Lp _.
  destruct (isPropagateGrad Lp); [|discriminate].
  repeat first
    [ apply bindO_fuel; [first [apply deref_fuel|apply assertO_fuel]|];
      intros ? _ ].
  apply bprop_fuel. eapply lookup_prev. exact Hp.
Qed.

Lemma PoolLayer__bprop_fuel (l : nat) (pp : PoolParams) (st : GraphState F) :
  PoolLayer__bprop g bprop l L pp st <> OutOfFuel.
Proof.
  unfold PoolLayer__bprop, layerAt, stateAt.
  apply bindO_fuel; [apply deref_fuel|]. intros p Hp. apply deref_Ok in Hp.
  apply bindO_fuel; [apply deref_fuel|]. intros Lp _.
  destruct (isPropagateGrad Lp); [|discriminate].
  repeat (apply bindO_fuel; [apply deref_fuel|]; intros ? _).
  apply bprop_fuel. eapply lookup_prev. exact Hp.
Qed.

Lemma LogregCost_bprop_fuel (l : nat) (coeff : F) (st : GraphState F) :
  LogregCost_bprop bprop l L coeff st <> OutOfFuel.
Proof.
  unfold LogregCost_bprop, stateAt, LayerGraph_getNumCases.
  apply bindO_fuel.
  - destruct (negb (feqb coeff (of_int 0))); [|discriminate].
    repeat first
      [ apply bindO_fuel; [first [apply deref_fuel|apply assertO_fuel]|];
        intros ? _ ].
    destruct (data st); simpl; discriminate.
  - intros t _. apply bindO_fuel; [apply deref_fuel|]. intros p Hp.
    apply deref_Ok in Hp. apply bprop_fuel. eapply lookup_prev. exact Hp.
Qed.
End Kinds.

Hypothesis Hwf : wf_graph g.

(** [bprop()] calls into predecessors only, and these have smaller
    indices. *)
Lemma Layer_bprop_fuel (fuel : nat) :
  forall l st, (l < fuel)%nat -> Layer_bprop g fuel l st <> OutOfFuel.
Proof.
  induction fuel as [|fuel IH]; intros l st Hf; [lia|].
  rewrite Layer_bprop_eq. unfold layerAt, stateAt.
  apply bindO_fuel; [apply deref_fuel|]. intros L HL. apply deref_Ok in HL.
  assert (Hprev : forall p t, In p (getPrev L) ->
                              Layer_bprop g fuel p t <> OutOfFuel).
  { intros p t Hp. apply IH.
    pose proof (wf_prev g Hwf l L HL) as Hlt.
    rewrite List.Forall_forall in Hlt. specialize (Hlt p Hp). lia. }
  destruct (kind L) eqn:Hk; try discriminate;
    try (apply LogregCost_bprop_fuel; exact Hprev);
    (apply bindO_fuel; [apply deref_fuel|]; intros s _; cbv zeta;
     match goal with
     | |- (if ?b then _ else _) <> _ => destruct b; [|discriminate]
     end;
     unfold Layer_bprop_v, stateAt;
     apply bindO_fuel; [apply deref_fuel|]; intros s1 _; rewrite Hk).
  - apply FCLayer__bprop_fuel. exact Hprev.
  - apply ConvLayer__bprop_fuel. exact Hprev.
  - apply PoolLayer__bprop_fuel. exact Hprev.
  - apply SoftmaxLayer__bprop_fuel. exact Hprev.
Qed.

Lemma costs_lt (c : nat) : In c (costs g) -> (c < length (layers g))%nat.
Proof.
  rewrite (wf_costs g Hwf). intros Hin. apply indicesOf_In in Hin.
  destruct Hin as (i & L & -> & Hi & _). apply lookup_lt_Some in Hi. lia.
Qed.

Lemma LayerGraph_bprop_fuel (fuel : nat) (st : GraphState F) :
  (length (layers g) <= fuel)%nat ->
  LayerGraph_bprop g fuel st <> OutOfFuel.
Proof.
  intros Hf. unfold LayerGraph_bprop.
  apply bindO_fuel; [|discriminate].
  apply forEach_fuel. intros c t Hc. apply Layer_bprop_fuel.
  pose proof (costs_lt c Hc). lia.
Qed.
End BackwardFuel.

(** ** The bookkeeping of the gradient check *)

Section CheckReports.
Context {F : Type} `{FloatOps F} `{Kernels F}.
Variable g : LayerGraph F.

Lemma reports_app (tr tr' : list (Event F)) :
  reports (tr ++ tr') = reports tr ++ reports tr'.
Proof. unfold reports. apply omap_app. Qed.

Lemma reports_forward (evs : list (Event F)) :
  forallb isForwardEvent evs = true -> reports evs = [].
Proof.
  induction evs as [|e evs IH]; simpl; [reflexivity|].
  intros He. apply andb_true_iff in He. destruct He as [He Hev].
  destruct e; try discriminate He; simpl; auto.
Qed.

Lemma logsForward_refl (st : GraphState F) : logsForward st st.
Proof. exists []. rewrite app_nil_r. split; reflexivity. Qed.

Lemma logsForward_trans (st1 st2 st3 : GraphState F) :
  logsForward st1 st2 -> logsForward st2 st3 -> logsForward st1 st3.
Proof.
  intros (evs & Ht & He) (evs' & Ht' & He').
  exists (evs ++ evs'). rewrite Ht', Ht, app_assoc. split; [reflexivity|].
  rewrite forallb_app, He, He'. reflexivity.
Qed.

Lemma copyFromHost_trace (r : WeightsRef) (M : Matrix F)
  (st st' : GraphState F) :
  copyFromHost r M st = Ok st' -> trace st' = trace st.
Proof.
  unfold copyFromHost. intros Hc. invO. subst st'. destruct r; reflexivity.
Qed.

Lemma LayerGraph_fprop0_logs (fuel : nat) (st st' : GraphState F) :
  LayerGraph_fprop0 g fuel st = Ok st' -> logsForward st st'.
Proof.
  unfold LayerGraph_fprop0. destruct (data st) as [d|]; [|discriminate].
  intros Hrun.
  destruct (LayerGraph_fprop_keeps g fuel d st st' Hrun)
    as (_ & _ & _ & _ & _ & _ & _ & _ & Hev). exact Hev.
Qed.

Lemma checkGradientsW_entry_logs (fuel : nat) (eps : F) (r : WeightsRef)
  (i j : nat) acc acc' :
  checkGradientsW_entry g fuel eps r i j acc = Ok acc' ->
  logsForward acc.2 acc'.2.
Proof.
  unfold checkGradientsW_entry. intros Hrun. invO. subst acc'. cbn [snd].
  match goal with
  | H1 : copyFromHost _ _ acc.2 = Ok ?s1,
    H2 : LayerGraph_fprop0 _ _ ?s1 = Ok ?s2,
    H3 : copyFromHost _ _ ?s2 = Ok ?s3 |- _ =>
      apply copyFromHost_trace in H1; apply copyFromHost_trace in H3;
      apply LayerGraph_fprop0_logs in H2;
      destruct H2 as (evs & Ht & He); exists evs;
      rewrite H3, Ht, H1; split; [reflexivity|exact He]
  end.
Qed.

Lemma checkGradientsW_loop_logs (fuel : nat) (eps : F) (r : WeightsRef)
  (rows cols : nat) acc acc' :
  checkGradientsW_loop g fuel eps r rows cols acc = Ok acc' ->
  logsForward acc.2 acc'.2.
Proof.
  unfold checkGradientsW_loop.
  apply (forEach_inv (fun a => logsForward acc.2 a.2));
    [|apply logsForward_refl].
  intros i a a' _ Ha Hrow.
  revert Hrow. apply (forEach_inv (fun b => logsForward acc.2 b.2));
    [|exact Ha].
  intros j b b' _ Hb Hentry.
  eapply logsForward_trans; [exact Hb|].
  eapply checkGradientsW_entry_logs. exact Hentry.
Qed.

Lemma checkGradientsW_counts (fuel : nat) (name : string) (eps : F)
  (r : WeightsRef) (st : GraphState F) (gc : GradCheck F) :
  LayerGraph_checkGradientsW g fuel name eps r st = Ok gc ->
  numTests (gc_state gc) = numTests st + 1 /\
  numFailures (gc_state gc) = numFailures st + Z.b2z (gc_fail gc) /\
  reports (trace (gc_state gc))
  = reports (trace st) ++ (if gc_fail gc then [(name, true)] else []) /\
  data (gc_state gc) = data st /\
  checkingGrads (gc_state gc) = checkingGrads st /\
  baseErr (gc_state gc) = baseErr st.
Proof.
  unfold LayerGraph_checkGradientsW. intros Hrun. invO. subst gc.
  rename a into w0, a0 into acc.
  pose proof (checkGradientsW_loop_spec g fuel eps r st w0 _ Ha acc
                eq_refl Ha0)
    as (_ & (_ & Hd & Hc & _ & Hnf & Hnt & Hbe) & _).
  pose proof (checkGradientsW_loop_logs _ _ _ _ _ _ _ Ha0)
    as (evs & Ht & He).
  cbn [snd] in Ht. cbn [gc_state gc_fail].
  match goal with
  | |- context [setWeights r ?w acc.2] =>
      pose proof (sameGlobals_setWeights r w acc.2)
        as (G1 & G2 & _ & G4 & G5 & G6);
      assert (G7 : trace (setWeights r w acc.2) = trace acc.2)
        by (destruct r; reflexivity);
      generalize dependent (setWeights r w acc.2)
  end.
  intros t G1 G2 G4 G5 G6 G7.
  match goal with
  | |- context [fgeb ?x ?y] => destruct (fgeb x y)
  end; cbn [orb negb GC_SUPPRESS_PASSES set_counts log trace data
            checkingGrads baseErr numTests numFailures Z.b2z];
    rewrite ?G1, ?G2, ?G4, ?G5, ?G6, ?G7, ?Hd, ?Hc, ?Hnf, ?Hnt, ?Hbe, ?Ht,
      ?reports_app, (reports_forward evs He), ?app_nil_r;
    repeat split; try reflexivity; lia.
Qed.

End CheckReports.

Section CheckRuns.
Context {F : Type} `{FloatOps F} `{Kernels F}.
Variable g : LayerGraph F.

Lemma checkKeeps_refl (s : LayerState F) : checkKeeps s s.
Proof. split; reflexivity. Qed.

Lemma Forall2_checkKeeps_refl (ls : list (LayerState F)) :
  Forall2 checkKeeps ls ls.
Proof.
  apply Forall2_same_length_lookup. split; [reflexivity|].
  intros i s s' Hs Hs'. rewrite Hs in Hs'. injection Hs' as <-.
  apply checkKeeps_refl.
Qed.

Lemma Forall2_checkKeeps_trans (l1 l2 l3 : list (LayerState F)) :
  Forall2 checkKeeps l1 l2 -> Forall2 checkKeeps l2 l3 ->
  Forall2 checkKeeps l1 l3.
Proof.
  intros A B. eapply Forall2_trans; [|exact A|exact B].
  intros x y z [X1 X2] [Y1 Y2]. split; congruence.
Qed.

Lemma GCStep_refl (st : GraphState F) : GCStep 0 st st.
Proof.
  split; [apply Forall2_checkKeeps_refl|]. repeat split; try lia.
  exists []. rewrite app_nil_r. simpl. repeat split; try lia. constructor.
Qed.

Lemma GCStep_trans (a b : Z) (st1 st2 st3 : GraphState F) :
  GCStep a st1 st2 -> GCStep b st2 st3 -> GCStep (a + b) st1 st3.
Proof.
  intros (A0 & A1 & A2 & A3 & A4 & rs & A5 & A6 & A7 & A8)
         (B0 & B1 & B2 & B3 & B4 & rs' & B5 & B6 & B7 & B8).
  split; [eapply Forall2_checkKeeps_trans; eassumption|].
  repeat split; try congruence; try lia.
  exists (rs ++ rs'). rewrite B5, A5, app_assoc, length_app.
  repeat split; try lia. apply Forall_app. split; assumption.
Qed.

Lemma weightsOf_lookup (st : GraphState F) (i : nat) :
  weightsOf st !! i = (fun s => (weights s, biases s)) <$> lstate st !! i.
Proof. unfold weightsOf. apply list_lookup_fmap. Qed.

(** One call of [checkGradientsW]. *)
Lemma checkGradientsW_step (fuel : nat) (name : string) (eps : F)
  (r : WeightsRef) (st : GraphState F) (gc : GradCheck F) :
  LayerGraph_checkGradientsW g fuel name eps r st = Ok gc ->
  GCStep 1 st (gc_state gc).
Proof.
  intros Hrun.
  destruct (checkGradientsW_counts g fuel name eps r st gc Hrun)
    as (Hnt & Hnf & Hrep & Hd & Hc & Hbe).
  destruct (checkGradientsW_spec g fuel name eps r st gc Hrun)
    as (w0 & d & acc & Hw0 & _ & _ & _ & _ & _ & _ & Hws & _).
  split; [|repeat split; try assumption].
  - apply Forall2_same_length_lookup. split.
    + apply (f_equal length) in Hws. unfold weightsOf in Hws.
      rewrite length_alter, !length_fmap in Hws. congruence.
    + intros i s s' Hs Hs'.
      apply (f_equal (fun ws => ws !! i)) in Hws.
      rewrite list_lookup_alter, !weightsOf_lookup, Hs' in Hws.
      rewrite getWeights_weightsOf, weightsOf_lookup in Hw0.
      destruct (decide (refLayer r = i)) as [<-|];
        rewrite Hs in *; simpl in Hws, Hw0.
      * apply deref_Ok in Hw0.
        destruct r; simpl in *; injection Hws as Hws1 Hws2;
          split; rewrite ?Hws1, ?Hws2; try reflexivity.
        -- eapply staticW_insert; [exact Hw0|reflexivity].
        -- injection Hw0 as <-. reflexivity.
      * injection Hws as Hws1 Hws2. split; rewrite ?Hws1, ?Hws2; reflexivity.
  - exists (if gc_fail gc then [(name, true)] else []).
    split; [exact Hrep|]. rewrite Hnf.
    destruct (gc_fail gc); simpl; repeat split; try lia;
      repeat constructor.
Qed.
End CheckRuns.

Section CheckAll.
Context {F : Type} `{FloatOps F} `{Kernels F}.
Variable g : LayerGraph F.

Lemma forEach_GCStep {A : Type} (body : A -> GraphState F -> Run F)
  (xs : list A) :
  (forall x t t', body x t = Ok t' -> GCStep 1 t t') ->
  forall st st', forEach body xs st = Ok st' ->
                 GCStep (Z.of_nat (length xs)) st st'.
Proof.
  intros Hb. induction xs as [|x xs IH]; intros st st' Hrun;
    simpl in Hrun.
  - injection Hrun as <-. apply GCStep_refl.
  - invO. replace (Z.of_nat (length (x :: xs)))
      with (1 + Z.of_nat (length xs)) by (simpl length; lia).
    eapply GCStep_trans; [eapply Hb; exact Ha|apply IH; exact Hrun].
Qed.

Lemma checkGradientsW_state (fuel : nat) (name : string) (eps : F)
  (r : WeightsRef) (st : GraphState F) (gc : GradCheck F) :
  LayerGraph_checkGradientsW g fuel name eps r st = Ok gc ->
  exists s, lstate st !! refLayer r = Some s.
Proof.
  unfold LayerGraph_checkGradientsW. intros Hrun.
  apply bindO_Ok in Hrun. destruct Hrun as (w & Hw & _).
  unfold getWeights, stateAt in Hw. destruct r; simpl; invO; eauto.
Qed.

(** [FCLayer::checkGradients], [ConvLayer::checkGradients] and the empty
    [checkGradients] of the other kinds. *)
Lemma Layer_checkGradients_step (fuel : nat) (l : nat)
  (st st' : GraphState F) :
  Layer_checkGradients g fuel l st = Ok st' ->
  GCStep (checksAt g st l) st st'.
Proof.
  unfold Layer_checkGradients, layerAt, stateAt, checksAt. intros Hrun.
  apply bindO_Ok in Hrun. destruct Hrun as (L & HL & Hrun).
  apply deref_Ok in HL. rewrite HL. unfold checksOf.
  destruct (kind L) eqn:Hk;
    try (injection Hrun as <-; destruct (lstate st !! l);
         apply GCStep_refl).
  - invO. subst st'. rewrite Ha.
    eapply GCStep_trans.
    + replace (Z.of_nat (length (weights a)))
        with (Z.of_nat (length (seq 0 (length (weights a)))))
        by (rewrite length_seq; reflexivity).
      eapply forEach_GCStep; [|exact Ha0].
      intros i t t' Hb. cbv beta in Hb. invO. subst t'.
      eapply checkGradientsW_step. eassumption.
    + eapply checkGradientsW_step. eassumption.
  - invO. subst st'.
    destruct (checkGradientsW_state _ _ _ _ _ _ Ha) as [s Hs].
    simpl in Hs. rewrite Hs.
    change 2 with (1 + 1). eapply GCStep_trans;
      eapply checkGradientsW_step; eassumption.
Qed.

Lemma checksAt_keeps (st t : GraphState F) (l : nat) :
  Forall2 checkKeeps (lstate st) (lstate t) ->
  checksAt g t l = checksAt g st l.
Proof.
  intros Hf. unfold checksAt. destruct (layers g !! l) as [L|]; [|reflexivity].
  rewrite Forall2_lookup in Hf. specialize (Hf l).
  inversion Hf as [s s' [Hw _] Hs Hs'|]; [|reflexivity].
  unfold checksOf. apply (f_equal length) in Hw.
  rewrite !length_fmap in Hw. rewrite Hw. reflexivity.
Qed.

Lemma sumChecks_keeps (st t : GraphState F) (xs : list nat) :
  Forall2 checkKeeps (lstate st) (lstate t) ->
  sumChecks g t xs = sumChecks g st xs.
Proof.
  intros Hf. induction xs as [|x xs IH]; simpl; [reflexivity|].
  rewrite IH, (checksAt_keeps st t x Hf). reflexivity.
Qed.

Lemma checkGradients_loop (fuel : nat) (xs : list nat) :
  forall st st', forEach (Layer_checkGradients g fuel) xs st = Ok st' ->
                 GCStep (sumChecks g st xs) st st'.
Proof.
  induction xs as [|x xs IH]; intros st st' Hrun; simpl in Hrun.
  - injection Hrun as <-. apply GCStep_refl.
  - invO. pose proof (Layer_checkGradients_step fuel x st a Ha) as H1.
    pose proof (IH _ _ Hrun) as H2.
    rewrite (sumChecks_keeps st a xs (proj1 H1)) in H2.
    simpl. eapply GCStep_trans; eassumption.
Qed.

Lemma checksAt_nonneg (st : GraphState F) (l : nat) : 0 <= checksAt g st l.
Proof.
  unfold checksAt, checksOf.
  destruct (layers g !! l) as [L|]; [|lia].
  destruct (lstate st !! l) as [s|]; [|lia].
  destruct (kind L); lia.
Qed.

End CheckAll.



(** ** The values a forward pass leaves *)

Section KindFprop.
Context {F : Type} `{FloatOps F} `{Kernels F}.

Lemma Layer__fprop_kind (l : nat) (L : Layer F) (v : list (Matrix F))
  (st : GraphState F) :
  Layer__fprop l L v st
  = do s <- stateAt l st;
    do s' <- kindFprop (kind L) st v s;
    let st' := upd l (fun _ => s') st in
    Ok (log (EvFprop l)
            (match kind L with
             | LogregCost _ => log (EvLaunch l KLogregCost) st'
             | _ => st'
             end)).
Proof. unfold Layer__fprop, kindFprop. destruct (kind L); reflexivity. Qed.

Lemma kindFprop_data (k : LayerKind F) (st st' : GraphState F)
  (v : list (Matrix F)) (s : LayerState F) :
  data st' = data st -> kindFprop k st' v s = kindFprop k st v s.
Proof.
  intros Hd. unfold kindFprop, LayerGraph_getNumCases. rewrite Hd.
  reflexivity.
Qed.

Lemma set_acts_twice (a b : Matrix F) (s : LayerState F) :
  set_acts a (set_acts b s) = set_acts a s.
Proof. reflexivity. Qed.

Lemma FCLayer_multInputs_old (ws : list (Weights F)) (input : Matrix F)
  (v : list (Matrix F)) (old old' : Matrix F) :
  FCLayer_multInputs ws 0 (input :: v) old
  = FCLayer_multInputs ws 0 (input :: v) old'.
Proof. reflexivity. Qed.

(** Computing a layer again on the same inputs changes nothing: no
    [_fprop] reads what it overwrites, but for a fully connected layer
    without inputs. *)
Lemma kindFprop_idem (k : LayerKind F) (st : GraphState F)
  (v : list (Matrix F)) (s s' : LayerState F) :
  match k with FCLayer _ => v <> [] | _ => True end ->
  kindFprop k st v s = Ok s' -> kindFprop k st v s' = Ok s'.
Proof.
  intros Hv. destruct k; simpl.
  - unfold FCLayer__fprop. destruct v as [|input v]; [congruence|].
    intros Hr. invO. subst s'. cbn [weights set_acts getActs biases].
    rewrite (FCLayer_multInputs_old _ input v _ (getActs s)), Ha.
    reflexivity.
  - unfold ConvLayer__fprop. intros Hr. invO. subst s'.
    cbn [weights set_acts biases]. rewrite Ha, Ha0. reflexivity.
  - unfold PoolLayer__fprop. intros Hr. invO; subst s'; rewrite Ha;
      simpl; rewrite ?Hb, ?Hb0; reflexivity.
  - unfold DataLayer__fprop. intros Hr. invO. subst s'. rewrite Ha.
    reflexivity.
  - unfold SoftmaxLayer__fprop. intros Hr. invO. subst s'. rewrite Ha.
    reflexivity.
  - unfold LogregCost__fprop. intros Hr. invO. subst s'.
    rewrite Ha. simpl. rewrite Ha0, Ha1. simpl. rewrite Ha2. reflexivity.
Qed.

Lemma gatherActs_ext (L : Layer F) (st st' : GraphState F) :
  (forall p, In p (getPrev L) ->
             getActs <$> lstate st' !! p = getActs <$> lstate st !! p) ->
  gatherActs L st' = gatherActs L st.
Proof.
  unfold gatherActs, stateAt. generalize (getPrev L). intros ps.
  induction ps as [|p ps IH]; intros Hp; [reflexivity|].
  rewrite IH by (intros q Hq; apply Hp; right; exact Hq).
  specialize (Hp p (or_introl eq_refl)).
  destruct (lstate st' !! p), (lstate st !! p); simpl in *;
    try discriminate; [|reflexivity].
  injection Hp as ->. reflexivity.
Qed.

Lemma gatherActs_length (L : Layer F) (st : GraphState F)
  (v : list (Matrix F)) :
  gatherActs L st = Ok v -> length v = length (getPrev L).
Proof.
  unfold gatherActs. generalize (getPrev L). intros ps. revert v.
  induction ps as [|p ps IH]; intros v Hg.
  - injection Hg as <-. reflexivity.
  - invO. subst v. simpl. f_equal. apply IH. assumption.
Qed.
End KindFprop.

Section ValueInvariant.
Context {F : Type} `{FloatOps F} `{Kernels F}.
Variable g : LayerGraph F.
Variable n0 : nat.
Variable d : Data F.

Lemma got_full (C : list nat) (xs : list nat) :
  List.NoDup C -> got C xs = length xs -> forall x, In x xs -> In x C.
Proof.
  intros Hnd. induction xs as [|y xs IH]; intros Hg x Hx; [destruct Hx|].
  simpl in Hg.
  pose proof (proj1 (List.NoDup_count_occ Nat.eq_dec C) Hnd y) as Hle.
  pose proof (got_le C xs Hnd) as Hle'.
  destruct Hx as [<-|Hx].
  - apply (count_occ_In Nat.eq_dec). lia.
  - apply IH; [lia|exact Hx].
Qed.

Lemma settled_frame (l m : nat) (s' : LayerState F) (st st' : GraphState F) :
  l <> m -> lstate st' = alter (fun _ => s') m (lstate st) ->
  data st' = data st ->
  (forall L, layers g !! l = Some L -> ~ In m (getPrev L)) ->
  settled g l st -> settled g l st'.
Proof.
  intros Hne Hl Hd Hnot (L & s & v & HL & Hs & Hin & Hk).
  exists L, s, v. split; [exact HL|]. split; [|split].
  - rewrite Hl, list_lookup_alter_ne by congruence. exact Hs.
  - unfold inputsOf in *. rewrite Hd.
    destruct (isData (kind L)); [exact Hin|].
    rewrite <- Hin. apply gatherActs_ext. intros p Hp.
    rewrite Hl, list_lookup_alter_ne; [reflexivity|].
    intros <-. exact (Hnot L HL Hp).
  - rewrite (kindFprop_data _ st st' v s Hd). exact Hk.
Qed.

(** A write into a layer that has not computed, with nothing logged. *)
Lemma VInv_keep (l : nat) (s1 : LayerState F) (st st1 : GraphState F) :
  VInv g n0 d st -> ~ In l (computedSince n0 st) ->
  lstate st1 = alter (fun _ => s1) l (lstate st) ->
  data st1 = data st -> trace st1 = trace st ->
  VInv g n0 d st1.
Proof.
  intros [Hd Hv] Hni Hl Hd1 Ht.
  assert (HC : computedSince n0 st1 = computedSince n0 st)
    by (unfold computedSince; rewrite Ht; reflexivity).
  split; [congruence|]. intros x Hx. rewrite HC in *.
  destruct (Hv x Hx) as [Hs Hp]. split; [|exact Hp].
  apply (settled_frame x l s1 st st1); try assumption.
  - intros ->. contradiction.
  - intros L HL Hin. apply Hni. exact (Hp L l HL Hin).
Qed.

(** The computation of a layer that has not computed yet. *)
Lemma VInv_add (l : nat) (L : Layer F) (s3 : LayerState F)
  (v : list (Matrix F)) (st st3 : GraphState F) (evs : list (Event F)) :
  VInv g n0 d st -> (n0 <= length (trace st))%nat ->
  ~ In l (computedSince n0 st) ->
  layers g !! l = Some L -> (l < length (lstate st))%nat ->
  lstate st3 = alter (fun _ => s3) l (lstate st) ->
  data st3 = data st ->
  trace st3 = trace st ++ evs -> fpropped evs = [l] ->
  inputsOf L st3 = Ok v -> kindFprop (kind L) st3 v s3 = Ok s3 ->
  (forall p, In p (getPrev L) -> In p (computedSince n0 st)) ->
  VInv g n0 d st3.
Proof.
  intros [Hd Hv] Hn Hni HL Hlt Hl Hd3 Ht Hev Hin Hk Hprev.
  assert (HC : computedSince n0 st3 = computedSince n0 st ++ [l]).
  { unfold computedSince, fpropped. rewrite Ht, drop_app_le by exact Hn.
    rewrite omap_app. f_equal. exact Hev. }
  split; [congruence|]. intros x Hx. rewrite HC in *.
  apply in_app_iff in Hx. destruct Hx as [Hx|[<-|[]]].
  - destruct (Hv x Hx) as [Hs Hp]. split.
    + apply (settled_frame x l s3 st st3); try assumption.
      * intros ->. contradiction.
      * intros Lx HLx Hi. apply Hni. exact (Hp Lx l HLx Hi).
    + intros Lx p HLx Hi. apply in_app_iff. left. exact (Hp Lx p HLx Hi).
  - split.
    + exists L, s3, v. split; [exact HL|]. split; [|split; assumption].
      rewrite Hl, list_lookup_alter. destruct (decide (l = l)); [|congruence].
      destruct (lookup_lt_is_Some_2 _ _ Hlt) as [s0 ->]. reflexivity.
    + intros Lx p HLx Hi. rewrite HL in HLx. injection HLx as <-.
      apply in_app_iff. left. exact (Hprev p Hi).
Qed.
End ValueInvariant.

Section ValueWave.
Context {F : Type} `{FloatOps F} `{Kernels F}.
Variable g : LayerGraph F.
Hypothesis Hwf : wf_graph g.
Hypothesis Hfed : fedByData g.
Variable n0 : nat.
Variable tr0 : list (Event F).
Variable d : Data F.

Lemma kindFprop_keeps (k : LayerKind F) (st : GraphState F)
  (v : list (Matrix F)) (s s' : LayerState F) :
  kindFprop k st v s = Ok s' -> fpropKeeps s s'.
Proof.
  destruct k; simpl; intros Hr.
  - eapply FCLayer__fprop_keeps; eassumption.
  - eapply ConvLayer__fprop_keeps; eassumption.
  - eapply PoolLayer__fprop_keeps; eassumption.
  - eapply DataLayer__fprop_keeps; eassumption.
  - eapply SoftmaxLayer__fprop_keeps; eassumption.
  - invO. eapply LogregCost__fprop_keeps; eassumption.
Qed.

Lemma Layer__fprop_kind_spec (l : nat) (L : Layer F) (v : list (Matrix F))
  (st st' : GraphState F) :
  Layer__fprop l L v st = Ok st' ->
  exists s s' evs,
    lstate st !! l = Some s /\ kindFprop (kind L) st v s = Ok s' /\
    fpropKeeps s s' /\
    lstate st' = alter (fun _ => s') l (lstate st) /\
    trace st' = trace st ++ evs /\ fpropped evs = [l] /\
    data st' = data st.
Proof.
  rewrite Layer__fprop_kind. unfold stateAt. intros Hr. invO. subst st'.
  exists a, a0.
  pose proof (kindFprop_keeps _ _ _ _ _ Ha0) as Hk.
  destruct (kind L);
    (eexists; split; [exact Ha|]; split; [exact Ha0|]; split; [exact Hk|];
     split; [reflexivity|];
     split; [simpl; rewrite <- ?app_assoc; reflexivity|];
     split; reflexivity).
Qed.

Lemma not_computed_pending D l rest (st : GraphState F) (L : Layer F)
  (s : LayerState F) :
  FInv g n0 tr0 D (l :: rest) st ->
  layers g !! l = Some L -> isData (kind L) = false ->
  lstate st !! l = Some s ->
  ~ In l (computedSince n0 st).
Proof.
  intros [Hlen Htr Hpre Hnd Hdata Hcount] HL Hk Hs Hin.
  destruct (Hcount l L s HL Hs Hk) as (Hc & Hi & _).
  specialize (Hi Hin).
  rewrite count_occ_cons_eq in Hc by reflexivity.
  pose proof (got_le (computedSince n0 st) (getPrev L) Hnd). lia.
Qed.

Lemma forEach_fprop_values (fuel : nat) :
  (forall l st st' D rest,
      FInv g n0 tr0 D (l :: rest) st -> VInv g n0 d st ->
      Layer_fprop g fuel l st = Ok st' -> VInv g n0 d st') ->
  forall xs st st' D rest,
    FInv g n0 tr0 D (xs ++ rest) st -> VInv g n0 d st ->
    forEach (Layer_fprop g fuel) xs st = Ok st' ->
    VInv g n0 d st'.
Proof.
  intros Hstep xs. induction xs as [|x xs IH]; intros st st' D rest Hinv Hv Hrun;
    simpl in Hrun.
  - injection Hrun as <-. exact Hv.
  - invO. eapply (IH a st' D rest); [| |exact Hrun].
    + eapply (Layer_fprop_inv g Hwf n0 tr0 fuel); [exact Hinv|exact Ha].
    + eapply Hstep; [exact Hinv|exact Hv|exact Ha].
Qed.

Lemma Layer_fprop_values (fuel : nat) :
  forall l st st' D rest,
    FInv g n0 tr0 D (l :: rest) st -> VInv g n0 d st ->
    Layer_fprop g fuel l st = Ok st' -> VInv g n0 d st'.
Proof.
  induction fuel as [|fuel IH]; intros l st st' D rest Hinv Hv Hrun;
    rewrite Layer_fprop_eq in Hrun; unfold layerAt, stateAt in Hrun.
  - invO. subst st'.
    eapply (VInv_keep g n0 d l _ st _ Hv); try reflexivity.
    eapply not_computed_pending; eassumption.
  - invO.
    + pose proof (not_computed_pending D l rest st a a0 Hinv Ha Hb Ha0)
        as Hni.
      unfold Layer_fprop_v in Hrun. invO.
      rename a into L, a0 into s, a1 into v, a3 into st3.
      apply Z.eqb_eq in Hb0.
      destruct (Layer__fprop_kind_spec _ _ _ _ _ Ha3)
        as (s2 & s3 & evs & Hs2 & Hkind & Hkeep & Hl3 & Ht3 & Hev & Hd3).
      simpl in Hs2. rewrite !list_lookup_alter in Hs2.
      destruct (decide (l = l)); [|congruence].
      rewrite Ha0 in Hs2. simpl in Hs2. injection Hs2 as <-.
      simpl in Hl3. rewrite !alter_const_alter in Hl3.
      simpl in Ht3, Hd3.
      assert (Hfire : FInv g n0 tr0 D (getNext L ++ rest) st3).
      { eapply (FInv_fire g Hwf n0 tr0 D l rest st st3 L s s3 evs Hinv Ha Hb
                  Ha0 Hb0 Hl3); [|exact Ht3|exact Hev].
        destruct Hkeep as (Hk1 & _). rewrite Hk1. simpl. symmetry.
        exact Hb0. }
      eapply (forEach_fprop_values fuel IH); [exact Hfire| |exact Hrun].
      destruct Hinv as [Hlen Htr Hpre Hnd Hdata Hcount].
      assert (Hprev : forall p, In p (getPrev L) ->
                                In p (computedSince n0 st)).
      { apply (got_full _ _ Hnd).
        destruct (Hcount l L s Ha Ha0 Hb) as (Hc & _ & _).
        rewrite count_occ_cons_eq in Hc by reflexivity.
        pose proof (got_le (computedSince n0 st) (getPrev L) Hnd). lia. }
      assert (Hself : forall p, In p (getPrev L) -> p <> l).
      { intros p Hp. pose proof (wf_prev g Hwf l L Ha) as Hlt.
        rewrite List.Forall_forall in Hlt. specialize (Hlt p Hp). lia. }
      assert (Hin3 : inputsOf L st3 = Ok v).
      { unfold inputsOf. rewrite Hb. rewrite <- Ha1.
        apply gatherActs_ext. intros p Hp.
        rewrite Hl3. simpl. rewrite !list_lookup_alter_ne; [reflexivity| |];
          intros ->; exact (Hself _ Hp eq_refl). }
      eapply (VInv_add g n0 d l L s3 v st st3 evs Hv Htr Hni Ha);
        try eassumption.
      * eapply lookup_lt_Some. exact Ha0.
      * erewrite kindFprop_data;
          [eapply kindFprop_idem; [|exact Hkind]|exact Hd3].
        destruct (kind L) eqn:Hk; try exact I.
        intros ->. apply gatherActs_length in Ha1. simpl in Ha1.
        destruct (getPrev L) eqn:E; [|discriminate].
        apply (Hfed l L Ha) in E. rewrite Hk in E. discriminate.
    + subst st'.
      eapply (VInv_keep g n0 d l _ st _ Hv); try reflexivity.
      eapply not_computed_pending; eassumption.
Qed.
End ValueWave.

Section ValuePass.
Context {F : Type} `{FloatOps F} `{Kernels F}.
Variable g : LayerGraph F.
Hypothesis Hwf : wf_graph g.
Hypothesis Hfed : fedByData g.
Variable d : Data F.

Lemma DataLayer_fprop_values n0 tr0 (fuel : nat) (l : nat) (L : Layer F)
  (D : list nat) (st st' : GraphState F) :
  FInv g n0 tr0 D [] st -> VInv g n0 d st ->
  layers g !! l = Some L -> isData (kind L) = true -> ~ In l D ->
  DataLayer_fprop g fuel l (getData d) st = Ok st' ->
  VInv g n0 d st'.
Proof.
  intros Hinv Hv HL Hk HnD Hrun. unfold DataLayer_fprop, layerAt in Hrun.
  rewrite HL in Hrun. simpl in Hrun. invO. rename a into st3.
  destruct (Layer__fprop_kind_spec _ _ _ _ _ Ha)
    as (s2 & s3 & evs & Hs2 & Hkind & _ & Hl3 & Ht3 & Hev & Hd3).
  assert (Hfire : FInv g n0 tr0 (D ++ [l]) (getNext L ++ []) st3).
  { rewrite app_nil_r.
    eapply (FInv_data g Hwf n0 tr0 D l st st3 L s3 evs Hinv HL Hk HnD Hl3
              Ht3 Hev). }
  eapply (forEach_fprop_values g Hwf n0 tr0 d fuel
            (Layer_fprop_values g Hwf Hfed n0 tr0 d fuel));
    [exact Hfire| |exact Hrun].
  pose proof Hv as [Hd _].
  destruct Hinv as [Hlen Htr Hpre Hnd Hdata Hcount].
  eapply (VInv_add g n0 d l L s3 (getData d) st st3 evs Hv Htr); try eassumption.
  - intros Hin. apply HnD. apply (Hdata l L HL Hk). exact Hin.
  - eapply lookup_lt_Some. exact Hs2.
  - unfold inputsOf. rewrite Hk, Hd3, Hd. reflexivity.
  - erewrite kindFprop_data;
      [eapply kindFprop_idem; [|exact Hkind]|exact Hd3].
    destruct (kind L); try exact I. discriminate Hk.
  - intros p Hp. apply (Hfed l L HL) in Hk. rewrite Hk in Hp. destruct Hp.
Qed.

Lemma seed_values n0 tr0 (fuel : nat) (k : nat) :
  forall i st st',
    FInv g n0 tr0 (take i (dataLayers g)) [] st -> VInv g n0 d st ->
    forEach (fun i st => do l <- deref (dataLayers g !! i);
                         DataLayer_fprop g fuel l (getData d) st)
            (seq i k) st = Ok st' ->
    VInv g n0 d st'.
Proof.
  induction k as [|k IH]; intros i st st' Hinv Hv Hrun; simpl in Hrun.
  - injection Hrun as <-. exact Hv.
  - invO.
    assert (Hin : In a0 (dataLayers g)).
    { apply list_elem_of_In. eapply list_elem_of_lookup_2. exact Ha0. }
    rewrite (wf_data g Hwf) in Hin. apply indicesOf_In in Hin.
    destruct Hin as (j & L & -> & HL & Hk). simpl in *.
    assert (HnD : ~ In j (take i (dataLayers g))).
    { apply NoDup_lookup_take; [|exact Ha0].
      rewrite (wf_data g Hwf). apply indicesOf_NoDup. }
    apply (IH (S i) a st'); [| |exact Hrun].
    + rewrite (take_S_r _ _ j Ha0).
      eapply DataLayer_fprop_inv; eassumption.
    + eapply DataLayer_fprop_values; eassumption.
Qed.

Lemma alter_same {A : Type} (xs : list A) (i : nat) (x : A) :
  xs !! i = Some x -> alter (fun _ => x) i xs = xs.
Proof.
  intros Hx. apply list_eq. intros j. rewrite list_lookup_alter.
  destruct (decide (i = j)) as [<-|]; [rewrite Hx|]; reflexivity.
Qed.

(** A settled layer computes to the state it is in. *)
Lemma settled_fixed (l : nat) (st : GraphState F) :
  settled g l st ->
  exists L v st'',
    layers g !! l = Some L /\ inputsOf L st = Ok v /\
    Layer__fprop l L v st = Ok st'' /\ lstate st'' = lstate st.
Proof.
  intros (L & s & v & HL & Hs & Hin & Hk).
  exists L, v. rewrite Layer__fprop_kind. unfold stateAt. rewrite Hs.
  simpl. rewrite Hk. simpl. eexists. split; [exact HL|].
  split; [exact Hin|]. split; [reflexivity|].
  destruct (kind L); simpl; apply alter_same; exact Hs.
Qed.

Lemma LayerGraph_fprop_settled (fuel : nat) (st st' : GraphState F) :
  length (lstate st) = length (layers g) ->
  length (getData d) = length (dataLayers g) ->
  LayerGraph_fprop g fuel d st = Ok st' ->
  forall l L, layers g !! l = Some L -> settled g l st'.
Proof.
  intros Hlen Hdata Hrun l L HL. unfold LayerGraph_fprop in Hrun.
  pose proof (reset_inv g Hfed d st Hlen) as Hinit.
  assert (Hv0 : VInv g (length (trace st)) d
                     (LayerGraph_reset (LayerGraph_setData d st))).
  { split; [reflexivity|]. intros x Hx. unfold computedSince in Hx.
    simpl in Hx. rewrite drop_all in Hx. destruct Hx. }
  change ([] : list nat) with (take 0 (dataLayers g)) in Hinit at 1.
  pose proof (seed_inv g Hwf _ _ fuel (getData d) (length (getData d))
                0%nat _ st' Hinit Hrun) as Hfin.
  pose proof (seed_values _ _ fuel (length (getData d)) 0%nat _ st'
                Hinit Hv0 Hrun) as [_ Hvfin].
  rewrite Hdata in Hfin. simpl in Hfin. rewrite firstn_all in Hfin.
  pose proof (all_computed g Hwf _ _ st' Hfin l L HL) as Hin.
  apply (Hvfin l Hin).
Qed.
End ValuePass.

Section ValueTheorem.
Context {F : Type} `{FloatOps F} `{Kernels F}.

End ValueTheorem.


(** ** Budgets *)

Section Budgets.
Context {F : Type} `{FloatOps F} `{Kernels F}.
Variable g : LayerGraph F.
Hypothesis Hwf : wf_graph g.

Lemma Layer_checkGradients_fuel (fuel : nat) (l : nat) (st : GraphState F) :
  (length (layers g) <= fuel)%nat ->
  Layer_checkGradients g fuel l st <> OutOfFuel.
Proof.
  intros Hf. unfold Layer_checkGradients, layerAt, stateAt.
  apply bindO_fuel; [apply deref_fuel|]. intros L _.
  destruct (kind L); try discriminate.
  - apply bindO_fuel; [apply deref_fuel|]. intros s _.
    apply bindO_fuel.
    + apply forEach_fuel. intros i t _.
      apply bindO_fuel; [|discriminate].
      apply LayerGraph_checkGradientsW_fuel; assumption.
    + intros t _. apply bindO_fuel; [|discriminate].
      apply LayerGraph_checkGradientsW_fuel; assumption.
  - apply bindO_fuel;
      [apply LayerGraph_checkGradientsW_fuel; assumption|].
    intros r _. apply bindO_fuel; [|discriminate].
    apply LayerGraph_checkGradientsW_fuel; assumption.
Qed.

Lemma LayerGraph_checkGradients_fuel (fuel : nat) (d : Data F)
  (st : GraphState F) :
  (length (layers g) <= fuel)%nat ->
  LayerGraph_checkGradients g fuel d st <> OutOfFuel.
Proof.
  intros Hf. unfold LayerGraph_checkGradients.
  apply bindO_fuel; [apply LayerGraph_fprop_fuel; assumption|]. intros t _.
  apply bindO_fuel; [apply LayerGraph_getCostFunctionValue_fuel|].
  intros e _.
  apply bindO_fuel; [apply LayerGraph_bprop_fuel; assumption|]. intros t2 _.
  apply bindO_fuel; [|discriminate].
  apply forEach_fuel. intros l t3 _.
  apply Layer_checkGradients_fuel. exact Hf.
Qed.
End Budgets.

Section BudgetTheorem.
Context {F : Type} `{FloatOps F} `{Kernels F}.

(** X14.  On a graph built by the constructor the calls of [bprop()]
    nest no deeper than there are layers, because a layer calls
    [bprop()] on its predecessors only and these come before it: a
    backward pass, and a whole gradient check with its forward and
    backward passes, end within a budget of one nested call per layer,
    from any state and on any data. *)
Theorem passes_within_budget (layerParams : list (PyDict F))
  (g : LayerGraph F) (st0 : GraphState F) (fuel : nat) :
  LayerGraph_new layerParams = Ok (g, st0) ->
  (length layerParams <= fuel)%nat ->
  (forall l st, (l < length layerParams)%nat ->
                Layer_bprop g fuel l st <> OutOfFuel) /\
  (forall st, LayerGraph_bprop g fuel st <> OutOfFuel) /\
  (forall d st, LayerGraph_checkGradients g fuel d st <> OutOfFuel).
Proof.
  intros Hnew Hf. destruct (LayerGraph_new_wf _ _ _ Hnew) as [Hwf _].
  pose proof (LayerGraph_new_length _ _ _ Hnew) as Hn.
  split; [|split].
  - intros l st Hl. apply Layer_bprop_fuel; [exact Hwf|lia].
  - intros st. apply LayerGraph_bprop_fuel; [exact Hwf|lia].
  - intros d st. apply LayerGraph_checkGradients_fuel; [exact Hwf|lia].
Qed.
End BudgetTheorem.

Lemma passes_within_budget_witness :
  let g := Example.graphOf Example.convnet in
  (forall l st, (l < 7)%nat -> Layer_bprop g 7 l st <> OutOfFuel) /\
  (forall st, LayerGraph_bprop g 7 st <> OutOfFuel) /\
  (forall d st, LayerGraph_checkGradients g 7 d st <> OutOfFuel).
Proof.
  intros g.
  apply (passes_within_budget Example.convnet g
           (Example.stateOf Example.convnet) 7).
  - vm_compute. reflexivity.
  - simpl. lia.
Defined.

(** ** A forward pass on fewer data matrices than data layers *)

Section PartialData.
Context {F : Type} `{FloatOps F} `{Kernels F}.

Lemma seed_bound (g : LayerGraph F) (fuel : nat) (v : list (Matrix F))
  (k : nat) :
  forall i st st',
    forEach (fun i st => do l <- deref (dataLayers g !! i);
                         DataLayer_fprop g fuel l v st)
            (seq i k) st = Ok st' ->
    (i + k <= length (dataLayers g))%nat \/ k = 0%nat.
Proof.
  induction k as [|k IH]; intros i st st' Hrun; [right; reflexivity|].
  left. simpl in Hrun. invO. apply lookup_lt_Some in Ha0.
  destruct (IH _ _ _ Hrun) as [Hle| ->]; lia.
Qed.

End PartialData.


(** ** Where a backward pass writes gradients *)

Section GradientFlow.
Context {F : Type} `{FloatOps F} `{Kernels F}.
Variable g : LayerGraph F.

Lemma flows_refl (st : GraphState F) : gradFlow g st st.
Proof. exists []. split; [symmetry; apply app_nil_r|reflexivity]. Qed.

Lemma flows_trans (st1 st2 st3 : GraphState F) :
  gradFlow g st1 st2 -> gradFlow g st2 st3 -> gradFlow g st1 st3.
Proof.
  intros (e1 & H1 & F1) (e2 & H2 & F2). exists (e1 ++ e2). split.
  - rewrite H2, H1, app_assoc. reflexivity.
  - rewrite forallb_app, F1, F2. reflexivity.
Qed.

Lemma flows_upd (l : nat) (f : LayerState F -> LayerState F)
  (st : GraphState F) : gradFlow g st (upd l f st).
Proof. exists []. split; [symmetry; apply app_nil_r|reflexivity]. Qed.

Lemma flows_log (e : Event F) (st : GraphState F) :
  alongEdge (layers g) e = true -> gradFlow g st (log e st).
Proof.
  intros He. exists [e]. split; [reflexivity|]. simpl. rewrite He.
  reflexivity.
Qed.

Lemma Layer_bprop_flows (fuel : nat) (l : nat) (st st' : GraphState F) :
  Layer_bprop g fuel l st = Ok st' -> gradFlow g st st'.
Proof.
  apply (Layer_bprop_steps g (gradFlow g) flows_refl flows_trans).
  - intros. apply flows_upd.
  - intros. eapply flows_trans; [apply flows_upd|].
    apply flows_log. reflexivity.
  - intros. apply flows_upd.
  - intros. apply flows_log. reflexivity.
  - intros l0 L p c t HL Hp Hg. unfold writeActGrads.
    eapply flows_trans; [apply flows_upd|]. apply flows_log. simpl.
    rewrite HL, Hg, bool_decide_eq_true_2; [reflexivity|].
    apply list_elem_of_In. exact Hp.
Qed.

End GradientFlow.


(** ** What a backward computation is started on *)

Section SumSteps.
Context {F : Type} `{FloatOps F} `{Kernels F}.
Variable g : LayerGraph F.
Variable tr0 : list (Event F).

Lemma contribs_app (p : nat) (a b : list (Event F)) :
  contribs p (a ++ b) = contribs p a ++ contribs p b.
Proof. apply omap_app. Qed.

Lemma msum_snoc (cs : list (Matrix F)) (c : Matrix F) :
  cs <> [] -> msum (cs ++ [c]) = madd (msum cs) c.
Proof.
  destruct cs as [|c0 cs]; [congruence|]. intros _. simpl.
  rewrite foldl_app. reflexivity.
Qed.

Lemma snoc_split {A : Type} (evs pre post : list A) (e x : A) :
  evs ++ [e] = pre ++ x :: post ->
  (post = [] /\ pre = evs /\ x = e) \/
  (exists post', post = post' ++ [e] /\ evs = pre ++ x :: post').
Proof.
  intros Heq. destruct post as [|y post] using rev_ind.
  - left. apply app_inj_tail in Heq. destruct Heq as [-> ->]. auto.
  - right. clear IHpost. exists post.
    change (pre ++ x :: post ++ [y]) with (pre ++ (x :: post) ++ [y]) in Heq.
    rewrite app_assoc in Heq. apply app_inj_tail in Heq.
    destruct Heq as [-> ->]. auto.
Qed.

Lemma startsOnSums_quiet (evs : list (Event F)) (e : Event F) :
  isBprop e = false -> startsOnSums g evs -> startsOnSums g (evs ++ [e]).
Proof.
  intros He Hs pre l v post Heq.
  destruct (snoc_split _ _ _ _ _ Heq) as [(_ & _ & <-)|(post' & _ & ->)].
  - discriminate He.
  - eapply Hs. reflexivity.
Qed.

Lemma SInv_pending (o o' : option nat) (st : GraphState F) :
  (forall p L, layers g !! p = Some L -> counting L = true ->
               pendingAt o p = pendingAt o' p) ->
  SInv g tr0 o st -> SInv g tr0 o' st.
Proof.
  intros Hp (evs & Ht & Hc & He). exists evs. split; [exact Ht|].
  split; [|exact He]. intros p L s HL Hk Hs.
  rewrite <- (Hp p L HL Hk). exact (Hc p L s HL Hk Hs).
Qed.

Lemma SInv_skip (l : nat) (L : Layer F) (st : GraphState F) :
  layers g !! l = Some L -> counting L = false ->
  SInv g tr0 None st <-> SInv g tr0 (Some l) st.
Proof.
  intros HL Hk.
  assert (Hp : forall p Lp, layers g !! p = Some Lp -> counting Lp = true ->
                            pendingAt None p = pendingAt (Some l) p).
  { intros p Lp HLp Hkp. unfold pendingAt.
    destruct (decide (None = Some p)) as [?|_]; [discriminate|].
    destruct (decide (Some l = Some p)) as [[= ->]|_]; [|reflexivity].
    congruence. }
  split; apply SInv_pending; [exact Hp|].
  intros p Lp HLp Hkp. symmetry. exact (Hp p Lp HLp Hkp).
Qed.

(** A write into the state of layer [l] that keeps the counter, and keeps
    the gradient buffer unless the layer has been served. *)
Lemma SInv_upd (o : option nat) (l : nat)
  (f : LayerState F -> LayerState F) (st : GraphState F) :
  (forall s, lstate st !! l = Some s ->
     getRcvdBInputs (f s) = getRcvdBInputs s /\
     (getActGrads (f s) = getActGrads s \/ served g l st)) ->
  SInv g tr0 o st -> SInv g tr0 o (upd l f st).
Proof.
  intros Hf (evs & Ht & Hc & He). exists evs. split; [exact Ht|].
  split; [|exact He]. intros p L s' HL Hk Hs'.
  rewrite upd_lookup in Hs'. destruct (decide (l = p)) as [->|Hne].
  - destruct (lstate st !! p) as [s|] eqn:Hs; [|discriminate].
    injection Hs' as <-. destruct (Hf s eq_refl) as [Hcnt Hag].
    destruct (Hc p L s HL Hk Hs) as (Hpos & HA & HB).
    rewrite Hcnt. split; [exact Hpos|]. split; [exact HA|].
    intros Hlt Hne. destruct Hag as [-> |Hsv]; [exact (HB Hlt Hne)|].
    specialize (Hsv L s HL Hs). lia.
  - exact (Hc p L s' HL Hk Hs').
Qed.

Lemma SInv_launch (o : option nat) (l : nat) (k : Launch)
  (st : GraphState F) :
  SInv g tr0 o st -> SInv g tr0 o (log (EvLaunch l k) st).
Proof.
  intros (evs & Ht & Hc & He). exists (evs ++ [EvLaunch l k]). simpl.
  split; [rewrite Ht, app_assoc; reflexivity|].
  split; [|apply startsOnSums_quiet; [reflexivity|exact He]].
  intros p L s HL Hk Hs. rewrite contribs_app. simpl. rewrite app_nil_r.
  exact (Hc p L s HL Hk Hs).
Qed.

Lemma SInv_write (l p : nat) (c : Matrix F) (st : GraphState F) :
  SInv g tr0 None st -> SInv g tr0 (Some p) (writeActGrads l p c st).
Proof.
  intros (evs & Ht & Hc & He). exists (evs ++ [EvActGrads l p c]).
  unfold writeActGrads. simpl.
  split; [rewrite Ht, app_assoc; reflexivity|].
  split; [|apply startsOnSums_quiet; [reflexivity|exact He]].
  intros q L s' HL Hk Hs'. rewrite contribs_app. simpl.
  rewrite list_lookup_alter in Hs'. unfold pendingAt.
  destruct (decide (p = q)) as [->|Hne].
  - destruct (decide (q = q)) as [_|]; [|congruence].
    destruct (decide (Some q = Some q)) as [_|]; [|congruence].
    destruct (lstate st !! q) as [s|] eqn:Hs; [|discriminate].
    injection Hs' as <-.
    destruct (Hc q L s HL Hk Hs) as (Hpos & HA & HB).
    unfold pendingAt in HA.
    destruct (decide (None = Some q)) as [?|_]; [discriminate|].
    unfold accumActGrads. simpl. rewrite length_app. simpl.
    split; [exact Hpos|]. split; [lia|]. intros Hlt _.
    destruct (getRcvdBInputs s =? 0) eqn:E.
    + apply Z.eqb_eq in E.
      destruct (contribs q evs); [reflexivity|simpl in HA; lia].
    + apply Z.eqb_neq in E.
      assert (Hne : contribs q evs <> [])
        by (intros Hnil; rewrite Hnil in HA; simpl in HA; lia).
      rewrite msum_snoc by exact Hne. rewrite (HB Hlt Hne). reflexivity.
  - destruct (decide (q = p)) as [?|_]; [congruence|].
    destruct (decide (Some p = Some q)) as [?|_]; [congruence|].
    rewrite app_nil_r.
    destruct (Hc q L s' HL Hk Hs') as (Hpos & HA & HB).
    unfold pendingAt in HA.
    destruct (decide (None = Some q)) as [?|_]; [discriminate|].
    auto.
Qed.

Lemma SInv_count (o : option nat) (l : nat) (L : Layer F)
  (s : LayerState F) (st : GraphState F) (evs : list (Event F)) :
  layers g !! l = Some L -> counting L = true -> lstate st !! l = Some s ->
  (forall p L s, layers g !! p = Some L -> counting L = true ->
     lstate st !! p = Some s ->
     0 <= getRcvdBInputs s /\
     Z.of_nat (length (contribs p evs))
     = getRcvdBInputs s + pendingAt (Some l) p /\
     (getRcvdBInputs s < numGradProducersNext L -> contribs p evs <> [] ->
      getActGrads s = msum (contribs p evs))) ->
  forall p Lp sp, layers g !! p = Some Lp -> counting Lp = true ->
    lstate (upd l (fun _ => set_rcvdBInputs (getRcvdBInputs s + 1) s) st)
      !! p = Some sp ->
    0 <= getRcvdBInputs sp /\
    Z.of_nat (length (contribs p evs)) = getRcvdBInputs sp + pendingAt None p /\
    (getRcvdBInputs sp < numGradProducersNext Lp -> contribs p evs <> [] ->
     getActGrads sp = msum (contribs p evs)).
Proof.
  intros HL Hk Hs Hc p Lp sp HLp Hkp Hsp.
  rewrite upd_lookup in Hsp. unfold pendingAt.
  destruct (decide (None = Some p)) as [?|_]; [discriminate|].
  destruct (decide (l = p)) as [->|Hne].
  - rewrite Hs in Hsp. injection Hsp as <-.
    destruct (Hc p Lp s HLp Hkp Hs) as (Hpos & HA & HB).
    unfold pendingAt in HA.
    destruct (decide (Some p = Some p)) as [_|]; [|congruence].
    simpl. split; [lia|]. split; [lia|]. intros Hlt Hne.
    apply HB; [lia|exact Hne].
  - destruct (Hc p Lp sp HLp Hkp Hsp) as (Hpos & HA & HB).
    unfold pendingAt in HA.
    destruct (decide (Some l = Some p)) as [?|_]; [congruence|].
    auto.
Qed.

Lemma SInv_wait (l : nat) (L : Layer F) (s : LayerState F)
  (st : GraphState F) :
  layers g !! l = Some L -> counting L = true -> lstate st !! l = Some s ->
  SInv g tr0 (Some l) st ->
  SInv g tr0 None
       (upd l (fun _ => set_rcvdBInputs (getRcvdBInputs s + 1) s) st).
Proof.
  intros HL Hk Hs (evs & Ht & Hc & He). exists evs.
  split; [exact Ht|]. split; [|exact He].
  exact (SInv_count (Some l) l L s st evs HL Hk Hs Hc).
Qed.

Lemma SInv_fire (l : nat) (L : Layer F) (s : LayerState F)
  (st : GraphState F) :
  layers g !! l = Some L -> counting L = true -> lstate st !! l = Some s ->
  getRcvdBInputs s + 1 = numGradProducersNext L ->
  SInv g tr0 (Some l) st ->
  SInv g tr0 None
       (log (EvBprop l (getActGrads s))
            (upd l (fun _ => set_rcvdBInputs (getRcvdBInputs s + 1) s) st)).
Proof.
  intros HL Hk Hs HN (evs & Ht & Hc & He).
  exists (evs ++ [EvBprop l (getActGrads s)]). simpl.
  split; [rewrite Ht, app_assoc; reflexivity|]. split.
  - intros p Lp sp HLp Hkp Hsp. rewrite contribs_app. simpl.
    rewrite app_nil_r.
    exact (SInv_count (Some l) l L s st evs HL Hk Hs Hc p Lp sp HLp Hkp Hsp).
  - intros pre l' v post Heq.
    destruct (snoc_split _ _ _ _ _ Heq) as [(_ & -> & Hx)|(post' & _ & ->)];
      [|eapply He; reflexivity].
    injection Hx as -> ->. exists L. split; [exact HL|].
    destruct (Hc l L s HL Hk Hs) as (Hpos & HA & HB). unfold pendingAt in HA.
    destruct (decide (Some l = Some l)) as [_|]; [|congruence].
    split; [lia|]. apply HB; [lia|].
    intros Hnil. rewrite Hnil in HA. simpl in HA. lia.
Qed.
End SumSteps.

Section CountersGrow.
Context {F : Type} `{FloatOps F} `{Kernels F}.
Variable g : LayerGraph F.

Lemma countersGrow_refl (st : GraphState F) : countersGrow st st.
Proof. apply Forall_Forall2_diag, Forall_forall. intros; lia. Qed.

Lemma countersGrow_trans (st1 st2 st3 : GraphState F) :
  countersGrow st1 st2 -> countersGrow st2 st3 -> countersGrow st1 st3.
Proof.
  unfold countersGrow. intros H12 H23.
  eapply Forall2_trans; [|exact H12|exact H23].
  intros x y z Hxy Hyz. cbv beta in *. lia.
Qed.

Lemma countersGrow_alter (l : nat) (s s' : LayerState F)
  (st : GraphState F) :
  lstate st !! l = Some s -> getRcvdBInputs s <= getRcvdBInputs s' ->
  countersGrow st (upd l (fun _ => s') st).
Proof.
  intros Hs Hle. unfold countersGrow, upd. simpl.
  apply Forall2_same_length_lookup. split.
  - rewrite length_alter. reflexivity.
  - intros i x y Hx Hy. rewrite list_lookup_alter in Hy.
    destruct (decide (l = i)) as [<-|Hne].
    + rewrite Hs in Hx, Hy. simpl in Hy. injection Hx as <-.
      injection Hy as <-. exact Hle.
    + rewrite Hx in Hy. injection Hy as <-. lia.
Qed.

Lemma countersGrow_log (e : Event F) (st : GraphState F) :
  countersGrow st (log e st).
Proof. exact (countersGrow_refl st). Qed.

Lemma Layer_bprop_grows (fuel : nat) (l : nat) (st st' : GraphState F) :
  Layer_bprop g fuel l st = Ok st' -> countersGrow st st'.
Proof.
  apply (Layer_bprop_rel g countersGrow).
  - apply countersGrow_refl.
  - apply countersGrow_trans.
  - intros l0 L s t HL Hs _ _ _. apply (countersGrow_alter l0 s _ t Hs).
    simpl. lia.
  - intros l0 L s t HL Hs _ _ _.
    eapply countersGrow_trans; [|apply countersGrow_log].
    apply (countersGrow_alter l0 s _ t Hs). simpl. lia.
  - intros l0 s s' t Hs (W1 & W2 & _).
    apply (countersGrow_alter l0 s _ t Hs). lia.
  - intros e t _. apply countersGrow_log.
Qed.

Lemma served_grows (l : nat) (st st' : GraphState F) :
  countersGrow st st' -> served g l st -> served g l st'.
Proof.
  intros Hg Hs L s' HL Hs'. unfold countersGrow in Hg.
  destruct (lstate st !! l) as [s|] eqn:E.
  - pose proof (Forall2_lookup_lr _ _ _ _ _ _ Hg E Hs') as Hle.
    cbv beta in Hle. specialize (Hs L s HL E). lia.
  - apply lookup_ge_None in E. apply lookup_lt_Some in Hs'.
    apply Forall2_length in Hg. lia.
Qed.

Lemma served_upd (l l' : nat) (f : LayerState F -> LayerState F)
  (st : GraphState F) :
  (forall s, getRcvdBInputs s <= getRcvdBInputs (f s)) ->
  served g l st -> served g l (upd l' f st).
Proof.
  intros Hf Hs L s' HL Hs'. rewrite upd_lookup in Hs'.
  destruct (decide (l' = l)) as [->|Hne]; [|exact (Hs L s' HL Hs')].
  destruct (lstate st !! l) as [s|] eqn:E; [|discriminate].
  injection Hs' as <-. specialize (Hs L s HL E).
  specialize (Hf s). lia.
Qed.

Lemma served_write (l src p : nat) (c : Matrix F) (st : GraphState F) :
  served g l st -> served g l (writeActGrads src p c st).
Proof.
  intros Hs. unfold writeActGrads.
  apply (served_upd l p (accumActGrads c) st) in Hs;
    [exact Hs|intros s; simpl; lia].
Qed.

Lemma served_trunc (l l' : nat) (st : GraphState F) :
  served g l st -> served g l (Layer_truncActGrads l' st).
Proof.
  intros Hs. unfold Layer_truncActGrads. destruct (saveBwdActs st);
    [exact Hs|]. apply served_upd; [intros s; simpl; lia|exact Hs].
Qed.
End CountersGrow.

Section SumKinds.
Context {F : Type} `{FloatOps F} `{Kernels F}.
Variable g : LayerGraph F.
Variable tr0 : list (Event F).
Hypothesis Hprop : forall l L, layers g !! l = Some L ->
  isPropagateGrad L = negb (isData (kind L)).
Hypothesis Hpool : forall l L pp, layers g !! l = Some L ->
  kind L = PoolLayer pp -> pool pp = "max" \/ pool pp = "avg".
Hypothesis Hcost : forall l L coeff, layers g !! l = Some L ->
  kind L = LogregCost coeff -> feqb coeff (of_int 0) = false.

Variable bprop : nat -> GraphState F -> Run F.
Hypothesis bprop_sum : forall p st st',
  bprop p st = Ok st' -> SInv g tr0 (Some p) st -> SInv g tr0 None st'.
Hypothesis bprop_grows : forall p st st',
  bprop p st = Ok st' -> countersGrow st st'.

Lemma SInv_target (l p : nat) (Lp : Layer F) (c : Matrix F)
  (st : GraphState F) :
  layers g !! p = Some Lp ->
  SInv g tr0 None st ->
  SInv g tr0 (Some p)
       (if isPropagateGrad Lp then writeActGrads l p c st else st).
Proof.
  intros HLp Hinv. destruct (isPropagateGrad Lp) eqn:Hp.
  - apply SInv_write. exact Hinv.
  - apply (SInv_skip g tr0 p Lp st HLp); [|exact Hinv].
    rewrite (Hprop p Lp HLp) in Hp. unfold counting.
    destruct (isData (kind Lp)); [reflexivity|discriminate].
Qed.

Lemma SInv_own (o : option nat) (l : nat)
  (f : LayerState F -> LayerState F) (st : GraphState F) :
  (forall s, getRcvdBInputs (f s) = getRcvdBInputs s) ->
  served g l st ->
  SInv g tr0 o st -> SInv g tr0 o (upd l f st).
Proof.
  intros Hf Hs. apply SInv_upd. intros s _. split; [apply Hf|right; exact Hs].
Qed.

Lemma SInv_trunc (o : option nat) (l : nat) (st : GraphState F) :
  served g l st ->
  SInv g tr0 o st -> SInv g tr0 o (Layer_truncActGrads l st).
Proof.
  intros Hs Hinv. unfold Layer_truncActGrads. destruct (saveBwdActs st);
    [exact Hinv|]. apply SInv_own; [reflexivity|exact Hs|exact Hinv].
Qed.

Lemma FCLayer_bpropInput_sum (l : nat) (L : Layer F) (i : nat)
  (st : GraphState F) r :
  FCLayer_bpropInput g l L i st = Ok r ->
  SInv g tr0 None st -> served g l st ->
  SInv g tr0 (Some r.1) r.2 /\ served g l r.2.
Proof.
  unfold FCLayer_bpropInput, layerAt, stateAt. intros Hrun Hinv Hsv. invO.
  subst r. cbn [fst snd].
  rename a into p, a0 into Lp, a1 into s, a2 into w.
  set (st1 := if isPropagateGrad Lp
              then writeActGrads l p (rightMult (getActGrads s)
                                        (getTranspose (getW w))) st
              else st) in *.
  assert (H1 : SInv g tr0 (Some p) st1)
    by (apply SInv_target; assumption).
  assert (H2 : served g l st1)
    by (unfold st1; destruct (isPropagateGrad Lp);
        [apply served_write|]; exact Hsv).
  split.
  - apply SInv_own; [reflexivity|exact H2|exact H1].
  - apply served_upd; [intros x; simpl; lia|exact H2].
Qed.

Lemma FCLayer__bprop_sum (l : nat) (L : Layer F) (neuron : string)
  (st st' : GraphState F) :
  FCLayer__bprop g bprop l L neuron st = Ok st' ->
  SInv g tr0 None st -> served g l st -> SInv g tr0 None st'.
Proof.
  unfold FCLayer__bprop, stateAt. intros Hrun Hinv Hsv. invO. subst st'.
  match goal with
  | Hloop : forEach _ _ ?st1 = Ok _ |- _ =>
      assert (H1 : SInv g tr0 None st1 /\ served g l st1)
        by (split; [apply SInv_own; [reflexivity|exact Hsv|exact Hinv]
                   |apply served_upd; [intros x; simpl; lia|exact Hsv]]);
      revert H1 Hloop; generalize st1
  end.
  generalize (seq 0 (length (getPrev L))). intros xs.
  induction xs as [|i xs IH]; intros t [Ht Hst] Hloop; simpl in Hloop.
  - injection Hloop as <-. apply SInv_trunc; assumption.
  - invO.
    match goal with
    | Hi : FCLayer_bpropInput _ _ _ _ _ = Ok ?r |- _ =>
        destruct (FCLayer_bpropInput_sum l L i t r Hi Ht Hst) as [Hr1 Hr2]
    end.
    match goal with
    | Hb : bprop _ _ = Ok ?t' |- _ =>
        apply (IH t'); [split|assumption];
        [eapply bprop_sum; eassumption
        |eapply served_grows; [eapply bprop_grows; exact Hb|exact Hr2]]
    end.
Qed.

Lemma SInv_weightGrads (o : option nat) (l : nat) (c : ConvParams)
  (prevActs v : Matrix F) (st : GraphState F) :
  served g l st -> SInv g tr0 o st ->
  SInv g tr0 o (ConvLayer_weightGrads l c prevActs v st) /\
  served g l (ConvLayer_weightGrads l c prevActs v st).
Proof.
  intros Hsv Hinv. unfold ConvLayer_weightGrads.
  destruct ((0 <? partialSum c) && (partialSum c <? modules c)); split;
    try (apply SInv_launch; apply SInv_own; [reflexivity|exact Hsv|exact Hinv]);
    apply (served_upd g l l _ st); [intros x; simpl; lia|exact Hsv
                                   |intros x; simpl; lia|exact Hsv].
Qed.

Lemma ConvLayer__bprop_sum (l : nat) (L : Layer F) (c : ConvParams)
  (neuron : string) (st st' : GraphState F) :
  ConvLayer__bprop g bprop l L c neuron st = Ok st' ->
  SInv g tr0 None st -> served g l st -> SInv g tr0 None st'.
Proof.
  unfold ConvLayer__bprop, layerAt, stateAt. intros Hrun Hinv Hsv. invO.
  eapply bprop_sum; [exact Hrun|].
  match goal with
  | |- SInv _ _ _ (Layer_truncActGrads _ (ConvLayer_weightGrads _ _ ?pa ?v ?t))
    => assert (H1 : SInv g tr0 (Some a0) t /\ served g l t)
  end.
  { split.
    - apply SInv_target; [assumption|].
      apply SInv_own; [reflexivity|exact Hsv|exact Hinv].
    - match goal with
      | |- served _ _ (if ?b then _ else _) =>
          destruct b; [apply served_write|];
          (apply served_upd; [intros x; simpl; lia|exact Hsv])
      end. }
  destruct H1 as [H1 H2].
  match goal with
  | |- SInv _ _ _ (Layer_truncActGrads _ (ConvLayer_weightGrads _ _ ?pa ?v ?t))
    => destruct (SInv_weightGrads (Some a0) l c pa v t H2 H1) as [H3 H4]
  end.
  apply SInv_trunc; assumption.
Qed.

Lemma SoftmaxLayer__bprop_sum (l : nat) (L : Layer F)
  (st st' : GraphState F) :
  SoftmaxLayer__bprop g bprop l L st = Ok st' ->
  SInv g tr0 None st -> served g l st -> SInv g tr0 None st'.
Proof.
  unfold SoftmaxLayer__bprop, layerAt, stateAt. intros Hrun Hinv Hsv. invO.
  - eapply bprop_sum; [exact Hrun|]. apply SInv_trunc.
    + apply served_write. exact Hsv.
    + apply SInv_write. apply SInv_launch. exact Hinv.
  - subst st'. exact Hinv.
Qed.

Lemma PoolLayer__bprop_sum (l : nat) (L : Layer F) (pp : PoolParams)
  (st st' : GraphState F) :
  layers g !! l = Some L -> kind L = PoolLayer pp ->
  PoolLayer__bprop g bprop l L pp st = Ok st' ->
  SInv g tr0 None st -> served g l st -> SInv g tr0 None st'.
Proof.
  unfold PoolLayer__bprop, layerAt, stateAt. intros HL Hk Hrun Hinv Hsv.
  invO.
  - eapply bprop_sum; [exact Hrun|].
    destruct (Hpool l L pp HL Hk) as [Hp|Hp]; rewrite Hp; simpl;
      (apply SInv_trunc; [apply served_write; exact Hsv
                         |apply SInv_write; exact Hinv]).
  - subst st'. exact Hinv.
Qed.

Lemma LogregCost_bprop_sum (l : nat) (L : Layer F) (coeff : F)
  (st st' : GraphState F) :
  layers g !! l = Some L -> kind L = LogregCost coeff ->
  LogregCost_bprop bprop l L coeff st = Ok st' ->
  SInv g tr0 None st -> SInv g tr0 None st'.
Proof.
  unfold LogregCost_bprop, stateAt. intros HL Hk Hrun Hinv.
  rewrite (Hcost l L coeff HL Hk) in Hrun. simpl in Hrun. invO.
  eapply bprop_sum; [exact Hrun|]. subst a.
  match goal with
  | H1 : getPrev L !! 1%nat = Some ?p, H2 : getPrev L !! 1%nat = Some ?q
    |- _ => rewrite H1 in H2; injection H2 as <-
  end.
  apply SInv_write. apply SInv_launch. exact Hinv.
Qed.
End SumKinds.

Section SumPass.
Context {F : Type} `{FloatOps F} `{Kernels F}.
Variable g : LayerGraph F.
Variable tr0 : list (Event F).
Hypothesis Hprop : forall l L, layers g !! l = Some L ->
  isPropagateGrad L = negb (isData (kind L)).
Hypothesis Hpool : forall l L pp, layers g !! l = Some L ->
  kind L = PoolLayer pp -> pool pp = "max" \/ pool pp = "avg".
Hypothesis Hcost : forall l L coeff, layers g !! l = Some L ->
  kind L = LogregCost coeff -> feqb coeff (of_int 0) = false.

Lemma served_fired (l : nat) (L : Layer F) (s : LayerState F)
  (st : GraphState F) :
  layers g !! l = Some L -> lstate st !! l = Some s ->
  getRcvdBInputs s + 1 = numGradProducersNext L ->
  served g l
    (log (EvBprop l (getActGrads s))
         (upd l (fun _ => set_rcvdBInputs (getRcvdBInputs s + 1) s) st)).
Proof.
  intros HL Hs HN L' s' HL' Hs'. simpl in Hs'.
  rewrite list_lookup_alter in Hs'.
  destruct (decide (l = l)) as [_|]; [|congruence].
  rewrite Hs in Hs'. injection Hs' as <-. simpl.
  rewrite HL in HL'. injection HL' as <-. lia.
Qed.

Lemma Layer_bprop_sum (fuel : nat) :
  forall l st st', Layer_bprop g fuel l st = Ok st' ->
    SInv g tr0 (Some l) st -> SInv g tr0 None st'.
Proof.
  induction fuel as [|fuel IH]; intros l st st' Hrun Hinv;
    rewrite Layer_bprop_eq in Hrun; unfold layerAt, stateAt in Hrun;
    apply bindO_Ok in Hrun; destruct Hrun as (L & HL & Hrun);
    apply deref_Ok in HL.
  - destruct (kind L) eqn:Hk; try discriminate Hrun;
      try (injection Hrun as <-;
           apply (SInv_skip g tr0 l L st HL);
           [unfold counting; rewrite Hk; reflexivity|exact Hinv]);
      invO; subst st';
      (eapply SInv_wait;
       [exact HL|unfold counting; rewrite Hk; reflexivity|eassumption
       |exact Hinv]).
  - destruct (kind L) eqn:Hk;
      try (injection Hrun as <-;
           apply (SInv_skip g tr0 l L st HL);
           [unfold counting; rewrite Hk; reflexivity|exact Hinv]);
      try (eapply (LogregCost_bprop_sum g tr0 Hcost);
           [apply IH|exact HL|exact Hk|exact Hrun|];
           apply (SInv_skip g tr0 l L st HL);
           [unfold counting; rewrite Hk; reflexivity|exact Hinv]);
      invO;
      try (subst st';
           eapply SInv_wait;
           [exact HL|unfold counting; rewrite Hk; reflexivity|eassumption
           |exact Hinv]);
      unfold Layer_bprop_v, stateAt in Hrun; rewrite Hk in Hrun; invO;
      (match goal with
       | Hs1 : lstate (upd l _ st) !! l = Some ?s1, Hs : lstate st !! l = Some ?s
         |- _ =>
           rewrite (upd_lookup_eq l _ st s Hs) in Hs1; injection Hs1 as <-;
           assert (Hfire : getRcvdBInputs s + 1 = numGradProducersNext L)
             by (apply Z.eqb_eq; assumption);
           pose proof (SInv_fire g tr0 l L s st HL
                         ltac:(unfold counting; rewrite Hk; reflexivity)
                         Hs Hfire Hinv) as Hinv1;
           pose proof (served_fired l L s st HL Hs Hfire) as Hsv1
       end).
    + eapply (FCLayer__bprop_sum g tr0 Hprop);
        [apply IH|intros p t t'; apply Layer_bprop_grows|exact Hrun
        |exact Hinv1|exact Hsv1].
    + eapply (ConvLayer__bprop_sum g tr0 Hprop);
        [apply IH|exact Hrun|exact Hinv1|exact Hsv1].
    + eapply (PoolLayer__bprop_sum g tr0 Hpool);
        [apply IH|exact HL|exact Hk|exact Hrun|exact Hinv1|exact Hsv1].
    + eapply (SoftmaxLayer__bprop_sum g tr0);
        [apply IH|exact Hrun|exact Hinv1|exact Hsv1].
Qed.

Lemma bprop_costs_sum (fuel : nat) (cs : list nat) :
  (forall c, In c cs ->
     exists L, layers g !! c = Some L /\ counting L = false) ->
  forall st st', forEach (Layer_bprop g fuel) cs st = Ok st' ->
    SInv g tr0 None st -> SInv g tr0 None st'.
Proof.
  induction cs as [|c cs IH]; intros Hcs st st' Hloop Hinv; simpl in Hloop.
  - injection Hloop as <-. exact Hinv.
  - invO. destruct (Hcs c (or_introl eq_refl)) as (L & HL & Hk).
    apply (IH (fun x Hx => Hcs x (or_intror Hx)) a st' Hloop).
    apply (Layer_bprop_sum fuel c st a Ha).
    apply (SInv_skip g tr0 c L st HL Hk). exact Hinv.
Qed.

Lemma SInv_start (st : GraphState F) :
  trace st = tr0 ->
  (forall l s, lstate st !! l = Some s -> getRcvdBInputs s = 0) ->
  SInv g tr0 None st.
Proof.
  intros Ht Hz. exists []. split; [rewrite Ht, app_nil_r; reflexivity|].
  split.
  - intros p L s HL Hk Hs. rewrite (Hz p s Hs). simpl.
    split; [lia|]. split; [reflexivity|]. intros _ Hne. congruence.
  - intros pre l v post Heq. destruct pre; discriminate Heq.
Qed.
End SumPass.

Section SumTheorem.
Context {F : Type} `{FloatOps F} `{Kernels F}.

End SumTheorem.

